(** * GPU memory manager of NVCaffe: [src/caffe/util/gpu_memory.cpp]

    A shallow embedding of [GPUMemory::Manager], [GPUMemory::Workspace] and
    the two pinned-buffer pools, and the properties of the allocator
    subsystem that follow from the code.

    Conventions of the embedding.
    - [size_t] is a 64-bit unsigned integer, carried as a [Z] in
      [0, 2^64) with the wrap-around written out ([size_t], [add64],
      [sub64]); [int] values (device and group indices) are plain [Z],
      and an [int] sum is checked against the range of [int] ([int_add]);
      pointers and stream handles are addresses in [Z], [nullptr] is [0].
    - The CUDA runtime, the cub caching allocator and the stream provider
      are outside the file.  Every call to them is recorded, with what it
      returned, in a trace; what a call returns is read from an oracle
      carried by the state, indexed by the number of calls made so far,
      so that a theorem about all states is about all behaviours of the
      driver.  What a statement needs of the cache's reports is a
      hypothesis on the trace ([well_reported]).
    - [LOG(FATAL)], a failed [CHECK] / [CUDA_CHECK] and an exception that
      nothing catches end the process: result [Fatal].  An access outside
      a [std::vector] and a call through an empty handle have no defined
      behaviour: result [Undefined].
    - Logging is left out ([DLOG] lines are compiled out of a release
      build); [report_dev_info] is kept for the driver calls it makes. *)

From Stdlib Require Import ZArith Lia Floats.SpecFloat.
From stdpp Require Import base option list gmap.

Open Scope Z_scope.

(** ** Machine integers *)

Definition size_t (z : Z) : Z := z mod 2 ^ 64.
Definition add64 (a b : Z) : Z := size_t (a + b).
Definition sub64 (a b : Z) : Z := size_t (a - b).
(** [unsigned int], for [group + 1U]. *)
Definition uint (z : Z) : Z := z mod 2 ^ 32.

(** [std::vector::resize] beyond [max_size()] throws [std::length_error];
    [2^63 - 1] bounds [max_size()] for every element type. *)
Definition vector_max_size : Z := 2 ^ 63 - 1.

(** ** [update_thresholds_[device] *= 0.9F]

    The [size_t] operand is converted to [float] (binary32, round to
    nearest even), multiplied by the binary32 constant nearest to 0.9 and
    converted back to [size_t] by truncation. *)

Definition float_prec : Z := 24.
Definition float_emax : Z := 128.

Definition float_of_size_t (n : Z) : spec_float :=
  binary_normalize float_prec float_emax n 0 false.

(** [0.9F] is [0x3F666666], that is 15099494 * 2^-24. *)
Definition float_0_9 : spec_float := S754_finite false 15099494 (-24).

Definition size_t_of_float (f : spec_float) : Z :=
  match f with
  | S754_finite false m e =>
      if 0 <=? e then Z.pos m * 2 ^ e else Z.pos m / 2 ^ (- e)
  | _ => 0
  end.

Definition decay_threshold (t : Z) : Z :=
  size_t_of_float (SFmul float_prec float_emax (float_of_size_t t) float_0_9).

(** ** Constants of [gpu_memory.cpp] *)

(** [cub::CachingDeviceAllocator::INVALID_DEVICE_ORDINAL] *)
Definition INVALID_DEVICE : Z := -1.
Definition BIN_GROWTH : Z := 2.
Definition MIN_BIN : Z := 6.
Definition MAX_BIN : Z := 22.
Definition MAX_CACHED_BYTES : Z := size_t (-1).
Definition MAX_CACHED_SIZE : Z := Z.shiftl 1 MAX_BIN.
Definition INITIAL_PINNED_BYTES : Z := 64.

(** ** The outside world: driver, cub, stream provider *)

Inductive cudaError_t :=
| cudaSuccess
| cudaErrorMemoryAllocation
| cudaErrorCudartUnloading
| cudaErrorOther (code : Z).

#[global] Instance cudaError_t_eq_dec : EqDecision cudaError_t.
Proof. solve_decision. Defined.

(** The arguments [new cub::CachingDeviceAllocator(...)] is given. *)
Record CachingDeviceAllocator := mkCub {
  bin_growth : Z;
  min_bin : Z;
  max_bin : Z;
  max_cached_bytes : Z;
  skip_cleanup : bool;
  cub_debug : bool
}.

Inductive Call :=
| cudaGetDevice
| cudaSetDevice (device : Z)
| cudaFree (p : Z)
| cudaGetDeviceProperties (device : Z)
| cudaMemGetInfo
| cudaGetLastError
| cudaHostAlloc (size : Z)
| cudaHostGetDevicePointer (hptr : Z)
| cudaFreeHost (p : Z)
| getenv_DEBUG_GPU_MEM
| cub_new (a : CachingDeviceAllocator)
| cub_delete
| cub_DeviceAllocate (device size stream : Z)
| cub_DeviceFree (device p : Z)
| cub_cached_bytes_free (device : Z)
| Caffe_thread_pstream (group : Z).

(** What a call returned: its status ([cub_new]: anything but
    [cudaSuccess] is a thrown exception) and up to two output values. *)
Record Answer := mkAnswer {
  status : cudaError_t;
  out1 : Z;
  out2 : Z
}.

(** The two ways of holding [GPUMemory::read_write_mutex()]:
    [shared_lock] and [unique_lock]. *)
Inductive lock_mode := shared | exclusive.

Inductive Event :=
| Called (c : Call) (a : Answer)
| Acquire (m : lock_mode)
| Release (m : lock_mode).

Record Driver := mkDriver {
  answers : nat → Answer;
  clock : nat;
  trace : list Event;          (* most recent event first *)
  active_device : Z            (* the calling thread's CUDA device *)
}.

(** ** The state of the file *)

Record DevInfo := mkDevInfo {
  free_ : Z;                   (* size_t *)
  total_ : Z;                  (* size_t *)
  flush_count_ : Z             (* a counter; its type is the header's *)
}.

(** [DevInfo()], which [std::vector::resize] fills new entries with. *)
Definition DevInfo_new : DevInfo := mkDevInfo 0 0 0.

Record Manager := mkManager {
  debug_ : bool;
  initialized_ : bool;
  cub_allocator_ : option CachingDeviceAllocator;
  dev_info_ : list DevInfo;
  update_thresholds_ : list Z;
  pinned_host_buffers_ : list (list Z);
  pinned_device_buffers_ : list (list Z);
  pinned_buffer_sizes_ : list (list Z);
  (* [static Scope gpu_memory_scope] of [lazy_init]: constructed yet? *)
  gpu_memory_scope : bool
}.

(** The [static thread_local] variables of [thread_pinned_buffer]. *)
Record ThreadLocal := mkThreadLocal {
  host_buffers : gmap Z Z;
  device_buffers : gmap Z Z;
  sizes : list Z
}.

Record Process := mkProcess {
  mgr_ : Manager;
  thread_local_ : ThreadLocal;
  cuda : Driver
}.

Definition set_mgr (f : Manager → Manager) (s : Process) : Process :=
  mkProcess (f (mgr_ s)) (thread_local_ s) (cuda s).
Definition set_thread_local (f : ThreadLocal → ThreadLocal) (s : Process) : Process :=
  mkProcess (mgr_ s) (f (thread_local_ s)) (cuda s).
Definition set_cuda (f : Driver → Driver) (s : Process) : Process :=
  mkProcess (mgr_ s) (thread_local_ s) (f (cuda s)).

Definition with_debug (b : bool) (m : Manager) : Manager :=
  mkManager b (initialized_ m) (cub_allocator_ m) (dev_info_ m)
    (update_thresholds_ m) (pinned_host_buffers_ m) (pinned_device_buffers_ m)
    (pinned_buffer_sizes_ m) (gpu_memory_scope m).
Definition with_initialized (b : bool) (m : Manager) : Manager :=
  mkManager (debug_ m) b (cub_allocator_ m) (dev_info_ m)
    (update_thresholds_ m) (pinned_host_buffers_ m) (pinned_device_buffers_ m)
    (pinned_buffer_sizes_ m) (gpu_memory_scope m).
Definition with_cub_allocator (c : option CachingDeviceAllocator) (m : Manager) : Manager :=
  mkManager (debug_ m) (initialized_ m) c (dev_info_ m)
    (update_thresholds_ m) (pinned_host_buffers_ m) (pinned_device_buffers_ m)
    (pinned_buffer_sizes_ m) (gpu_memory_scope m).
Definition with_dev_info (v : list DevInfo) (m : Manager) : Manager :=
  mkManager (debug_ m) (initialized_ m) (cub_allocator_ m) v
    (update_thresholds_ m) (pinned_host_buffers_ m) (pinned_device_buffers_ m)
    (pinned_buffer_sizes_ m) (gpu_memory_scope m).
Definition with_update_thresholds (v : list Z) (m : Manager) : Manager :=
  mkManager (debug_ m) (initialized_ m) (cub_allocator_ m) (dev_info_ m)
    v (pinned_host_buffers_ m) (pinned_device_buffers_ m)
    (pinned_buffer_sizes_ m) (gpu_memory_scope m).
Definition with_pinned (h d sz : list (list Z)) (m : Manager) : Manager :=
  mkManager (debug_ m) (initialized_ m) (cub_allocator_ m) (dev_info_ m)
    (update_thresholds_ m) h d sz (gpu_memory_scope m).
Definition with_gpu_memory_scope (b : bool) (m : Manager) : Manager :=
  mkManager (debug_ m) (initialized_ m) (cub_allocator_ m) (dev_info_ m)
    (update_thresholds_ m) (pinned_host_buffers_ m) (pinned_device_buffers_ m)
    (pinned_buffer_sizes_ m) b.

(** ** A state monad with two ways of failing *)

Inductive result (A : Type) :=
| Ok (a : A)
| Fatal
| Undefined.
Arguments Ok {A} a.
Arguments Fatal {A}.
Arguments Undefined {A}.

Definition M (A : Type) : Type := Process → result A * Process.

#[global] Instance M_ret : MRet M := λ A a s, (Ok a, s).
#[global] Instance M_bind : MBind M := λ A B k m s,
  match m s with
  | (Ok a, s1) => k a s1
  | (Fatal, s1) => (Fatal, s1)
  | (Undefined, s1) => (Undefined, s1)
  end.

Definition fatal {A} : M A := λ s, (Fatal, s).
Definition undefined {A} : M A := λ s, (Undefined, s).
Definition get_mgr : M Manager := λ s, (Ok (mgr_ s), s).
Definition modify_mgr (f : Manager → Manager) : M unit := λ s, (Ok tt, set_mgr f s).
Definition get_thread_local : M ThreadLocal := λ s, (Ok (thread_local_ s), s).
Definition modify_thread_local (f : ThreadLocal → ThreadLocal) : M unit :=
  λ s, (Ok tt, set_thread_local f s).
Definition get_active_device : M Z := λ s, (Ok (active_device (cuda s)), s).
Definition when (b : bool) (m : M unit) : M unit := if b then m else mret tt.

(** [a + b] on [int], 32 bits wide: a sum outside the range of [int] has
    no defined behaviour. *)
Definition INT_MAX : Z := 2 ^ 31 - 1.
Definition INT_MIN : Z := - 2 ^ 31.
Definition int_add (a b : Z) : M Z :=
  if (INT_MIN <=? a + b) && (a + b <=? INT_MAX) then mret (a + b) else undefined.

(** A call to the outside: the oracle's next answer, recorded. *)
Definition record_call (c : Call) (d : Driver) : Driver :=
  mkDriver (answers d) (S (clock d)) (Called c (answers d (clock d)) :: trace d)
    (active_device d).
Definition call (c : Call) : M Answer :=
  λ s, (Ok (answers (cuda s) (clock (cuda s))), set_cuda (record_call c) s).

Definition record_event (e : Event) (d : Driver) : Driver :=
  mkDriver (answers d) (clock d) (e :: trace d) (active_device d).
Definition modify_cuda (f : Driver → Driver) : M unit := λ s, (Ok tt, set_cuda f s).
Definition emit (e : Event) : M unit := modify_cuda (record_event e).

Definition select_device (device : Z) (d : Driver) : Driver :=
  mkDriver (answers d) (clock d) (trace d) device.

Definition succeeded (a : Answer) : bool := bool_decide (status a = cudaSuccess).

Definition CHECK (b : bool) : M unit := if b then mret tt else fatal.
Definition CUDA_CHECK (a : Answer) : M unit := CHECK (succeeded a).

(** [v[i]] of a [std::vector], the [int] index converted to [size_t]. *)
Definition at_ {A} (v : list A) (i : Z) : M A :=
  if i <? 0 then undefined
  else match v !! Z.to_nat i with
       | Some x => mret x
       | None => undefined
       end.

(** [v.resize(n)] *)
Definition vector_resize {A} (n : Z) (d : A) (v : list A) : M (list A) :=
  if vector_max_size <? n then fatal else mret (resize (Z.to_nat n) d v).

Definition vector_size {A} (v : list A) : Z := Z.of_nat (length v).

(** ** Helpers declared outside the file *)

(** Modelled from the spec: [current_device()] is declared in a header that
    is not part of the sources; it is "the calling context's active
    device", asked from the driver. *)
Definition current_device : M Z :=
  a ← call cudaGetDevice;
  CUDA_CHECK a;;
  get_active_device.

(** [cudaSetDevice(device)] under [CUDA_CHECK]: on success the calling
    thread's active device is [device]. *)
Definition set_device (device : Z) : M unit :=
  a ← call (cudaSetDevice device);
  CUDA_CHECK a;;
  modify_cuda (select_device device).

(** ** [GPUMemory::Manager] *)

(** [Manager::Manager()], [count] being what [cudaGetDeviceCount] gave. *)
Definition Manager_new (count : nat) : Manager :=
  mkManager false false None
    (replicate count DevInfo_new) (replicate count 0)
    (replicate count []) (replicate count []) (replicate count [])
    false.

Definition dev_info_at (device : Z) : M DevInfo :=
  m ← get_mgr; at_ (dev_info_ m) device.

Definition update_threshold_at (device : Z) : M Z :=
  m ← get_mgr; at_ (update_thresholds_ m) device.

(** [dev_info_[device] = f(dev_info_[device])] *)
Definition store_dev_info (device : Z) (f : DevInfo → DevInfo) : M unit :=
  di ← dev_info_at device;
  modify_mgr (λ m, with_dev_info (<[Z.to_nat device := f di]> (dev_info_ m)) m).

(** [update_thresholds_[device] = t] *)
Definition store_update_threshold (device : Z) (t : Z) : M unit :=
  _ ← update_threshold_at device;
  modify_mgr (λ m, with_update_thresholds (<[Z.to_nat device := t]> (update_thresholds_ m)) m).

Definition with_free (x : Z) (di : DevInfo) : DevInfo :=
  mkDevInfo x (total_ di) (flush_count_ di).
Definition with_total (x : Z) (di : DevInfo) : DevInfo :=
  mkDevInfo (free_ di) x (flush_count_ di).
Definition incr_flush_count (di : DevInfo) : DevInfo :=
  mkDevInfo (free_ di) (total_ di) (flush_count_ di + 1).

Definition update_dev_info (device : Z) : M unit :=
  initial_device ← current_device;
  m ← get_mgr;
  device1 ← int_add device 1;
  when (vector_size (dev_info_ m) <? size_t device1)
    (v ← vector_resize (size_t device1) DevInfo_new (dev_info_ m);
     modify_mgr (with_dev_info v));;
  set_device device;;
  a ← call (cudaFree 0);
  CUDA_CHECK a;;
  props ← call (cudaGetDeviceProperties device);
  CUDA_CHECK props;;
  mem ← call cudaMemGetInfo;
  store_dev_info device (λ di, with_total (size_t (out2 mem)) (with_free (size_t (out1 mem)) di));;
  CUDA_CHECK mem;;
  store_dev_info device (λ di, with_total (Z.min (size_t (out1 props)) (total_ di)) di);;
  store_dev_info device (λ di, with_free (Z.min (total_ di) (free_ di)) di);;
  set_device initial_device.

(** Returns the four numbers the report prints:
    [props.totalGlobalMem], the driver's free, and the table's total and free. *)
Definition report_dev_info (device : Z) : M (Z * Z * Z * Z) :=
  emit (Acquire shared);;
  props ← call (cudaGetDeviceProperties device);
  CUDA_CHECK props;;
  mem ← call cudaMemGetInfo;
  CUDA_CHECK mem;;
  di ← dev_info_at device;
  emit (Release shared);;
  mret (size_t (out1 props), size_t (out1 mem), total_ di, free_ di).

(** [cub_allocator_.reset(p)]: the handle is replaced and the allocator
    it held, if any, destroyed. *)
Definition reset_cub_allocator (p : option CachingDeviceAllocator) : M unit :=
  m ← get_mgr;
  when (bool_decide (is_Some (cub_allocator_ m))) (_ ← call cub_delete; mret tt);;
  modify_mgr (with_cub_allocator p).

Fixpoint init_devices (gpus : list Z) : M unit :=
  match gpus with
  | [] => mret tt
  | g :: rest =>
      update_dev_info g;;
      di ← dev_info_at g;
      store_update_threshold g (total_ di);;
      init_devices rest
  end.

Fixpoint report_devices (gpus : list Z) : M unit :=
  match gpus with
  | [] => mret tt
  | g :: rest => _ ← report_dev_info g; report_devices rest
  end.

Definition init (gpus : list Z) (debug : bool) : M unit :=
  m ← get_mgr;
  if initialized_ m then mret tt
  else
    env ← call getenv_DEBUG_GPU_MEM;
    let debug_env := negb (out1 env =? 0) in
    modify_mgr (with_debug (debug || debug_env));;
    m ← get_mgr;
    let fresh := mkCub BIN_GROWTH MIN_BIN MAX_BIN MAX_CACHED_BYTES true (debug_ m) in
    (* try { cub_allocator_.reset(new ...) } catch (...) { } *)
    built ← call (cub_new fresh);
    when (succeeded built) (reset_cub_allocator (Some fresh));;
    m ← get_mgr;
    CHECK (bool_decide (is_Some (cub_allocator_ m)));;
    init_devices gpus;;
    modify_mgr (with_initialized true);;
    report_devices gpus.

Definition reset : M unit :=
  m ← get_mgr;
  if initialized_ m then
    reset_cub_allocator None;;
    modify_mgr (with_initialized false)
  else mret tt.

(** [Manager::~Manager()]: every pinned host buffer is freed, the
    status dropped. *)
Fixpoint free_host_buffers (buffers : list Z) : M unit :=
  match buffers with
  | [] => mret tt
  | b :: rest => _ ← call (cudaFreeHost b); free_host_buffers rest
  end.

Definition Manager_delete : M unit :=
  m ← get_mgr;
  free_host_buffers (concat (pinned_host_buffers_ m)).

(** Modelled from the spec: the constructor of [Scope] is declared in a
    header that is not part of the sources; "on construction calls
    Allocator Manager init".  [lazy_init] builds it with the default
    [debug = false]. *)
Definition Scope_new (gpus : list Z) : M unit := init gpus false.

Definition lazy_init (device : Z) : M unit :=
  m ← get_mgr;
  if initialized_ m then mret tt
  else
    device ← (if device <? 0
              then a ← call cudaGetDevice; CUDA_CHECK a;; get_active_device
              else mret device);
    (* static Scope gpu_memory_scope(gpus): built the first time only *)
    m ← get_mgr;
    if gpu_memory_scope m then mret tt
    else Scope_new [device];; modify_mgr (with_gpu_memory_scope true).

(** The loop of [try_allocate] over all devices; [update_dev_info (i)]
    with [i] inside the table does not change its size. *)
Fixpoint refresh_all (n : nat) (i cur_device : Z) : M unit :=
  match n with
  | O => mret tt
  | S n' =>
      di ← dev_info_at i;
      when (negb (total_ di =? 0))
        (update_dev_info i;;
         when (i =? cur_device) (store_dev_info i incr_flush_count));;
      refresh_all n' (i + 1) cur_device
  end.

(** The update of DeviceInfo that [try_allocate] makes inside the lock
    when cub allocated on a valid device: the body of
    [if (size_allocated > 0)]. *)
Definition account_allocation (device size_allocated : Z) : M unit :=
  when (0 <? size_allocated)
    (di ← dev_info_at device;
     threshold ← update_threshold_at device;
     if free_ di <? threshold then
       update_dev_info device;;
       threshold ← update_threshold_at device;
       store_update_threshold device (decay_threshold threshold)
     else if free_ di <? size_allocated then
       update_dev_info device
     else
       store_dev_info device (λ di, with_free (sub64 (free_ di) size_allocated) di)).

(** What [try_allocate] does after the lock when the allocation or the
    driver's last error is not [cudaSuccess]: the body of
    [if (status != cudaSuccess || last_err != cudaSuccess)]. *)
Definition refresh_after_error (device : Z) : M unit :=
  m ← get_mgr;
  if (INVALID_DEVICE <? device) && (device <? vector_size (dev_info_ m)) then
    di ← dev_info_at device;
    when (negb (total_ di =? 0))
      (update_dev_info device;;
       store_dev_info device incr_flush_count)
  else
    a ← call cudaGetDevice;
    CUDA_CHECK a;;
    cur_device ← get_active_device;
    m ← get_mgr;
    refresh_all (length (dev_info_ m)) 0 cur_device.

(** [try_allocate(&ptr, pstream, size, device, group)]: returns the
    boolean with what was written to [*ptr] and [pstream].  [ptr] itself
    is the address of a variable of the caller ([CHECK_NOTNULL(ptr)]
    holds). *)
Definition try_allocate (size device group : Z) : M (bool * Z * Z) :=
  m ← get_mgr;
  when (negb (initialized_ m)) (lazy_init device);;
  cur ← current_device;
  CHECK (cur =? device);;
  emit (Acquire shared);;
  ps ← call (Caffe_thread_pstream group);
  let pstream := out1 ps in
  m ← get_mgr;
  _ ← (match cub_allocator_ m with Some _ => mret tt | None => undefined end);
  r ← call (cub_DeviceAllocate device size pstream);
  let ptr := size_t (out1 r) in
  let size_allocated := size_t (out2 r) in
  when (succeeded r && (INVALID_DEVICE <? device))
    (account_allocation device size_allocated);;
  emit (Release shared);;
  last_err ← call cudaGetLastError;
  when (negb (succeeded r) || negb (succeeded last_err))
    (refresh_after_error device);;
  mret (succeeded r, ptr, pstream).

Definition deallocate (ptr device : Z) : M unit :=
  m ← get_mgr;
  if (ptr =? 0) || negb (bool_decide (is_Some (cub_allocator_ m))) then mret tt
  else
    st ← call cudaGetDevice;
    if bool_decide (status st = cudaErrorCudartUnloading) then mret tt
    else
      emit (Acquire shared);;
      r ← call (cub_DeviceFree device ptr);
      CUDA_CHECK r;;
      let size_deallocated := size_t (out1 r) in
      when (0 <? size_deallocated)
        (store_dev_info device (λ di, with_free (add64 (free_ di) size_deallocated) di));;
      emit (Release shared).

(** [GetInfo(&free_mem, &total_mem, with_update)]: returns
    [(free_mem, total_mem)]. *)
Definition GetInfo (with_update : bool) : M (Z * Z) :=
  m ← get_mgr;
  CHECK (bool_decide (is_Some (cub_allocator_ m)));;
  a ← call cudaGetDevice;
  CUDA_CHECK a;;
  cur_device ← get_active_device;
  when with_update (update_dev_info cur_device);;
  di ← dev_info_at cur_device;
  let total_mem := total_ di in
  cached ← call (cub_cached_bytes_free cur_device);
  let free_mem := add64 (free_ di) (size_t (out1 cached)) in
  mret (if total_mem <? free_mem then total_mem else free_mem, total_mem).

(** ** The process-wide pinned-buffer pool *)

(** [v[i][j]] and [v[i][j] = x] *)
Definition at2 {A} (v : list (list A)) (i j : Z) : M A :=
  row ← at_ v i; at_ row j.

Definition store2 {A} (v : list (list A)) (i j : Z) (x : A) : M (list (list A)) :=
  row ← at_ v i;
  _ ← at_ row j;
  mret (<[Z.to_nat i := <[Z.to_nat j := x]> row]> v).

(** [v[i].resize(n)] *)
Definition resize_row {A} (v : list (list A)) (i n : Z) (d : A) : M (list (list A)) :=
  row ← at_ v i;
  row' ← vector_resize n d row;
  mret (<[Z.to_nat i := row']> v).

Definition resize_buffers (device group : Z) : M bool :=
  CHECK (0 <=? device);;
  CHECK (0 <=? group);;
  m ← get_mgr;
  device1 ← int_add device 1;
  resized1 ←
    (if vector_size (pinned_buffer_sizes_ m) <? device1 then
       h ← vector_resize device1 [] (pinned_host_buffers_ m);
       d ← vector_resize device1 [] (pinned_device_buffers_ m);
       sz ← vector_resize device1 [] (pinned_buffer_sizes_ m);
       modify_mgr (with_pinned h d sz);;
       mret true
     else mret false);
  m ← get_mgr;
  group1 ← int_add group 1;
  row ← at_ (pinned_buffer_sizes_ m) device;
  if vector_size row <? group1 then
    h ← resize_row (pinned_host_buffers_ m) device group1 0;
    d ← resize_row (pinned_device_buffers_ m) device group1 0;
    sz ← resize_row (pinned_buffer_sizes_ m) device group1 0;
    modify_mgr (with_pinned h d sz);;
    mret true
  else mret resized1.

Definition pinned_buffer (size device group : Z) : M Z :=
  resized ← resize_buffers device group;
  let size := Z.max size INITIAL_PINNED_BYTES in
  m ← get_mgr;
  current_size ← at2 (pinned_buffer_sizes_ m) device group;
  when ((current_size <? size) || resized)
    (emit (Acquire shared);;
     when (negb resized)
       (old ← at2 (pinned_host_buffers_ m) device group;
        _ ← call (cudaFreeHost old);
        mret tt);;
     ha ← call (cudaHostAlloc size);
     h ← store2 (pinned_host_buffers_ m) device group (size_t (out1 ha));
     modify_mgr (λ m, with_pinned h (pinned_device_buffers_ m) (pinned_buffer_sizes_ m) m);;
     CUDA_CHECK ha;;
     da ← call (cudaHostGetDevicePointer (size_t (out1 ha)));
     d ← store2 (pinned_device_buffers_ m) device group (size_t (out1 da));
     modify_mgr (λ m, with_pinned (pinned_host_buffers_ m) d (pinned_buffer_sizes_ m) m);;
     CUDA_CHECK da;;
     sz ← store2 (pinned_buffer_sizes_ m) device group size;
     modify_mgr (λ m, with_pinned (pinned_host_buffers_ m) (pinned_device_buffers_ m) sz m);;
     emit (Release shared));;
  m ← get_mgr;
  at2 (pinned_device_buffers_ m) device group.

(** ** The thread-local pinned-buffer pool *)

Definition host_buffer_cleaner (buffer : Z) : M unit :=
  emit (Acquire shared);;
  a ← call (cudaFreeHost buffer);
  CUDA_CHECK a;;
  emit (Release shared).

Definition device_buffer_cleaner (buffer : Z) : M unit := mret tt.

(** [~unique_ptr()]: the deleter runs on a pointer that is not null. *)
Definition unique_ptr_delete (deleter : Z → M unit) (p : Z) : M unit :=
  when (negb (p =? 0)) (deleter p).

(** [m.emplace(std::make_pair(key, unique_ptr<void, D>(p, deleter)))]:
    [std::unordered_map::emplace] inserts nothing when the map has an
    element with that key; the [unique_ptr] that was not inserted still
    owns [p] and is destroyed. *)
Definition emplace (m : gmap Z Z) (key p : Z) (deleter : Z → M unit) : M (gmap Z Z) :=
  match m !! key with
  | Some _ => unique_ptr_delete deleter p;; mret m
  | None => mret (<[key := p]> m)
  end.

Definition with_host_buffers (h : gmap Z Z) (t : ThreadLocal) : ThreadLocal :=
  mkThreadLocal h (device_buffers t) (sizes t).
Definition with_device_buffers (d : gmap Z Z) (t : ThreadLocal) : ThreadLocal :=
  mkThreadLocal (host_buffers t) d (sizes t).
Definition with_sizes (v : list Z) (t : ThreadLocal) : ThreadLocal :=
  mkThreadLocal (host_buffers t) (device_buffers t) v.

Definition thread_pinned_buffer (size group : Z) : M Z :=
  CHECK (0 <? size);;
  t ← get_thread_local;
  when (vector_size (sizes t) <? uint (group + 1))
    (v ← vector_resize (uint (group + 1)) 0 (sizes t);
     modify_thread_local (with_sizes v));;
  t ← get_thread_local;
  current ← at_ (sizes t) group;
  when (current <? size)
    (ha ← call (cudaHostAlloc size);
     CUDA_CHECK ha;;
     let hptr := size_t (out1 ha) in
     da ← call (cudaHostGetDevicePointer hptr);
     CUDA_CHECK da;;
     let dptr := size_t (out1 da) in
     t ← get_thread_local;
     h ← emplace (host_buffers t) group hptr host_buffer_cleaner;
     modify_thread_local (with_host_buffers h);;
     t ← get_thread_local;
     d ← emplace (device_buffers t) group dptr device_buffer_cleaner;
     modify_thread_local (with_device_buffers d);;
     t ← get_thread_local;
     modify_thread_local (with_sizes (<[Z.to_nat group := size]> (sizes t))));;
  t ← get_thread_local;
  match device_buffers t !! group with
  | Some p => mret p
  | None => undefined
  end.

(** The page-locked host memory that is allocated after a trace:
    pointer ↦ size. *)
Definition pinned_effect (e : Event) (heap : gmap Z Z) : gmap Z Z :=
  match e with
  | Called (cudaHostAlloc size) a =>
      if succeeded a then <[size_t (out1 a) := size]> heap else heap
  | Called (cudaFreeHost p) a =>
      if succeeded a then delete p heap else heap
  | _ => heap
  end.

Fixpoint pinned_heap (tr : list Event) : gmap Z Z :=
  match tr with
  | [] => ∅
  | e :: earlier => pinned_effect e (pinned_heap earlier)
  end.

(** The host pointer a device pointer was obtained from, by the latest
    [cudaHostGetDevicePointer] that returned it. *)
Fixpoint mapped_from (tr : list Event) (dptr : Z) : option Z :=
  match tr with
  | [] => None
  | Called (cudaHostGetDevicePointer hptr) a :: earlier =>
      if succeeded a && (size_t (out1 a) =? dptr) then Some hptr
      else mapped_from earlier dptr
  | _ :: earlier => mapped_from earlier dptr
  end.

(** ** [GPUMemory::Workspace] *)

Record Workspace := mkWorkspace {
  ptr_ : Z;
  size_ : Z;
  device_ : Z;
  pstream_ : Z
}.

(** Modelled from the spec: [Workspace::release] is defined in a header
    that is not part of the sources; it "frees held memory via the
    Allocator Manager and resets ptr/size to empty". *)
Definition release (w : Workspace) : M Workspace :=
  deallocate (ptr_ w) (device_ w);;
  mret (mkWorkspace 0 0 (device_ w) (pstream_ w)).

Section WorkspaceOps.
(** The default value of the [group] parameter of [try_allocate], which
    the header gives. *)
Variable default_group : Z.

Definition try_reserve (size device : Z) (w : Workspace) : M (bool * Workspace) :=
  if (size_ w <? size) || (ptr_ w =? 0) then
    w ← release w;
    let w := if device =? INVALID_DEVICE then w
             else mkWorkspace (ptr_ w) (size_ w) device (pstream_ w) in
    r ← try_allocate size (device_ w) default_group;
    let allocated : bool := r.1.1 in
    let ptr : Z := r.1.2 in
    let pstream : Z := r.2 in
    let w := mkWorkspace ptr (size_ w) (device_ w) pstream in
    if allocated then
      CHECK (negb (ptr =? 0));;
      mret (true, mkWorkspace (ptr_ w) size (device_ w) (pstream_ w))
    else mret (false, w)
  else mret (true, w).
End WorkspaceOps.

(** ** [Workspace::safe_reserve] *)

Section SafeReserve.
(** [align_down<7>] and [Workspace::reserve] are defined in a header that
    is not part of the sources: what they compute and do is left open.
    [GPUMemory::GetInfo] is the manager's. *)
Variable align_down_7 : Z → Z.
Variable reserve : Z → Z → Workspace → M Workspace.

Definition safe_reserve (size device : Z) (w : Workspace) : M (bool * Workspace) :=
  if size <=? size_ w then mret (false, w)
  else
    info ← GetInfo true;
    let gpu_bytes_left : Z := info.1 in
    if add64 (size_ w) (size_t (align_down_7 gpu_bytes_left)) <? size then
      (* LOG(FATAL) << "Out of memory in safe_reserve: ..." *)
      fatal
    else
      w ← release w;
      w ← reserve size device w;
      mret (true, w).
End SafeReserve.

(** ** [GPUMemory::Init] and [GPUMemory::Finalize] *)

(** [workspace_] and [weights_workspace_]: one [shared_ptr<Workspace>]
    per device, an empty one being [None]. *)
Record Workspaces := mkWorkspaces {
  workspace_ : list (option Workspace);
  weights_workspace_ : list (option Workspace)
}.

Section InitFinalize.
(** [make_shared<Workspace>()]: the default constructor of [Workspace] is
    in a header that is not part of the sources; what it does is left
    open. *)
Variable Workspace_new : M Workspace.

(** [ws_mutex_init_], which both functions hold from entry to exit, is a
    mutex of its own, not [read_write_mutex()]. *)
Definition Init (t : Workspaces) : M Workspaces :=
  device ← current_device;
  device1 ← int_add device 1;
  v ← (if vector_size (workspace_ t) <? size_t device1
       then vector_resize (size_t device1) None (workspace_ t)
       else mret (workspace_ t));
  e ← at_ v device;
  v ← (match e with
       | Some _ => mret v
       | None => w ← Workspace_new; mret (<[Z.to_nat device := Some w]> v)
       end);
  v' ← (if vector_size (weights_workspace_ t) <? size_t device1
        then vector_resize (size_t device1) None (weights_workspace_ t)
        else mret (weights_workspace_ t));
  e ← at_ v' device;
  v' ← (match e with
        | Some _ => mret v'
        | None => w ← Workspace_new; mret (<[Z.to_nat device := Some w]> v')
        end);
  mret (mkWorkspaces v v').

(** [workspace_[device]->release(); workspace_[device].reset();] for an
    entry that is there and not empty.  The workspace, just released,
    holds no memory when the pointer to it is dropped. *)
Definition release_and_reset (device : Z) (v : list (option Workspace))
    : M (list (option Workspace)) :=
  if size_t device <? vector_size v then
    e ← at_ v device;
    match e with
    | Some w => _ ← release w; mret (<[Z.to_nat device := None]> v)
    | None => mret v
    end
  else mret v.

Definition Finalize (t : Workspaces) : M Workspaces :=
  device ← current_device;
  v ← release_and_reset device (workspace_ t);
  v' ← release_and_reset device (weights_workspace_ t);
  mret (mkWorkspaces v v').
End InitFinalize.

(** ** Sequences of calls on the manager *)

Inductive Op :=
| op_init (gpus : list Z) (debug : bool)
| op_reset
| op_try_allocate (size device group : Z)
| op_deallocate (ptr device : Z)
| op_get_info (with_update : bool)
| op_update_dev_info (device : Z)
| op_set_device (device : Z).

Definition exec (o : Op) : M unit :=
  match o with
  | op_init gpus debug => init gpus debug
  | op_reset => reset
  | op_try_allocate size device group => _ ← try_allocate size device group; mret tt
  | op_deallocate ptr device => deallocate ptr device
  | op_get_info with_update => _ ← GetInfo with_update; mret tt
  | op_update_dev_info device => update_dev_info device
  | op_set_device device => set_device device
  end.

Fixpoint run (ops : list Op) : M unit :=
  match ops with
  | [] => mret tt
  | o :: rest => exec o;; run rest
  end.

(** A process that has just started: the manager as constructed on a
    machine with [count] devices, nothing pinned, device 0 active. *)
Definition start (count : nat) (oracle : nat → Answer) : Process :=
  mkProcess (Manager_new count) (mkThreadLocal ∅ ∅ []) (mkDriver oracle 0 [] 0).

(** An oracle that gives the listed answers in turn, then [ok 0 0]. *)
Definition ok (x y : Z) : Answer := mkAnswer cudaSuccess x y.
Definition script (l : list Answer) : nat → Answer := λ k, nth k l (ok 0 0).

(** A sequence of requests to the process-wide pool, each a size, a
    device and a group. *)
Fixpoint requests (l : list (Z * Z * Z)) : M unit :=
  match l with
  | [] => mret tt
  | (size, device, group) :: rest =>
      _ ← pinned_buffer size device group; requests rest
  end.

(** * What the statements are written in *)

(** The entry the refresh writes for what the driver answered:
    [props] for [cudaGetDeviceProperties], [mem] for [cudaMemGetInfo]. *)
Definition refreshed (props mem : Answer) (old : DevInfo) : DevInfo :=
  let total := Z.min (size_t (out1 props)) (size_t (out2 mem)) in
  mkDevInfo (Z.min total (size_t (out1 mem))) total (flush_count_ old).

(** The table, grown to hold [device] when it did not. *)
Definition grown (device : Z) (v : list DevInfo) : list DevInfo :=
  if vector_size v <? size_t (device + 1)
  then resize (Z.to_nat (size_t (device + 1))) DevInfo_new v
  else v.

(** The driver after the six calls of a refresh. *)
Definition after_refresh (device : Z) (d : Driver) : Driver :=
  let initial_device := active_device d in
  select_device initial_device
    (record_call (cudaSetDevice initial_device)
      (record_call cudaMemGetInfo
        (record_call (cudaGetDeviceProperties device)
          (record_call (cudaFree 0)
            (select_device device
              (record_call (cudaSetDevice device)
                (record_call cudaGetDevice d))))))).

(** The entry of a device after the block that follows the lock in
    [try_allocate], when the allocation succeeded: as it was when the
    driver's last error is clear or the entry's total is 0, and otherwise
    refreshed once more from [props] and [mem], with one more flush. *)
Definition after_last_error (last_err props mem : Answer) (di : DevInfo) : DevInfo :=
  if succeeded last_err || (total_ di =? 0) then di
  else incr_flush_count (refreshed props mem di).

(** The allocator [init] asks for. *)
Definition init_allocator (debug debug_env : bool) : CachingDeviceAllocator :=
  mkCub BIN_GROWTH MIN_BIN MAX_BIN MAX_CACHED_BYTES true (debug || debug_env).

(** The state [init] is in when it checks the handle. *)
Definition after_construction (debug : bool) (s : Process) : Process :=
  let env := answers (cuda s) (clock (cuda s)) in
  let built := answers (cuda s) (S (clock (cuda s))) in
  let fresh := init_allocator debug (negb (out1 env =? 0)) in
  set_mgr (λ m, if succeeded built then with_cub_allocator (Some fresh) m else m)
    (set_cuda (record_call (cub_new fresh))
       (set_mgr (with_debug (debug || negb (out1 env =? 0)))
          (set_cuda (record_call getenv_DEBUG_GPU_MEM) s))).

(** The constructions of the cache in a trace. *)
Definition is_cub_new (e : Event) : bool :=
  match e with Called (cub_new _) _ => true | _ => false end.
Definition construction_attempts (tr : list Event) : nat :=
  length (filter is_cub_new tr).

(** Every event a run of [m] adds to the trace satisfies [P], however
    the run ends. *)
Definition emits {A} (P : Event → Prop) (m : M A) : Prop :=
  ∀ s r s', m s = (r, s') →
    ∃ added, trace (cuda s') = added ++ trace (cuda s) ∧ Forall P added.

(** An event that is not an exclusive acquisition of the mutex. *)
Definition shared_only (e : Event) : Prop :=
  match e with
  | Acquire exclusive => False
  | _ => True
  end.

(** The modes of the acquisitions in a trace, latest first. *)
Definition acquisitions (tr : list Event) : list lock_mode :=
  omap (λ e, match e with Acquire m => Some m | _ => None end) tr.

(** Modelled from the spec: the mutex itself is a library's; "Read
    acquisition is shared", "Write acquisition is exclusive".  A holder
    count per mode, and whether a new acquisition is let in. *)
Record shared_mutex := mkMutex { readers : nat; writer : bool }.

Definition lets_in (l : shared_mutex) (m : lock_mode) : bool :=
  match m with
  | shared => negb (writer l)
  | exclusive => negb (writer l) && (readers l =? 0)%nat
  end.

(** [R] relates the state before a run of [m] that returns to the state
    after it. *)
Definition keeps {A} (R : Process → Process → Prop) (m : M A) : Prop :=
  ∀ s a s', m s = (Ok a, s') → R s s'.

(** The refresh thresholds are as before. *)
Definition same_thresholds (s s' : Process) : Prop :=
  update_thresholds_ (mgr_ s') = update_thresholds_ (mgr_ s).

(** What a run from [s] to [s'] added to the trace. *)
Definition new_events (s s' : Process) : list Event :=
  take (length (trace (cuda s')) - length (trace (cuda s))) (trace (cuda s')).

(** A real query of the device's memory. *)
Definition is_query (e : Event) : bool :=
  match e with Called cudaMemGetInfo _ => true | _ => false end.
Definition queries (evs : list Event) : bool := existsb is_query evs.

(** The invariant of an entry, and of the table. *)
Definition dev_ok (di : DevInfo) : Prop := 0 ≤ free_ di ≤ total_ di.
Definition table_ok (s : Process) : Prop := Forall dev_ok (dev_info_ (mgr_ s)).

(** The bytes an event carved from, or returned to, the driver for a
    device, as cub reported them. *)
Definition carved_bytes (device : Z) (e : Event) : Z :=
  match e with
  | Called (cub_DeviceAllocate d _ _) a =>
      if succeeded a && (d =? device) then size_t (out2 a) else 0
  | _ => 0
  end.

Definition freed_bytes (device : Z) (e : Event) : Z :=
  match e with
  | Called (cub_DeviceFree d _) a =>
      if succeeded a && (d =? device) then size_t (out1 a) else 0
  | _ => 0
  end.

(** The sum of [f] over events. *)
Definition total_of (f : Event → Z) (evs : list Event) : Z :=
  foldr (λ e acc, f e + acc) 0 evs.

(** A call of [try_allocate] or [deallocate] for the device. *)
Definition on_device (device : Z) (o : Op) : Prop :=
  match o with
  | op_try_allocate _ d _ => d = device
  | op_deallocate _ d => d = device
  | _ => False
  end.

(** ** What the cache can hold *)

(** The entry a query writes when it ends a refresh of device [d]: the
    calls before it are those of [update_dev_info (d)], which selects
    [d], frees nothing and asks for the properties of [d]. *)
Definition refresh_of (d : Z) (mem : Answer) (earlier : list Event) : option DevInfo :=
  match earlier with
  | Called (cudaGetDeviceProperties d1) props :: Called (cudaFree _) _
      :: Called (cudaSetDevice d2) sel :: _ =>
      if (d1 =? d) && (d2 =? d) && succeeded sel && succeeded props && succeeded mem
      then Some (refreshed props mem DevInfo_new)
      else None
  | _ => None
  end.

(** Modelled from the spec: the caching allocator is a library that is
    not part of the sources; it "must expose allocate(device, out_ptr,
    size, stream) -> status, bytes_carved, free(device, ptr) -> status,
    bytes_returned": the bytes it reports returned to the driver are
    bytes it carved from the driver before and had not returned.
    [held_bound d tr] bounds the bytes of device [d] the cache can hold
    after the events [tr] (latest first): what it reported carved, less
    what it reported returned, and no more than a refresh of [d] found in
    use, [total - free] of what the driver answered (the cache may give
    blocks back to the driver on its own, without a report). *)
Fixpoint held_bound (d : Z) (tr : list Event) : Z :=
  match tr with
  | [] => 0
  | e :: earlier =>
      let held := held_bound d earlier in
      match e with
      | Called (cub_DeviceAllocate _ _ _) _ => held + carved_bytes d e
      | Called (cub_DeviceFree _ _) _ => held - freed_bytes d e
      | Called cudaMemGetInfo mem =>
          match refresh_of d mem earlier with
          | Some di => Z.min held (total_ di - free_ di)
          | None => held
          end
      | _ => held
      end
  end.

(** The cache reports returned no more than it can hold: the condition
    on one event, given the events before it, and on a whole trace. *)
Definition report_fits (e : Event) (earlier : list Event) : bool :=
  match e with
  | Called (cub_DeviceFree d _) _ => freed_bytes d e <=? held_bound d earlier
  | _ => true
  end.

Fixpoint well_reported (tr : list Event) : bool :=
  match tr with
  | [] => true
  | e :: earlier => report_fits e earlier && well_reported earlier
  end.

(** The bytes of device [d] the cache reported carved and has not
    reported returned. *)
Definition outstanding (d : Z) (tr : list Event) : Z :=
  total_of (carved_bytes d) tr - total_of (freed_bytes d) tr.

(** The condition in its plain form, for a cache that gives nothing back
    to the driver without a report: it reports returned no more than is
    outstanding, and a refresh of a device finds the outstanding bytes of
    the device in use. *)
Definition plainly_fits (e : Event) (earlier : list Event) : bool :=
  match e, earlier with
  | Called (cub_DeviceFree d _) _, _ => freed_bytes d e <=? outstanding d earlier
  | Called cudaMemGetInfo mem, Called (cudaGetDeviceProperties d) _ :: _ =>
      match refresh_of d mem earlier with
      | Some di => outstanding d earlier <=? total_ di - free_ di
      | None => true
      end
  | _, _ => true
  end.

Fixpoint plainly_reported (tr : list Event) : bool :=
  match tr with
  | [] => true
  | e :: earlier => plainly_fits e earlier && plainly_reported earlier
  end.

(** What the cache can hold of device [d] is counted as in use by the
    table: it fits between the free estimate and the total, but for
    [debt] bytes that are carved and not yet accounted.  A device without
    an entry counts as one of 0 bytes. *)
Definition covered_up_to (debt d : Z) (s : Process) : Prop :=
  match dev_info_ (mgr_ s) !! Z.to_nat d with
  | Some di =>
      0 ≤ free_ di ∧ total_ di < 2 ^ 64
      ∧ held_bound d (trace (cuda s)) ≤ total_ di - free_ di + debt
  | None => held_bound d (trace (cuda s)) ≤ debt
  end.

Definition covered (d : Z) (s : Process) : Prop := covered_up_to 0 d s.

(** Every device is covered. *)
Definition accounted (s : Process) : Prop := ∀ d, 0 ≤ d → covered d s.

(** A run that returns keeps device [d] covered, when the cache reported
    well. *)
Definition keeps_covered (d : Z) (s s' : Process) : Prop :=
  (∃ added, trace (cuda s') = added ++ trace (cuda s))
  ∧ (well_reported (trace (cuda s')) = true → covered d s → covered d s').

(** The free estimate clamped to [[0, total]]. *)
Definition clamp (x total : Z) : Z := Z.max 0 (Z.min x total).

(** ** Relations between the state before and after a run *)

(** The calling thread's active device is as before. *)
Definition same_device (s s' : Process) : Prop :=
  active_device (cuda s') = active_device (cuda s).

(** The two pinned pools are as before. *)
Definition same_pools (s s' : Process) : Prop :=
  pinned_host_buffers_ (mgr_ s') = pinned_host_buffers_ (mgr_ s)
  ∧ pinned_device_buffers_ (mgr_ s') = pinned_device_buffers_ (mgr_ s)
  ∧ pinned_buffer_sizes_ (mgr_ s') = pinned_buffer_sizes_ (mgr_ s)
  ∧ thread_local_ s' = thread_local_ s.

(** What the manager knows of device memory is as before. *)
Definition same_accounts (s s' : Process) : Prop :=
  debug_ (mgr_ s') = debug_ (mgr_ s)
  ∧ initialized_ (mgr_ s') = initialized_ (mgr_ s)
  ∧ cub_allocator_ (mgr_ s') = cub_allocator_ (mgr_ s)
  ∧ dev_info_ (mgr_ s') = dev_info_ (mgr_ s)
  ∧ update_thresholds_ (mgr_ s') = update_thresholds_ (mgr_ s)
  ∧ gpu_memory_scope (mgr_ s') = gpu_memory_scope (mgr_ s).

(** The manager, and the thread's own pool, are as before. *)
Definition same_manager (s s' : Process) : Prop := mgr_ s' = mgr_ s.
Definition same_thread_local (s s' : Process) : Prop := thread_local_ s' = thread_local_ s.

(** The flags and the cache handle of the manager are as before. *)
Definition same_flags (s s' : Process) : Prop :=
  debug_ (mgr_ s') = debug_ (mgr_ s)
  ∧ initialized_ (mgr_ s') = initialized_ (mgr_ s)
  ∧ cub_allocator_ (mgr_ s') = cub_allocator_ (mgr_ s)
  ∧ gpu_memory_scope (mgr_ s') = gpu_memory_scope (mgr_ s).

(** The manager has device [g] in both tables, with the threshold at the
    total of the device and the free estimate within the total. *)
Definition populated (g : Z) (s : Process) : Prop :=
  0 ≤ g
  ∧ ∃ di, dev_info_ (mgr_ s) !! Z.to_nat g = Some di
          ∧ update_thresholds_ (mgr_ s) !! Z.to_nat g = Some (total_ di)
          ∧ dev_ok di.

(** ** Kinds of events *)

(** A call that allocates or frees page-locked host memory. *)
Definition is_pinned_call (e : Event) : bool :=
  match e with
  | Called (cudaHostAlloc _) _ | Called (cudaFreeHost _) _
  | Called (cudaHostGetDevicePointer _) _ => true
  | _ => false
  end.
Definition no_pinned_call (e : Event) : Prop := is_pinned_call e = false.

(** An event of the pinned pools: the lock, or a call that allocates,
    maps or frees page-locked host memory. *)
Definition pool_event (e : Event) : Prop :=
  match e with
  | Called _ _ => is_pinned_call e = true
  | _ => True
  end.

(** An event that is a call, not an operation of the mutex. *)
Definition is_call (e : Event) : Prop :=
  match e with
  | Called _ _ => True
  | _ => False
  end.

(** ** The tables of the process-wide pinned pool *)

(** [v[i][j]], when the table has it. *)
Definition entry {A} (v : list (list A)) (i j : nat) : option A :=
  match v !! i with
  | Some row => row !! j
  | None => None
  end.

(** The three tables have the same rows, of the same lengths. *)
Definition shape {A} (v : list (list A)) : list nat := length <$> v.
Definition pinned_aligned (m : Manager) : Prop :=
  shape (pinned_host_buffers_ m) = shape (pinned_buffer_sizes_ m)
  ∧ shape (pinned_device_buffers_ m) = shape (pinned_buffer_sizes_ m).

(** A table, grown to hold [v[i][j]]. *)
Definition grow_table (i j : nat) (v : list (list Z)) : list (list Z) :=
  let v1 := if (length v <? S i)%nat then resize (S i) [] v else v in
  match v1 !! i with
  | Some row => if (length row <? S j)%nat then <[i := resize (S j) 0 row]> v1 else v1
  | None => v1
  end.

(** [v[i][j] = x] *)
Definition put {A} (i j : nat) (x : A) (v : list (list A)) : list (list A) :=
  alter (<[j := x]>) i v.

(** The manager, its pinned tables grown to hold [device][group]. *)
Definition with_room (device group : Z) (m : Manager) : Manager :=
  with_pinned (grow_table (Z.to_nat device) (Z.to_nat group) (pinned_host_buffers_ m))
              (grow_table (Z.to_nat device) (Z.to_nat group) (pinned_device_buffers_ m))
              (grow_table (Z.to_nat device) (Z.to_nat group) (pinned_buffer_sizes_ m)) m.

(** The entry for a request is large enough for it. *)
Definition served (s : Process) (request : Z * Z * Z) : Prop :=
  ∃ current,
    entry (pinned_buffer_sizes_ (mgr_ s)) (Z.to_nat request.1.2) (Z.to_nat request.2)
    = Some current
    ∧ Z.max request.1.1 INITIAL_PINNED_BYTES ≤ current.

(** No recorded size of the process-wide pool has gone down. *)
Definition sizes_grow (s s' : Process) : Prop :=
  ∀ i j x, entry (pinned_buffer_sizes_ (mgr_ s)) i j = Some x →
           ∃ y, entry (pinned_buffer_sizes_ (mgr_ s')) i j = Some y ∧ x ≤ y.

(** ** The thread's own pool *)

(** The [sizes] vector of the thread's pool, grown to hold [group]. *)
Definition sizes_with_room (group : Z) (v : list Z) : list Z :=
  if vector_size v <? uint (group + 1) then resize (Z.to_nat (uint (group + 1))) 0 v else v.

(** What [emplace] leaves in a map. *)
Definition emplaced (m : gmap Z Z) (key p : Z) : gmap Z Z :=
  match m !! key with
  | Some _ => m
  | None => <[key := p]> m
  end.

(** ** Holding the mutex *)

(** The number of holds of [read_write_mutex()] the calling thread has
    after the events [evs] (latest first), when it had [depth] before
    them; [None] when the mutex was acquired while held, or released
    while not held. *)
Fixpoint holds_after (evs : list Event) (depth : nat) : option nat :=
  match evs with
  | [] => Some depth
  | e :: earlier =>
      match holds_after earlier depth with
      | Some n =>
          match e, n with
          | Called _ _, _ => Some n
          | Acquire _, O => Some 1%nat
          | Release _, S O => Some O
          | _, _ => None
          end
      | None => None
      end
  end.

(** A run of [m] that returns takes the thread from [d] holds to [d'],
    never acquiring while it holds. *)
Definition brackets {A} (d d' : nat) (m : M A) : Prop :=
  ∀ s a s', m s = (Ok a, s') →
    ∃ added, trace (cuda s') = added ++ trace (cuda s) ∧ holds_after added d = Some d'.

(** Every run of [m] that returns has released each hold of the mutex
    it acquired, and acquired none while holding one. *)
Definition bracketed {A} (m : M A) : Prop :=
  ∀ s a s', m s = (Ok a, s') → holds_after (new_events s s') 0 = Some 0%nat.

(** ** Scenarios

    Concrete states and driver behaviours, used where a statement is
    evaluated. *)

(** The oracle of a short session on one device with 1000 bytes, all
    free: [init], then an allocation that carves 100 bytes at address 4096
    on stream 7. *)
Definition session_oracle : nat → Answer :=
  script [ ok 0 0; ok 0 0;                          (* getenv, new cub allocator *)
           ok 0 0; ok 0 0; ok 0 0; ok 1000 0; ok 1000 1000; ok 0 0;  (* refresh *)
           ok 1000 0; ok 1000 1000;                 (* report *)
           ok 0 0; ok 7 0; ok 4096 100; ok 0 0 ].   (* allocation *)

(** The process after that [init]: free 1000, total 1000, threshold 1000. *)
Definition after_init : Process := (init [0] false (start 1 session_oracle)).2.

(** One device of 1000 bytes, all free at [init].  Three allocations
    carve 100, 50 and 10 bytes: the first is debited (900), the second and
    the third find the estimate below the threshold, so each refreshes
    (the driver answers 850, then 840 bytes free) and decays the threshold
    (900, then 810).  A fourth allocation then carves 850 bytes, and the
    refresh it causes finds 40 bytes free. *)
Definition stale_oracle : nat → Answer :=
  script [ ok 0 0; ok 0 0;
           ok 0 0; ok 0 0; ok 0 0; ok 1000 0; ok 1000 1000; ok 0 0;
           ok 1000 0; ok 1000 1000;
           ok 0 0; ok 7 0; ok 4096 100; ok 0 0;
           ok 0 0; ok 7 0; ok 8192 50;
           ok 0 0; ok 0 0; ok 0 0; ok 1000 0; ok 850 1000; ok 0 0;
           ok 0 0;
           ok 0 0; ok 7 0; ok 12288 10;
           ok 0 0; ok 0 0; ok 0 0; ok 1000 0; ok 840 1000; ok 0 0;
           ok 0 0;
           ok 0 0; ok 7 0; ok 16384 850;
           ok 0 0; ok 0 0; ok 0 0; ok 1000 0; ok 40 1000; ok 0 0;
           ok 0 0 ].

(** The process after [init] and the first three allocations: free
    estimate 840 of 1000 bytes, threshold 810. *)
Definition stale_estimate : Process :=
  (run [op_init [0] false; op_try_allocate 100 0 0; op_try_allocate 50 0 0;
        op_try_allocate 10 0 0] (start 1 stale_oracle)).2.

(** One device of 1000 bytes, all free: [init], an allocation that
    carves 100 bytes at 4096, and its [deallocate], for which cub reports
    [freed] bytes. *)
Definition credit_oracle (freed : Z) : nat → Answer :=
  script [ ok 0 0; ok 0 0;
           ok 0 0; ok 0 0; ok 0 0; ok 1000 0; ok 1000 1000; ok 0 0;
           ok 1000 0; ok 1000 1000;
           ok 0 0; ok 7 0; ok 4096 100; ok 0 0;
           ok 0 0; ok freed 0 ].

Definition credit_session : list Op :=
  [op_init [0] false; op_try_allocate 100 0 0; op_deallocate 4096 0].

(** One device of 1000 bytes, all free at [init].  An allocation carves
    600 bytes at 4096 and is debited; its [deallocate] returns nothing to
    the driver (the block stays in the cache).  A second allocation finds
    the driver short, so the cache flushes the block on its own and carves
    700 bytes at 8192: the estimate, 400, is below the threshold, the
    refresh finds 300 bytes free, and the driver's last error, left by the
    attempt that failed, causes a second refresh.  The [deallocate] of the
    second block returns its 700 bytes. *)
Definition flush_oracle : nat → Answer :=
  script [ ok 0 0; ok 0 0;
           ok 0 0; ok 0 0; ok 0 0; ok 1000 0; ok 1000 1000; ok 0 0;
           ok 1000 0; ok 1000 1000;
           ok 0 0; ok 7 0; ok 4096 600; ok 0 0;
           ok 0 0; ok 0 0;
           ok 0 0; ok 7 0; ok 8192 700;
           ok 0 0; ok 0 0; ok 0 0; ok 1000 0; ok 300 1000; ok 0 0;
           mkAnswer cudaErrorMemoryAllocation 0 0;
           ok 0 0; ok 0 0; ok 0 0; ok 1000 0; ok 300 1000; ok 0 0;
           ok 0 0; ok 700 0 ].

Definition flush_session : list Op :=
  [op_init [0] false; op_try_allocate 600 0 0; op_deallocate 4096 0;
   op_try_allocate 700 0 0; op_deallocate 8192 0].

(** A thread asks for 64 bytes, then for 128, for group 0; the driver
    gives host buffers at 4096 and 12288, mapped at 8192 and 16384. *)
Definition pool_oracle : nat → Answer :=
  script [ok 4096 0; ok 8192 0; ok 12288 0; ok 16384 0].

(** The process-wide pool is asked for 1024 bytes, then 4096, for device
    0 and group 0; the driver gives host buffers at 4096 and 12288. *)
Definition resize_oracle : nat → Answer :=
  script [ok 4096 0; ok 8192 0; ok 0 0; ok 12288 0; ok 16384 0].

(** The process [s], with the driver answering from [oracle] from now
    on. *)
Definition with_oracle (oracle : nat → Answer) (s : Process) : Process :=
  set_cuda (λ d, mkDriver oracle 0 (trace d) (active_device d)) s.

(** An allocation that cub refuses, and the refresh that follows: the
    driver reports 300 bytes free of 1000. *)
Definition failing_oracle : nat → Answer :=
  script [ ok 0 0; ok 7 0; mkAnswer cudaErrorMemoryAllocation 0 0;
           mkAnswer cudaErrorMemoryAllocation 0 0;
           ok 0 0; ok 0 0; ok 0 0; ok 1000 0; ok 300 1000; ok 0 0 ].

(** A process whose first allocation initialized the manager lazily, and
    whose manager was then reset (as the destructor of a [Scope] does). *)
Definition after_lazy_init_and_reset : Process :=
  (reset (try_allocate 100 0 0 (start 1 session_oracle)).2).2.

(** An [align_down<7>] and a [reserve] to evaluate statements with:
    rounding down to a multiple of 128, and a [try_reserve] that aborts
    when it fails. *)
Definition example_align_down_7 (x : Z) : Z := Z.shiftl (Z.shiftr x 7) 7.
Definition example_reserve (size device : Z) (w : Workspace) : M Workspace :=
  r ← try_reserve 0 size device w;
  let reserved : bool := r.1 in
  if reserved then mret r.2 else fatal.

(** A workspace holding the 100 bytes at 4096 grows to 200 bytes: the
    refresh of [GetInfo] finds 900 bytes free of 1000, cub reports 100
    bytes freed, then carves 200 bytes at 8192. *)
Definition growth_oracle : nat → Answer :=
  script [ ok 0 0;
           ok 0 0; ok 0 0; ok 0 0; ok 1000 0; ok 900 1000; ok 0 0;
           ok 0 0;
           ok 0 0; ok 100 0;
           ok 0 0; ok 7 0; ok 8192 200; ok 0 0 ].

(** * Reasoning about runs *)

Lemma bind_Ok_inv {A B} (m : M A) (k : A → M B) s b s' :
  (m ≫= k) s = (Ok b, s') → ∃ a s1, m s = (Ok a, s1) ∧ k a s1 = (Ok b, s').
Proof.
  unfold mbind, M_bind. destruct (m s) as [[a| |] s1]; intros H; try discriminate.
  eauto.
Qed.

Lemma bind_Ok {A B} (m : M A) (k : A → M B) s a s1 :
  m s = (Ok a, s1) → (m ≫= k) s = k a s1.
Proof. unfold mbind, M_bind. intros ->. reflexivity. Qed.

Lemma ret_Ok_inv {A} (a b : A) s s' : (mret a : M A) s = (Ok b, s') → a = b ∧ s = s'.
Proof. unfold mret, M_ret. intros H. by simplify_eq. Qed.

Lemma CHECK_Ok_inv b u s s' : CHECK b s = (Ok u, s') → b = true ∧ s' = s.
Proof. destruct b; cbv; intros H; by simplify_eq. Qed.

Lemma CUDA_CHECK_Ok_inv a u s s' :
  CUDA_CHECK a s = (Ok u, s') → status a = cudaSuccess ∧ s' = s.
Proof.
  unfold CUDA_CHECK. intros [H ->]%CHECK_Ok_inv. split; [|done].
  unfold succeeded in H. by apply bool_decide_eq_true in H.
Qed.

Lemma at_Ok_inv {A} (v : list A) i x s s' :
  at_ v i s = (Ok x, s') → 0 ≤ i ∧ v !! Z.to_nat i = Some x ∧ s' = s.
Proof.
  unfold at_. destruct (Z.ltb_spec i 0); [discriminate|].
  destruct (v !! Z.to_nat i) eqn:E; [|discriminate].
  intros [-> ->]%ret_Ok_inv. done.
Qed.

Lemma current_device_Ok_inv s d s' :
  current_device s = (Ok d, s') →
  status (answers (cuda s) (clock (cuda s))) = cudaSuccess
  ∧ d = active_device (cuda s)
  ∧ s' = set_cuda (record_call cudaGetDevice) s.
Proof.
  unfold current_device. intros H.
  apply bind_Ok_inv in H as (a & s1 & H1 & H). injection H1 as <- <-.
  apply bind_Ok_inv in H as (? & s2 & H1 & H).
  apply CUDA_CHECK_Ok_inv in H1 as [H1 ->]. injection H as <- <-. done.
Qed.

Lemma set_device_Ok_inv device u s s' :
  set_device device s = (Ok u, s') →
  status (answers (cuda s) (clock (cuda s))) = cudaSuccess
  ∧ s' = set_cuda (select_device device) (set_cuda (record_call (cudaSetDevice device)) s).
Proof.
  unfold set_device. intros H.
  apply bind_Ok_inv in H as (a & s1 & H1 & H). injection H1 as <- <-.
  apply bind_Ok_inv in H as (? & s2 & H1 & H).
  apply CUDA_CHECK_Ok_inv in H1 as [H1 ->]. injection H as <-. done.
Qed.

Lemma int_add_Ok_inv a b c s s' :
  int_add a b s = (Ok c, s') → c = a + b ∧ s' = s ∧ INT_MIN ≤ a + b ≤ INT_MAX.
Proof.
  unfold int_add.
  destruct (Z.leb_spec INT_MIN (a + b)); cbn [andb]; [|discriminate].
  destruct (Z.leb_spec (a + b) INT_MAX); [|discriminate].
  intros [<- ->]%ret_Ok_inv. done.
Qed.

Lemma int_add_Ok a b s :
  INT_MIN ≤ a + b ≤ INT_MAX → int_add a b s = (Ok (a + b), s).
Proof.
  intros H. unfold int_add.
  destruct (Z.leb_spec INT_MIN (a + b)); cbn [andb]; [|lia].
  destruct (Z.leb_spec (a + b) INT_MAX); [|lia]. reflexivity.
Qed.

(** One step of a run that ended well: the first action of a sequence
    is split off, and an action that cannot fail is computed. *)
Ltac finish H :=
  first
    [ apply ret_Ok_inv in H as [<- <-]
    | apply ret_Ok_inv in H as [H <-]; simplify_eq
    | apply int_add_Ok_inv in H as (-> & -> & _)
    | apply CUDA_CHECK_Ok_inv in H as [H ->]
    | apply CHECK_Ok_inv in H as [H ->]
    | apply at_Ok_inv in H as (? & H & ->)
    | apply current_device_Ok_inv in H as (H & -> & ->)
    | apply set_device_Ok_inv in H as (H & ->)
    | (progress unfold get_mgr, get_thread_local, get_active_device, modify_mgr,
         modify_thread_local, modify_cuda, emit, call in H);
      injection H as <- <- ].

Ltac tidy :=
  cbn [cuda mgr_ thread_local_ set_cuda set_mgr set_thread_local
       answers clock trace active_device record_call record_event select_device
       debug_ initialized_ cub_allocator_ dev_info_ update_thresholds_
       pinned_host_buffers_ pinned_device_buffers_ pinned_buffer_sizes_
       gpu_memory_scope with_debug with_initialized with_cub_allocator
       with_dev_info with_update_thresholds with_pinned with_gpu_memory_scope
       host_buffers device_buffers sizes with_host_buffers with_device_buffers
       with_sizes free_ total_ flush_count_ with_free with_total
       incr_flush_count] in *.

Ltac step H :=
  let a := fresh "a" in
  let s := fresh "s" in
  let H1 := fresh "H" in
  apply bind_Ok_inv in H as (a & s & H1 & H);
  finish H1; tidy.

Ltac run H := repeat step H.

(** The first action, left as it is, under the name [H1]. *)
Ltac first_action H H1 :=
  let a := fresh "a" in
  let s := fresh "s" in
  apply bind_Ok_inv in H as (a & s & H1 & H).

Lemma store_dev_info_Ok_inv device f u s s' :
  store_dev_info device f s = (Ok u, s') →
  ∃ di, 0 ≤ device
    ∧ dev_info_ (mgr_ s) !! Z.to_nat device = Some di
    ∧ s' = set_mgr (with_dev_info (<[Z.to_nat device := f di]> (dev_info_ (mgr_ s)))) s.
Proof.
  unfold store_dev_info, dev_info_at. intros H.
  run H. finish H. eauto.
Qed.

Lemma store_update_threshold_Ok_inv device t u s s' :
  store_update_threshold device t s = (Ok u, s') →
  ∃ old, 0 ≤ device
    ∧ update_thresholds_ (mgr_ s) !! Z.to_nat device = Some old
    ∧ s' = set_mgr (with_update_thresholds (<[Z.to_nat device := t]> (update_thresholds_ (mgr_ s)))) s.
Proof.
  unfold store_update_threshold, update_threshold_at. intros H.
  run H. finish H. eauto.
Qed.

Lemma dev_info_at_Ok_inv device di s s' :
  dev_info_at device s = (Ok di, s') →
  0 ≤ device ∧ dev_info_ (mgr_ s) !! Z.to_nat device = Some di ∧ s' = s.
Proof. unfold dev_info_at. intros H. run H. finish H. done. Qed.

Lemma update_threshold_at_Ok_inv device t s s' :
  update_threshold_at device s = (Ok t, s') →
  0 ≤ device ∧ update_thresholds_ (mgr_ s) !! Z.to_nat device = Some t ∧ s' = s.
Proof. unfold update_threshold_at. intros H. run H. finish H. done. Qed.

(** ** What [update_dev_info] does when it returns *)

Lemma update_dev_info_Ok device u s s' :
  update_dev_info device s = (Ok u, s') →
  ∃ old,
    0 ≤ device ∧
    grown device (dev_info_ (mgr_ s)) !! Z.to_nat device = Some old ∧
    s' = mkProcess
           (with_dev_info
              (<[Z.to_nat device :=
                   refreshed (answers (cuda s) (3 + clock (cuda s))%nat)
                             (answers (cuda s) (4 + clock (cuda s))%nat) old]>
                 (grown device (dev_info_ (mgr_ s))))
              (mgr_ s))
           (thread_local_ s)
           (after_refresh device (cuda s)).
Proof.
  unfold update_dev_info. intros H.
  run H. first_action H Hg.
  assert (s0 = set_mgr (with_dev_info (grown device (dev_info_ (mgr_ s))))
                 (set_cuda (record_call cudaGetDevice) s)) as ->.
  { unfold when, grown in *. destruct (_ <? _).
    - first_action Hg Hr. unfold vector_resize in Hr. destruct (_ <? _); [discriminate|].
      finish Hr. finish Hg. done.
    - finish Hg. destruct s as [[] ? ?]; done. }
  clear Hg. run H.
  first_action H H4. apply store_dev_info_Ok_inv in H4 as (old & Hd & Hold & ->). tidy.
  run H.
  first_action H H5. apply store_dev_info_Ok_inv in H5 as (di1 & _ & Hdi1 & ->). tidy.
  first_action H H5. apply store_dev_info_Ok_inv in H5 as (di2 & _ & Hdi2 & ->). tidy.
  finish H. tidy.
  pose proof (lookup_lt_Some _ _ _ Hold) as Hlt.
  rewrite list_lookup_insert_eq in Hdi1 by done.
  rewrite list_insert_insert_eq in Hdi2.
  rewrite list_lookup_insert_eq in Hdi2 by done.
  simplify_eq. tidy.
  exists old. split; [done|]. split; [done|].
  rewrite !list_insert_insert_eq.
  destruct s as [m t d]. unfold set_cuda, set_mgr, after_refresh, refreshed. cbn.
  reflexivity.
Qed.

(** ** [deallocate] on a null pointer, without a cache, at shutdown *)

(** C9. [deallocate] is a benign no-op on a null pointer, without a cache
    handle, and when the driver answers that it is shutting down: it
    returns, the manager and the thread's pools are as before, and the
    cache is not called; the only thing that can have happened is the
    [cudaGetDevice] status query. *)
Theorem deallocate_benign_noop ptr device s :
  ptr = 0 ∨ cub_allocator_ (mgr_ s) = None
    ∨ status (answers (cuda s) (clock (cuda s))) = cudaErrorCudartUnloading →
  ∃ s', deallocate ptr device s = (Ok tt, s')
    ∧ mgr_ s' = mgr_ s
    ∧ thread_local_ s' = thread_local_ s
    ∧ (trace (cuda s') = trace (cuda s)
       ∨ trace (cuda s')
           = Called cudaGetDevice (answers (cuda s) (clock (cuda s))) :: trace (cuda s))
    ∧ (ptr = 0 ∨ cub_allocator_ (mgr_ s) = None → s' = s).
Proof.
  intros Hcase. unfold deallocate.
  rewrite (bind_Ok get_mgr _ s (mgr_ s) s) by reflexivity.
  destruct (Z.eqb_spec ptr 0) as [->|Hptr]; cbn [orb].
  { exists s. repeat split; auto. }
  destruct (cub_allocator_ (mgr_ s)) as [h|] eqn:Hh; cbn [negb bool_decide].
  2:{ rewrite bool_decide_eq_false_2 by (intros [? ?]; discriminate).
      exists s. repeat split; auto. }
  rewrite bool_decide_eq_true_2 by eauto. cbn [negb].
  destruct Hcase as [?|[?|Hdown]]; [done|done|].
  erewrite bind_Ok by reflexivity.
  rewrite bool_decide_eq_true_2 by exact Hdown.
  eexists. split; [reflexivity|]. repeat split; auto.
  intros [?|?]; done.
Qed.

Lemma deallocate_benign_noop_witness :
  let s := set_mgr (with_cub_allocator (Some (mkCub 2 6 22 MAX_CACHED_BYTES true false)))
             (start 1 (script [mkAnswer cudaErrorCudartUnloading 0 0])) in
  ∃ s', deallocate 4096 0 s = (Ok tt, s') ∧ mgr_ s' = mgr_ s.
Proof.
  intros s.
  destruct (deallocate_benign_noop 4096 0 s) as (s' & H & Hm & _).
  - right. right. reflexivity.
  - exists s'. split; assumption.
Defined.

(** ** [reset] and the destructor *)

Lemma free_host_buffers_frees buffers s :
  ∃ s', free_host_buffers buffers s = (Ok tt, s')
    ∧ mgr_ s' = mgr_ s
    ∧ ∀ b, b ∈ buffers → ∃ a, Called (cudaFreeHost b) a ∈ trace (cuda s').
Proof.
  revert s. induction buffers as [|b rest IH]; intros s.
  - exists s. split; [done|]. split; [done|]. intros b Hb. by apply elem_of_nil in Hb.
  - cbn [free_host_buffers].
    erewrite bind_Ok by reflexivity.
    destruct (IH (set_cuda (record_call (cudaFreeHost b)) s)) as (s' & Hrun & Hm & Hall).
    exists s'. split; [done|]. split; [done|].
    intros b' [->|Hb']%elem_of_cons; [|by apply Hall].
    clear Hall Hm.
    assert (Hmono : ∀ l t e, e ∈ trace (cuda t) →
              ∀ t', free_host_buffers l t = (Ok tt, t') → e ∈ trace (cuda t')).
    { clear. induction l as [|x l IHl]; intros t e He t' Ht.
      - by injection Ht as <-.
      - cbn [free_host_buffers] in Ht. erewrite bind_Ok in Ht by reflexivity.
        eapply IHl; [|exact Ht]. cbn. apply elem_of_cons. by right. }
    eexists. eapply Hmono; [|exact Hrun]. cbn. apply elem_of_cons. by left.
Qed.

(** C10. [reset] returns, and what it changes is the cache handle and the
    [initialized_] flag: the DeviceInfo table, the refresh thresholds, the
    three pinned-buffer tables and the thread's pools are as before, and no
    page-locked host memory was freed.  It is the destructor of the
    manager that frees every buffer of [pinned_host_buffers_]. *)
Theorem reset_keeps_tables s :
  (∃ s', reset s = (Ok tt, s')
    ∧ dev_info_ (mgr_ s') = dev_info_ (mgr_ s)
    ∧ update_thresholds_ (mgr_ s') = update_thresholds_ (mgr_ s)
    ∧ pinned_host_buffers_ (mgr_ s') = pinned_host_buffers_ (mgr_ s)
    ∧ pinned_device_buffers_ (mgr_ s') = pinned_device_buffers_ (mgr_ s)
    ∧ pinned_buffer_sizes_ (mgr_ s') = pinned_buffer_sizes_ (mgr_ s)
    ∧ debug_ (mgr_ s') = debug_ (mgr_ s)
    ∧ thread_local_ s' = thread_local_ s
    ∧ pinned_heap (trace (cuda s')) = pinned_heap (trace (cuda s))
    ∧ (initialized_ (mgr_ s) = true →
       cub_allocator_ (mgr_ s') = None ∧ initialized_ (mgr_ s') = false)
    ∧ (initialized_ (mgr_ s) = false → s' = s))
  ∧ (∃ s'', Manager_delete s = (Ok tt, s'')
      ∧ ∀ b, b ∈ concat (pinned_host_buffers_ (mgr_ s)) →
             ∃ a, Called (cudaFreeHost b) a ∈ trace (cuda s'')).
Proof.
  split.
  - unfold reset. rewrite (bind_Ok get_mgr _ s (mgr_ s) s) by reflexivity.
    destruct (initialized_ (mgr_ s)) eqn:Hinit.
    + unfold reset_cub_allocator, when.
      destruct (cub_allocator_ (mgr_ s)) as [h|] eqn:Hh.
      * eexists. split.
        { erewrite bind_Ok; [reflexivity|].
          erewrite bind_Ok by reflexivity. rewrite Hh.
          rewrite bool_decide_eq_true_2 by eauto. reflexivity. }
        cbn. repeat split; auto. discriminate.
      * eexists. split.
        { erewrite bind_Ok; [reflexivity|].
          erewrite bind_Ok by reflexivity. rewrite Hh.
          rewrite bool_decide_eq_false_2 by (intros [? ?]; discriminate). reflexivity. }
        cbn. repeat split; auto. discriminate.
    + exists s. repeat split; auto. discriminate.
  - unfold Manager_delete. rewrite (bind_Ok get_mgr _ s (mgr_ s) s) by reflexivity.
    destruct (free_host_buffers_frees (concat (pinned_host_buffers_ (mgr_ s))) s)
      as (s'' & Hrun & _ & Hall).
    eauto.
Qed.

Lemma reset_keeps_tables_witness :
  ∃ s', reset after_init = (Ok tt, s')
    ∧ dev_info_ (mgr_ s') = [mkDevInfo 1000 1000 0]
    ∧ update_thresholds_ (mgr_ s') = [1000]
    ∧ cub_allocator_ (mgr_ s') = None
    ∧ initialized_ (mgr_ s') = false.
Proof.
  destruct (reset_keeps_tables after_init)
    as [(s' & Hrun & Hdev & Hthr & _ & _ & _ & _ & _ & _ & Hoff & _) _].
  exists s'. split; [exact Hrun|].
  rewrite Hdev, Hthr. destruct Hoff as [Hcub Hinit]; [vm_compute; reflexivity|].
  repeat split; try assumption; vm_compute; reflexivity.
Defined.

(** ** [Workspace::try_reserve] *)

(** C7. After a [try_reserve] that returned [true], a [try_reserve] for a
    size that is not larger returns [true] and leaves the workspace and the
    whole process state as they were: no call is made, so nothing is
    allocated. *)
Theorem try_reserve_again_is_noop group size1 device1 size2 device2 w s w1 s1 :
  try_reserve group size1 device1 w s = (Ok (true, w1), s1) →
  size2 ≤ size1 →
  try_reserve group size2 device2 w1 s1 = (Ok (true, w1), s1).
Proof.
  intros Hfirst Hle.
  assert (ptr_ w1 ≠ 0 ∧ size1 ≤ size_ w1) as [Hptr Hsize].
  { unfold try_reserve in Hfirst.
    destruct (size_ w <? size1) eqn:Hlt; cbn [orb] in Hfirst.
    - first_action Hfirst Hrel. first_action Hfirst Halloc.
      destruct a0 as [[allocated ptr] pstream]. cbn [fst snd] in Hfirst.
      destruct allocated.
      + first_action Hfirst Hchk. apply CHECK_Ok_inv in Hchk as [Hchk ->].
        finish Hfirst. cbn. apply negb_true_iff, Z.eqb_neq in Hchk. lia.
      + finish Hfirst.
    - destruct (Z.eqb_spec (ptr_ w) 0) as [Hnull|Hnn].
      + first_action Hfirst Hrel. first_action Hfirst Halloc.
        destruct a0 as [[allocated ptr] pstream]. cbn [fst snd] in Hfirst.
        destruct allocated.
        * first_action Hfirst Hchk. apply CHECK_Ok_inv in Hchk as [Hchk ->].
          finish Hfirst. cbn. apply negb_true_iff, Z.eqb_neq in Hchk. lia.
        * finish Hfirst.
      + finish Hfirst. apply Z.ltb_ge in Hlt. done. }
  unfold try_reserve.
  destruct (Z.ltb_spec (size_ w1) size2); [lia|].
  destruct (Z.eqb_spec (ptr_ w1) 0); [done|]. reflexivity.
Qed.

Lemma try_reserve_again_is_noop_witness :
  let w0 := mkWorkspace 0 0 0 0 in
  let w1 := mkWorkspace 4096 100 0 7 in
  let s1 := (try_reserve 0 100 0 w0 after_init).2 in
  try_reserve 0 100 0 w0 after_init = (Ok (true, w1), s1)
  ∧ try_reserve 0 50 0 w1 s1 = (Ok (true, w1), s1).
Proof.
  intros w0 w1 s1.
  assert (H1 : try_reserve 0 100 0 w0 after_init = (Ok (true, w1), s1))
    by (vm_compute; reflexivity).
  split; [exact H1|].
  apply (try_reserve_again_is_noop 0 100 0 50 0 w0 after_init w1 s1 H1). lia.
Defined.

(** ** [GetInfo] *)

(** C6. When [GetInfo] returns, the total it reports is the table's total
    for the calling thread's active device, and the free it reports is the
    table's free plus the cached free bytes cub gave for that device (a
    [size_t] sum), replaced by the total when it is larger; so the
    reported free never exceeds the reported total. *)
Theorem GetInfo_reports with_update s free_mem total_mem s' :
  GetInfo with_update s = (Ok (free_mem, total_mem), s') →
  ∃ di cached,
    active_device (cuda s') = active_device (cuda s)
    ∧ dev_info_ (mgr_ s') !! Z.to_nat (active_device (cuda s)) = Some di
    ∧ (∃ earlier, trace (cuda s')
         = Called (cub_cached_bytes_free (active_device (cuda s))) cached :: earlier)
    ∧ total_mem = total_ di
    ∧ free_mem = Z.min (add64 (free_ di) (size_t (out1 cached))) (total_ di)
    ∧ free_mem ≤ total_mem.
Proof.
  unfold GetInfo. intros H. set (device := active_device (cuda s)). run H.
  first_action H Hupd.
  assert (active_device (cuda s0) = device) as Hdev.
  { destruct with_update; cbn [when] in Hupd.
    - apply update_dev_info_Ok in Hupd as (old & _ & _ & ->). done.
    - finish Hupd. done. }
  clear Hupd. run H. finish H.
  exists a2, (answers (cuda s0) (clock (cuda s0))). cbn.
  split; [done|]. split; [done|]. split; [eauto|]. split; [done|].
  destruct (Z.ltb_spec (total_ a2)
              (add64 (free_ a2) (size_t (out1 (answers (cuda s0) (clock (cuda s0)))))));
    lia.
Qed.

Lemma GetInfo_reports_witness :
  let s := (try_allocate 100 0 0 after_init).2 in
  let script' := script [ok 0 0; ok 300 0] in
  let s := set_cuda (λ d, mkDriver script' 0 (trace d) (active_device d)) s in
  ∃ s', GetInfo false s = (Ok (1000, 1000), s')
    ∧ 1000 = Z.min (add64 900 (size_t 300)) 1000.
Proof.
  intros s0 script' s.
  assert (H : GetInfo false s = (Ok (1000, 1000), (GetInfo false s).2))
    by (vm_compute; reflexivity).
  exists (GetInfo false s).2. split; [exact H|].
  destruct (GetInfo_reports false s 1000 1000 _ H) as (di & cached & _ & Hdi & Htr & Ht & Hf & _).
  vm_compute in Hdi. vm_compute in Htr. destruct Htr as [earlier Htr].
  injection Hdi as <-. injection Htr as <- _. exact Hf.
Defined.

(** ** [init] and the construction of the cache *)

Lemma reset_cub_allocator_absent p s :
  cub_allocator_ (mgr_ s) = None →
  reset_cub_allocator p s = (Ok tt, set_mgr (with_cub_allocator p) s).
Proof.
  intros Hnone. unfold reset_cub_allocator.
  erewrite bind_Ok by reflexivity. rewrite Hnone.
  rewrite bool_decide_eq_false_2 by (intros [? ?]; discriminate).
  reflexivity.
Qed.

(** C5 as the code has it.  [init] on a manager that is not initialized
    and holds no cache handle constructs the cache once.  When that
    construction throws, the exception is swallowed and the handle is
    checked: it is absent, and [init] aborts with one construction attempt
    made, whatever a second attempt would have given.  When it does not
    throw, [init] goes on with the handle set. *)
Theorem init_constructs_once gpus debug s :
  initialized_ (mgr_ s) = false →
  cub_allocator_ (mgr_ s) = None →
  let built := answers (cuda s) (S (clock (cuda s))) in
  (succeeded built = false →
     init gpus debug s = (Fatal, after_construction debug s)
     ∧ cub_allocator_ (mgr_ (after_construction debug s)) = None
     ∧ construction_attempts (trace (cuda (after_construction debug s)))
       = S (construction_attempts (trace (cuda s))))
  ∧ (succeeded built = true →
     init gpus debug s
     = (init_devices gpus;; modify_mgr (with_initialized true);; report_devices gpus)
         (after_construction debug s)
     ∧ is_Some (cub_allocator_ (mgr_ (after_construction debug s)))).
Proof.
  intros Hinit Hnone built.
  assert (Hrun : init gpus debug s
    = (m ← get_mgr;
       CHECK (bool_decide (is_Some (cub_allocator_ m)));;
       init_devices gpus;; modify_mgr (with_initialized true);; report_devices gpus)
        (after_construction debug s)).
  { unfold init. rewrite (bind_Ok get_mgr _ s (mgr_ s) s) by reflexivity.
    rewrite Hinit.
    do 4 (erewrite bind_Ok by reflexivity).
    unfold after_construction. subst built. tidy.
    destruct (succeeded (answers (cuda s) (S (clock (cuda s))))); cbn [when].
    - erewrite bind_Ok; [reflexivity|].
      apply reset_cub_allocator_absent. exact Hnone.
    - erewrite bind_Ok by reflexivity. destruct s as [[] ? ?]; reflexivity. }
  split; intros Hb.
  - assert (Hn : cub_allocator_ (mgr_ (after_construction debug s)) = None).
    { unfold after_construction. subst built. rewrite Hb. cbn. exact Hnone. }
    split; [|split; [exact Hn|]].
    + rewrite Hrun. erewrite bind_Ok by reflexivity. rewrite Hn.
      rewrite bool_decide_eq_false_2 by (intros [? ?]; discriminate). reflexivity.
    + reflexivity.
  - assert (Hn : is_Some (cub_allocator_ (mgr_ (after_construction debug s)))).
    { unfold after_construction. subst built. rewrite Hb. cbn. eauto. }
    split; [|exact Hn].
    rewrite Hrun. erewrite bind_Ok by reflexivity.
    rewrite bool_decide_eq_true_2 by exact Hn. reflexivity.
Qed.

Lemma init_constructs_once_witness :
  let s := start 1 (script [ok 0 0; mkAnswer cudaErrorMemoryAllocation 0 0]) in
  init [0] false s = (Fatal, after_construction false s).
Proof.
  intros s.
  apply (init_constructs_once [0] false s); reflexivity.
Defined.

(** C5 as the spec words it fails: the oracle makes the first construction
    of the cache throw and every later call succeed, so a second
    construction would give the handle; [init] aborts after its only
    attempt. *)
Lemma init_no_retry_counterexample :
  let oracle := λ k, if (k =? 1)%nat then mkAnswer cudaErrorMemoryAllocation 0 0 else ok 0 0 in
  let r := init [0] false (start 1 oracle) in
  r.1 = Fatal
  ∧ construction_attempts (trace (cuda r.2)) = 1%nat
  ∧ oracle 2%nat = ok 0 0.
Proof. vm_compute. auto. Qed.

(** ** Growth of an entry of the thread-local pool *)

Lemma uint_le z : 0 ≤ z → uint z ≤ z.
Proof. intros Hz. unfold uint. apply Z.mod_le; lia. Qed.

Lemma host_cleanup_Ok_inv p u s s' :
  unique_ptr_delete host_buffer_cleaner p s = (Ok u, s') →
  (p = 0 ∧ s' = s)
  ∨ (p ≠ 0
     ∧ status (answers (cuda s) (clock (cuda s))) = cudaSuccess
     ∧ s' = set_cuda (record_event (Release shared))
              (set_cuda (record_call (cudaFreeHost p))
                 (set_cuda (record_event (Acquire shared)) s))).
Proof.
  unfold unique_ptr_delete, host_buffer_cleaner. intros H.
  destruct (Z.eqb_spec p 0) as [->|Hp]; cbn [negb when] in H.
  - finish H. by left.
  - run H. finish H. right. done.
Qed.

Lemma device_cleanup_Ok_inv p u s s' :
  unique_ptr_delete device_buffer_cleaner p s = (Ok u, s') → s' = s.
Proof.
  unfold unique_ptr_delete, device_buffer_cleaner. intros H.
  destruct (negb _); cbn [when] in H; finish H; done.
Qed.

(** C8 on the code.  When the thread's pool has an entry for [group] and
    a larger size is asked for, [thread_pinned_buffer] allocates a new host
    buffer, but [emplace] keeps the entries the two maps have: the call
    returns the device pointer it returned before, the host buffer behind
    it is the old one, the recorded size is the new size, and the buffer
    just allocated is handed to [cudaFreeHost] by the cleaner of the
    [unique_ptr] that was not inserted. *)
Theorem thread_pinned_buffer_keeps_old_buffer size group s hold dold current dptr s' :
  host_buffers (thread_local_ s) !! group = Some hold →
  device_buffers (thread_local_ s) !! group = Some dold →
  0 ≤ group →
  sizes (thread_local_ s) !! Z.to_nat group = Some current →
  current < size →
  thread_pinned_buffer size group s = (Ok dptr, s') →
  let hnew := size_t (out1 (answers (cuda s) (clock (cuda s)))) in
  dptr = dold
  ∧ host_buffers (thread_local_ s') !! group = Some hold
  ∧ device_buffers (thread_local_ s') !! group = Some dold
  ∧ sizes (thread_local_ s') !! Z.to_nat group = Some size
  ∧ (hnew ≠ 0 →
     ∃ freed, status freed = cudaSuccess
       ∧ trace (cuda s')
         = Release shared :: Called (cudaFreeHost hnew) freed :: Acquire shared
           :: Called (cudaHostGetDevicePointer hnew) (answers (cuda s) (S (clock (cuda s))))
           :: Called (cudaHostAlloc size) (answers (cuda s) (clock (cuda s)))
           :: trace (cuda s)).
Proof.
  intros Hh Hd Hg Hcur Hlt Hrun hnew.
  unfold thread_pinned_buffer in Hrun.
  run Hrun.
  pose proof (lookup_lt_Some _ _ _ Hcur) as Hlen.
  assert (Hno : (vector_size (sizes (thread_local_ s)) <? uint (group + 1)) = false).
  { apply Z.ltb_ge. unfold vector_size. pose proof (uint_le (group + 1)). lia. }
  rewrite Hno in Hrun. cbn [when] in Hrun.
  run Hrun.
  match goal with H : sizes _ !! _ = Some ?x |- _ =>
    assert (x = current) as -> by congruence end.
  destruct (Z.ltb_spec current size) as [_|]; [|lia]. cbn [when] in Hrun.
  first_action Hrun Hgrow. run Hgrow.
  unfold emplace in Hgrow. rewrite Hh in Hgrow.
  first_action Hgrow Hhost.
  first_action Hhost Hclean. finish Hhost.
  fold hnew in Hclean.
  assert (thread_local_ s2 = thread_local_ s
          ∧ (hnew ≠ 0 → ∃ freed, status freed = cudaSuccess
               ∧ trace (cuda s2)
                 = Release shared :: Called (cudaFreeHost hnew) freed :: Acquire shared
                   :: Called (cudaHostGetDevicePointer hnew) (answers (cuda s) (S (clock (cuda s))))
                   :: Called (cudaHostAlloc size) (answers (cuda s) (clock (cuda s)))
                   :: trace (cuda s))) as [Htl Htr].
  { apply host_cleanup_Ok_inv in Hclean as [[Hz ->]|(Hnz & Hst & ->)].
    - split; [done|]. intros; done.
    - split; [done|]. intros _. tidy. eauto. }
  clear Hclean.
  run Hgrow. rewrite Htl, Hd in Hgrow.
  first_action Hgrow Hdev. first_action Hdev Hc. finish Hdev.
  apply device_cleanup_Ok_inv in Hc as ->.
  run Hgrow. finish Hgrow. tidy.
  run Hrun. rewrite Hd in Hrun. finish Hrun. tidy.
  rewrite Htl.
  split; [done|]. split; [done|]. split; [done|]. split; [|done].
  apply list_lookup_insert_eq. done.
Qed.

Lemma thread_pinned_buffer_keeps_old_buffer_witness :
  let s1 := (thread_pinned_buffer 64 0 (start 1 pool_oracle)).2 in
  let r := thread_pinned_buffer 128 0 s1 in
  r.1 = Ok 8192
  ∧ sizes (thread_local_ r.2) !! 0%nat = Some 128
  ∧ mapped_from (trace (cuda r.2)) 8192 = Some 4096
  ∧ pinned_heap (trace (cuda r.2)) !! 4096 = Some 64
  ∧ pinned_heap (trace (cuda r.2)) !! 12288 = None.
Proof.
  intros s1 r.
  assert (Hr : thread_pinned_buffer 128 0 s1 = (Ok 8192, r.2))
    by (vm_compute; reflexivity).
  destruct (thread_pinned_buffer_keeps_old_buffer 128 0 s1 4096 8192 64 8192 r.2)
    as (_ & _ & _ & Hsize & _);
    [vm_compute; reflexivity | vm_compute; reflexivity | lia
    | vm_compute; reflexivity | lia | exact Hr |].
  split; [vm_compute; reflexivity|]. split; [exact Hsize|].
  repeat split; vm_compute; reflexivity.
Defined.

(** ** What a run adds to the trace *)

Section Emits.
Context (P : Event → Prop).

Lemma emits_silent {A} (m : M A) :
  (∀ s r s', m s = (r, s') → trace (cuda s') = trace (cuda s)) → emits P m.
Proof. intros H s r s' Hrun. exists []. split; [by apply (H s r)|constructor]. Qed.

Lemma emits_ret {A} (a : A) : emits P (mret a).
Proof. apply emits_silent. intros s r s' H. by injection H as _ <-. Qed.

Lemma emits_fatal {A} : emits P (@fatal A).
Proof. apply emits_silent. intros s r s' H. by injection H as _ <-. Qed.

Lemma emits_undefined {A} : emits P (@undefined A).
Proof. apply emits_silent. intros s r s' H. by injection H as _ <-. Qed.

Lemma emits_bind {A B} (m : M A) (k : A → M B) :
  emits P m → (∀ a, emits P (k a)) → emits P (m ≫= k).
Proof.
  intros Hm Hk s r s' Hrun. unfold mbind, M_bind in Hrun.
  destruct (m s) as [[a| |] s1] eqn:E; destruct (Hm _ _ _ E) as (d1 & E1 & F1).
  - destruct (Hk a _ _ _ Hrun) as (d2 & E2 & F2).
    exists (d2 ++ d1). rewrite E2, E1, app_assoc. split; [done|].
    apply Forall_app; done.
  - injection Hrun as _ <-. eauto.
  - injection Hrun as _ <-. eauto.
Qed.

Lemma emits_get_mgr : emits P get_mgr.
Proof. apply emits_silent. intros s r s' H. by injection H as _ <-. Qed.

Lemma emits_get_thread_local : emits P get_thread_local.
Proof. apply emits_silent. intros s r s' H. by injection H as _ <-. Qed.

Lemma emits_get_active_device : emits P get_active_device.
Proof. apply emits_silent. intros s r s' H. by injection H as _ <-. Qed.

Lemma emits_modify_mgr f : emits P (modify_mgr f).
Proof. apply emits_silent. intros s r s' H. by injection H as _ <-. Qed.

Lemma emits_modify_thread_local f : emits P (modify_thread_local f).
Proof. apply emits_silent. intros s r s' H. by injection H as _ <-. Qed.

Lemma emits_select_device device : emits P (modify_cuda (select_device device)).
Proof. apply emits_silent. intros s r s' H. by injection H as _ <-. Qed.

Lemma emits_CHECK b : emits P (CHECK b).
Proof. destruct b; [apply emits_ret|apply emits_fatal]. Qed.

Lemma emits_CUDA_CHECK a : emits P (CUDA_CHECK a).
Proof. apply emits_CHECK. Qed.

Lemma emits_at {A} (v : list A) i : emits P (at_ v i).
Proof.
  unfold at_. destruct (i <? 0); [apply emits_undefined|].
  destruct (v !! Z.to_nat i); [apply emits_ret|apply emits_undefined].
Qed.

Lemma emits_vector_resize {A} n (d : A) v : emits P (vector_resize n d v).
Proof. unfold vector_resize. destruct (_ <? _); [apply emits_fatal|apply emits_ret]. Qed.

Lemma emits_when b m : emits P m → emits P (when b m).
Proof. intros Hm. destruct b; [exact Hm|apply emits_ret]. Qed.

Lemma emits_int_add a b : emits P (int_add a b).
Proof. unfold int_add. destruct (_ && _); [apply emits_ret|apply emits_undefined]. Qed.

Lemma emits_call c : (∀ a, P (Called c a)) → emits P (call c).
Proof.
  intros Hc s r s' H. injection H as _ <-.
  exists [Called c (answers (cuda s) (clock (cuda s)))]. split; [done|].
  constructor; [apply Hc|constructor].
Qed.

Lemma emits_emit e : P e → emits P (emit e).
Proof.
  intros He s r s' H. injection H as _ <-.
  exists [e]. split; [done|]. constructor; [exact He|constructor].
Qed.
End Emits.

(** The rules, applied as far as they go; what is left are the events
    themselves. *)
Ltac emits_step :=
  first
    [ apply emits_bind; [|intros ?]
    | apply emits_ret | apply emits_fatal | apply emits_undefined
    | apply emits_get_mgr | apply emits_get_thread_local
    | apply emits_get_active_device | apply emits_modify_mgr
    | apply emits_modify_thread_local | apply emits_select_device
    | apply emits_CUDA_CHECK | apply emits_CHECK | apply emits_at
    | apply emits_vector_resize | apply emits_when | apply emits_int_add
    | apply emits_call; intros ?
    | apply emits_emit
    | match goal with
      | |- emits _ (if ?b then _ else _) => destruct b
      | |- emits _ (match ?x with _ => _ end) => destruct x
      end ].
Ltac emits_rules := repeat emits_step.

(** ** How the file takes [read_write_mutex()] *)

Create HintDb emits_db.

Ltac emits_shared := emits_rules; first [exact I | solve [auto with emits_db] | idtac].

Lemma host_buffer_cleaner_shared b : emits shared_only (host_buffer_cleaner b).
Proof. unfold host_buffer_cleaner. emits_shared. Qed.

Lemma thread_pinned_buffer_shared size group :
  emits shared_only (thread_pinned_buffer size group).
Proof.
  unfold thread_pinned_buffer, emplace, unique_ptr_delete, device_buffer_cleaner.
  emits_shared.
Qed.

Lemma resize_buffers_shared device group : emits shared_only (resize_buffers device group).
Proof. unfold resize_buffers, resize_row. emits_shared. Qed.

Lemma pinned_buffer_shared size device group :
  emits shared_only (pinned_buffer size device group).
Proof.
  unfold pinned_buffer, at2, store2.
  apply emits_bind; [apply resize_buffers_shared|intros resized].
  emits_shared.
Qed.

Lemma current_device_shared : emits shared_only current_device.
Proof. unfold current_device. emits_shared. Qed.

Lemma set_device_shared device : emits shared_only (set_device device).
Proof. unfold set_device. emits_shared. Qed.

Lemma store_dev_info_shared device f : emits shared_only (store_dev_info device f).
Proof. unfold store_dev_info, dev_info_at. emits_shared. Qed.

Lemma store_update_threshold_shared device t :
  emits shared_only (store_update_threshold device t).
Proof. unfold store_update_threshold, update_threshold_at. emits_shared. Qed.

Lemma update_dev_info_shared device : emits shared_only (update_dev_info device).
Proof.
  unfold update_dev_info.
  apply emits_bind; [apply current_device_shared|intros ?].
  emits_shared.
Qed.

Lemma deallocate_shared ptr device : emits shared_only (deallocate ptr device).
Proof. unfold deallocate. emits_shared. Qed.

Lemma report_dev_info_shared device : emits shared_only (report_dev_info device).
Proof. unfold report_dev_info, dev_info_at. emits_shared. Qed.

Lemma init_devices_shared gpus : emits shared_only (init_devices gpus).
Proof.
  induction gpus as [|g rest IH]; cbn [init_devices]; emits_shared.
Qed.

Lemma report_devices_shared gpus : emits shared_only (report_devices gpus).
Proof.
  induction gpus as [|g rest IH]; cbn [report_devices]; emits_shared.
Qed.

#[local] Hint Resolve init_devices_shared report_devices_shared : emits_db.

Lemma init_shared gpus debug : emits shared_only (init gpus debug).
Proof. unfold init, reset_cub_allocator. emits_shared. Qed.

Lemma lazy_init_shared device : emits shared_only (lazy_init device).
Proof. unfold lazy_init, Scope_new. emits_shared. Qed.

Lemma refresh_all_shared n i cur_device : emits shared_only (refresh_all n i cur_device).
Proof.
  revert i. induction n as [|n IH]; intros i; cbn [refresh_all]; emits_shared.
Qed.

#[local] Hint Resolve refresh_all_shared : emits_db.

Lemma try_allocate_shared size device group :
  emits shared_only (try_allocate size device group).
Proof. unfold try_allocate. emits_shared. Qed.

(** ** The events of a run of [pinned_buffer] *)

Lemma resize_buffers_cuda device group s r s' :
  resize_buffers device group s = (r, s') → cuda s' = cuda s.
Proof.
  assert (Hs : ∀ (P : Event → Prop), emits P (resize_buffers device group)).
  { intros P. unfold resize_buffers, resize_row. emits_rules. }
  unfold resize_buffers, resize_row, CHECK, vector_resize, at_, int_add.
  unfold mbind, M_bind, mret, M_ret, get_mgr, modify_mgr, fatal, undefined.
  intros H.
  repeat match type of H with
         | context [if ?b then _ else _] => destruct b
         | context [match ?x !! ?i with _ => _ end] => destruct (x !! i)
         end;
    cbn in H; try (injection H as _ <-; reflexivity).
Qed.

Lemma at2_Ok_inv {A} (v : list (list A)) i j x s s' :
  at2 v i j s = (Ok x, s') →
  s' = s ∧ ∃ row, v !! Z.to_nat i = Some row ∧ row !! Z.to_nat j = Some x.
Proof. unfold at2. intros H. run H. finish H. eauto. Qed.

Lemma store2_Ok_inv {A} (v : list (list A)) i j (x : A) v' s s' :
  store2 v i j x s = (Ok v', s') →
  s' = s ∧ ∃ row, v !! Z.to_nat i = Some row
                  ∧ v' = <[Z.to_nat i := <[Z.to_nat j := x]> row]> v.
Proof. unfold store2. intros H. run H. finish H. eauto. Qed.

(** [run], going through table accesses as well. *)
Ltac step2 H :=
  first
    [ step H
    | let a := fresh "a" in
      let s := fresh "s" in
      let H1 := fresh "H" in
      apply bind_Ok_inv in H as (a & s & H1 & H);
      first
        [ apply at2_Ok_inv in H1 as [-> (? & ? & H1)]
        | apply store2_Ok_inv in H1 as [-> (? & ? & ->)]
        | apply store_dev_info_Ok_inv in H1 as (? & ? & H1 & ->)
        | apply store_update_threshold_Ok_inv in H1 as (? & ? & H1 & ->)
        | apply dev_info_at_Ok_inv in H1 as (? & H1 & ->)
        | apply update_threshold_at_Ok_inv in H1 as (? & H1 & ->) ];
      tidy ].
Ltac run2 H := repeat step2 H.

Lemma pinned_buffer_lock size device group s p s' :
  pinned_buffer size device group s = (Ok p, s') →
  trace (cuda s') = trace (cuda s)
  ∨ ∃ mid a,
      trace (cuda s') = Release shared :: mid ++ Acquire shared :: trace (cuda s)
      ∧ Called (cudaHostAlloc (Z.max size INITIAL_PINNED_BYTES)) a ∈ mid.
Proof.
  unfold pinned_buffer. intros H.
  first_action H Hres. apply resize_buffers_cuda in Hres as Hc.
  run2 H. first_action H Hgrow. run2 H. finish H.
  destruct ((_ <? _) || a); cbn [when] in Hgrow.
  - right. run2 Hgrow.
    first_action Hgrow Hold.
    match type of Hold with
    | _ = (Ok _, ?sx) =>
        assert (∃ pre, trace (cuda sx) = pre ++ Acquire shared :: trace (cuda s)
                       ∧ mgr_ sx = mgr_ s0) as (pre & Hpre & Hmgr)
    end.
    { destruct (negb a); cbn [when] in Hold.
      - run2 Hold. finish Hold. tidy. rewrite Hc.
        eexists [_]. split; reflexivity.
      - finish Hold. tidy. rewrite Hc. exists []. split; reflexivity. }
    clear Hold.
    run2 Hgrow. finish Hgrow. tidy. rewrite Hpre.
    eexists (_ :: _ :: pre), _. split; [reflexivity|].
    apply elem_of_cons. right. apply elem_of_cons. left. reflexivity.
  - left. finish Hgrow. by rewrite Hc.
Qed.

(** ** Relations every run keeps *)

Section Keeps.
Context (R : Process → Process → Prop).
Context `{!Reflexive R, !Transitive R}.

Lemma keeps_still {A} (m : M A) :
  (∀ s a s', m s = (Ok a, s') → s' = s) → keeps R m.
Proof. intros H s a s' Hrun. rewrite (H _ _ _ Hrun). reflexivity. Qed.

Lemma keeps_ret {A} (a : A) : keeps R (mret a).
Proof. apply keeps_still. intros s b s' H. by injection H as _ <-. Qed.

Lemma keeps_fatal {A} : keeps R (@fatal A).
Proof. intros s a s' H. discriminate. Qed.

Lemma keeps_undefined {A} : keeps R (@undefined A).
Proof. intros s a s' H. discriminate. Qed.

Lemma keeps_bind {A B} (m : M A) (k : A → M B) :
  keeps R m → (∀ a, keeps R (k a)) → keeps R (m ≫= k).
Proof.
  intros Hm Hk s b s' Hrun.
  apply bind_Ok_inv in Hrun as (a & s1 & H1 & H2).
  transitivity s1; [exact (Hm _ _ _ H1)|exact (Hk a _ _ _ H2)].
Qed.

Lemma keeps_get_mgr : keeps R get_mgr.
Proof. apply keeps_still. intros s b s' H. by injection H as _ <-. Qed.

Lemma keeps_get_thread_local : keeps R get_thread_local.
Proof. apply keeps_still. intros s b s' H. by injection H as _ <-. Qed.

Lemma keeps_get_active_device : keeps R get_active_device.
Proof. apply keeps_still. intros s b s' H. by injection H as _ <-. Qed.

Lemma keeps_CHECK b : keeps R (CHECK b).
Proof. destruct b; [apply keeps_ret|apply keeps_fatal]. Qed.

Lemma keeps_CUDA_CHECK a : keeps R (CUDA_CHECK a).
Proof. apply keeps_CHECK. Qed.

Lemma keeps_at {A} (v : list A) i : keeps R (at_ v i).
Proof.
  unfold at_. destruct (i <? 0); [apply keeps_undefined|].
  destruct (v !! Z.to_nat i); [apply keeps_ret|apply keeps_undefined].
Qed.

Lemma keeps_vector_resize {A} n (d : A) v : keeps R (vector_resize n d v).
Proof. unfold vector_resize. destruct (_ <? _); [apply keeps_fatal|apply keeps_ret]. Qed.

Lemma keeps_when b m : keeps R m → keeps R (when b m).
Proof. intros Hm. destruct b; [exact Hm|apply keeps_ret]. Qed.

Lemma keeps_int_add a b : keeps R (int_add a b).
Proof. unfold int_add. destruct (_ && _); [apply keeps_ret|apply keeps_undefined]. Qed.

Lemma keeps_modify_mgr f : (∀ s, R s (set_mgr f s)) → keeps R (modify_mgr f).
Proof. intros Hf s a s' H. injection H as _ <-. apply Hf. Qed.

Lemma keeps_modify_thread_local f :
  (∀ s, R s (set_thread_local f s)) → keeps R (modify_thread_local f).
Proof. intros Hf s a s' H. injection H as _ <-. apply Hf. Qed.

Lemma keeps_modify_cuda f : (∀ s, R s (set_cuda f s)) → keeps R (modify_cuda f).
Proof. intros Hf s a s' H. injection H as _ <-. apply Hf. Qed.

Lemma keeps_emit e : (∀ s, R s (set_cuda (record_event e) s)) → keeps R (emit e).
Proof. apply keeps_modify_cuda. Qed.

Lemma keeps_call c : (∀ s, R s (set_cuda (record_call c) s)) → keeps R (call c).
Proof. intros Hf s a s' H. injection H as _ <-. apply Hf. Qed.
End Keeps.

Ltac keeps_apply lem := apply lem; try typeclasses eauto.
Ltac keeps_step :=
  first
    [ keeps_apply keeps_bind; [|intros ?]
    | keeps_apply keeps_ret | keeps_apply keeps_fatal | keeps_apply keeps_undefined
    | keeps_apply keeps_get_mgr | keeps_apply keeps_get_thread_local
    | keeps_apply keeps_get_active_device
    | keeps_apply keeps_CUDA_CHECK | keeps_apply keeps_CHECK | keeps_apply keeps_at
    | keeps_apply keeps_vector_resize | keeps_apply keeps_when
    | keeps_apply keeps_int_add
    | keeps_apply keeps_call; intros ? | keeps_apply keeps_emit; intros ?
    | keeps_apply keeps_modify_cuda; intros ?
    | keeps_apply keeps_modify_mgr; intros ?
    | keeps_apply keeps_modify_thread_local; intros ?
    | match goal with
      | |- keeps _ (if ?b then _ else _) => destruct b
      | |- keeps _ (match ?x with _ => _ end) => destruct x
      end ].
Ltac keeps_rules := repeat keeps_step.

#[local] Instance same_thresholds_refl : Reflexive same_thresholds.
Proof. intros s. reflexivity. Qed.
#[local] Instance same_thresholds_trans : Transitive same_thresholds.
Proof. intros s1 s2 s3 H1 H2. unfold same_thresholds in *. congruence. Qed.

Ltac keeps_thresholds :=
  keeps_rules; first [reflexivity | solve [auto] | idtac].

Lemma update_dev_info_thresholds device : keeps same_thresholds (update_dev_info device).
Proof. unfold update_dev_info. keeps_thresholds. Qed.

Lemma store_dev_info_thresholds device f : keeps same_thresholds (store_dev_info device f).
Proof. unfold store_dev_info. keeps_thresholds. Qed.

Lemma refresh_all_thresholds n i cur_device :
  keeps same_thresholds (refresh_all n i cur_device).
Proof.
  revert i. induction n as [|n IH]; intros i; cbn [refresh_all]; keeps_thresholds.
Qed.

(** ** The events of one call *)

Lemma new_events_app s s' added :
  trace (cuda s') = added ++ trace (cuda s) → new_events s s' = added.
Proof.
  intros H. unfold new_events. rewrite H, length_app.
  replace (length added + length (trace (cuda s)) - length (trace (cuda s)))%nat
    with (length added) by lia.
  apply take_app_length.
Qed.

Lemma queries_app l1 l2 : queries (l1 ++ l2) = queries l1 || queries l2.
Proof. apply existsb_app. Qed.

Lemma update_dev_info_queries device u s s' :
  update_dev_info device s = (Ok u, s') →
  ∃ added, trace (cuda s') = added ++ trace (cuda s) ∧ queries added = true.
Proof.
  intros (old & _ & _ & ->)%update_dev_info_Ok. cbn.
  eexists [_; _; _; _; _; _]. split; reflexivity.
Qed.

Lemma trace_grows {A} (m : M A) P s r s' :
  emits P m → m s = (r, s') → ∃ added, trace (cuda s') = added ++ trace (cuda s).
Proof. intros Hm Hrun. destruct (Hm _ _ _ Hrun) as (added & H & _). eauto. Qed.

(** ** The accounting of [try_allocate] *)

Lemma refresh_after_error_thresholds device :
  keeps same_thresholds (refresh_after_error device).
Proof.
  pose proof update_dev_info_thresholds. pose proof store_dev_info_thresholds.
  pose proof refresh_all_thresholds.
  unfold refresh_after_error. keeps_rules; first [reflexivity | auto].
Qed.

Lemma refresh_after_error_shared device : emits shared_only (refresh_after_error device).
Proof. unfold refresh_after_error. emits_shared. Qed.

Lemma grown_inside device v di :
  0 ≤ device → v !! Z.to_nat device = Some di → grown device v = v.
Proof.
  intros Hd Hdi. apply lookup_lt_Some in Hdi. unfold grown, vector_size, size_t.
  destruct (Z.ltb_spec (Z.of_nat (length v)) ((device + 1) mod 2 ^ 64)); [|done].
  pose proof (Z.mod_le (device + 1) (2 ^ 64)). lia.
Qed.

(** The refresh after an error, for a device the table has. *)
Lemma refresh_after_error_Ok_inv device u s s' di :
  refresh_after_error device s = (Ok u, s') →
  0 ≤ device → dev_info_ (mgr_ s) !! Z.to_nat device = Some di →
  (total_ di = 0 ∧ s' = s)
  ∨ (total_ di ≠ 0
     ∧ ∃ s1 di1, update_dev_info device s = (Ok tt, s1)
         ∧ dev_info_ (mgr_ s1) !! Z.to_nat device = Some di1
         ∧ s' = set_mgr (with_dev_info
                           (<[Z.to_nat device := incr_flush_count di1]> (dev_info_ (mgr_ s1))))
                  s1).
Proof.
  unfold refresh_after_error. intros H Hd Hdi. run H.
  pose proof (lookup_lt_Some _ _ _ Hdi) as Hlen.
  destruct (Z.ltb_spec INVALID_DEVICE device); [|unfold INVALID_DEVICE in *; lia].
  destruct (Z.ltb_spec device (vector_size (dev_info_ (mgr_ s))));
    [|unfold vector_size in *; lia].
  cbn [andb] in H.
  first_action H Hat. apply dev_info_at_Ok_inv in Hat as (_ & Hat & ->).
  assert (a = di) as -> by congruence.
  destruct (Z.eqb_spec (total_ di) 0) as [Hz|Hnz]; cbn [negb when] in H.
  - left. by finish H.
  - right. split; [done|]. first_action H Hupd. destruct a.
    apply store_dev_info_Ok_inv in H as (di1 & _ & Hdi1 & ->). eauto.
Qed.

(** The three ways [account_allocation] goes. *)
Lemma account_allocation_Ok_inv device carved u s s' :
  account_allocation device carved s = (Ok u, s') →
  0 < carved →
  ∃ di threshold,
    dev_info_ (mgr_ s) !! Z.to_nat device = Some di
    ∧ update_thresholds_ (mgr_ s) !! Z.to_nat device = Some threshold
    ∧ (free_ di < threshold →
         (∃ added, trace (cuda s') = added ++ trace (cuda s) ∧ queries added = true)
         ∧ update_thresholds_ (mgr_ s')
           = <[Z.to_nat device := decay_threshold threshold]> (update_thresholds_ (mgr_ s)))
    ∧ (threshold ≤ free_ di → free_ di < carved →
         (∃ added, trace (cuda s') = added ++ trace (cuda s) ∧ queries added = true)
         ∧ update_thresholds_ (mgr_ s') = update_thresholds_ (mgr_ s))
    ∧ (threshold ≤ free_ di → carved ≤ free_ di →
         s' = set_mgr (with_dev_info
                         (<[Z.to_nat device := with_free (sub64 (free_ di) carved) di]>
                            (dev_info_ (mgr_ s)))) s).
Proof.
  unfold account_allocation. intros H Hpos.
  destruct (Z.ltb_spec 0 carved); [|lia]. cbn [when] in H.
  first_action H Hdi. apply dev_info_at_Ok_inv in Hdi as (_ & Hdi & ->).
  first_action H Hthr. apply update_threshold_at_Ok_inv in Hthr as (_ & Hthr & ->).
  eexists _, _. split; [exact Hdi|]. split; [exact Hthr|].
  destruct (Z.ltb_spec (free_ a) a0) as [Hlow|Hhigh].
  - first_action H Hupd.
    pose proof (update_dev_info_queries _ _ _ _ Hupd) as (added & Hadd & Hq).
    pose proof (update_dev_info_thresholds _ _ _ _ Hupd) as Hsame.
    first_action H Hthr2. apply update_threshold_at_Ok_inv in Hthr2 as (_ & Hthr2 & ->).
    apply store_update_threshold_Ok_inv in H as (old & _ & _ & ->). tidy.
    unfold same_thresholds in Hsame. rewrite Hsame in *.
    assert (a2 = a0) as -> by congruence.
    split; [|split]; [|intros; lia..].
    intros _. split; [eauto|reflexivity].
  - destruct (Z.ltb_spec (free_ a) carved) as [Hbig|Hfit].
    + pose proof (update_dev_info_queries _ _ _ _ H) as (added & Hadd & Hq).
      pose proof (update_dev_info_thresholds _ _ _ _ H) as Hsame.
      split; [intros; lia|]. split; [|intros; lia].
      intros _ _. split; [eauto|exact Hsame].
    + apply store_dev_info_Ok_inv in H as (di' & _ & Hdi' & ->).
      assert (di' = a) as -> by congruence.
      split; [intros; lia|]. split; [intros; lia|]. intros _ _. reflexivity.
Qed.

(** The refresh of [account_allocation]: the entry of the device holds
    what the driver answered. *)
Lemma account_allocation_refreshed device carved u s s' di threshold :
  account_allocation device carved s = (Ok u, s') →
  0 < carved →
  dev_info_ (mgr_ s) !! Z.to_nat device = Some di →
  update_thresholds_ (mgr_ s) !! Z.to_nat device = Some threshold →
  free_ di < threshold ∨ free_ di < carved →
  0 ≤ device
  ∧ dev_info_ (mgr_ s')
    = <[Z.to_nat device := refreshed (answers (cuda s) (3 + clock (cuda s))%nat)
                                     (answers (cuda s) (4 + clock (cuda s))%nat) di]>
        (dev_info_ (mgr_ s))
  ∧ cuda s' = after_refresh device (cuda s).
Proof.
  unfold account_allocation. intros H Hpos Hdi Hthr Hcase.
  destruct (Z.ltb_spec 0 carved); [|lia]. cbn [when] in H.
  first_action H Hdi'. apply dev_info_at_Ok_inv in Hdi' as (Hd & Hdi' & ->).
  first_action H Hthr'. apply update_threshold_at_Ok_inv in Hthr' as (_ & Hthr' & ->).
  assert (a = di) as -> by congruence. assert (a0 = threshold) as -> by congruence.
  split; [done|].
  destruct (Z.ltb_spec (free_ di) threshold) as [Hlow|Hhigh].
  - first_action H Hupd.
    apply update_dev_info_Ok in Hupd as (old & _ & Hold & ->).
    rewrite (grown_inside _ _ _ Hd Hdi) in *. assert (old = di) as -> by congruence.
    first_action H Hthr2. apply update_threshold_at_Ok_inv in Hthr2 as (_ & _ & ->).
    apply store_update_threshold_Ok_inv in H as (? & _ & _ & ->). tidy. done.
  - destruct (Z.ltb_spec (free_ di) carved) as [Hbig|Hfit]; [|lia].
    apply update_dev_info_Ok in H as (old & _ & Hold & ->).
    rewrite (grown_inside _ _ _ Hd Hdi) in *. assert (old = di) as -> by congruence.
    tidy. done.
Qed.

(** C3 as the code has it.  A [try_allocate] on an initialized manager
    that succeeds on a valid device with bytes freshly carved
    ([size_allocated > 0]) goes one of three ways.  Free estimate below
    the threshold: DeviceInfo is refreshed by a real query and the
    threshold is replaced by its [float] product with [0.9F].  Free
    estimate not below the threshold but below the carved amount:
    DeviceInfo is refreshed by a real query and the threshold stays.  In
    both, the entry of the device holds what that query answered, the
    other entries being as they were (and, when the driver's last error
    is not clear, what the query after the lock answered, with one more
    flush).  Otherwise the threshold stays and, the driver's last error
    being [cudaSuccess], no query is made and the free estimate is debited
    by the carved amount. *)
Theorem try_allocate_accounting size device group s p stream s' :
  initialized_ (mgr_ s) = true →
  try_allocate size device group s = (Ok (true, p, stream), s') →
  INVALID_DEVICE < device →
  0 < size_t (out2 (answers (cuda s) (2 + clock (cuda s))%nat)) →
  ∃ di threshold,
    let carved := size_t (out2 (answers (cuda s) (2 + clock (cuda s))%nat)) in
    let queried := refreshed (answers (cuda s) (6 + clock (cuda s))%nat)
                             (answers (cuda s) (7 + clock (cuda s))%nat) di in
    let refreshed_table :=
      <[Z.to_nat device :=
          after_last_error (answers (cuda s) (9 + clock (cuda s))%nat)
                           (answers (cuda s) (13 + clock (cuda s))%nat)
                           (answers (cuda s) (14 + clock (cuda s))%nat) queried]>
        (dev_info_ (mgr_ s)) in
    dev_info_ (mgr_ s) !! Z.to_nat device = Some di
    ∧ update_thresholds_ (mgr_ s) !! Z.to_nat device = Some threshold
    ∧ (free_ di < threshold →
         queries (new_events s s') = true
         ∧ dev_info_ (mgr_ s') = refreshed_table
         ∧ update_thresholds_ (mgr_ s')
           = <[Z.to_nat device := decay_threshold threshold]> (update_thresholds_ (mgr_ s)))
    ∧ (threshold ≤ free_ di → free_ di < carved →
         queries (new_events s s') = true
         ∧ dev_info_ (mgr_ s') = refreshed_table
         ∧ update_thresholds_ (mgr_ s') = update_thresholds_ (mgr_ s))
    ∧ (threshold ≤ free_ di → carved ≤ free_ di →
         update_thresholds_ (mgr_ s') = update_thresholds_ (mgr_ s)
         ∧ (status (answers (cuda s) (3 + clock (cuda s))%nat) = cudaSuccess →
            queries (new_events s s') = false
            ∧ dev_info_ (mgr_ s')
              = <[Z.to_nat device := with_free (sub64 (free_ di) carved) di]>
                  (dev_info_ (mgr_ s)))).
Proof.
  intros Hinit H Hvalid Hpos. unfold try_allocate in H.
  run H. rewrite Hinit in H. cbn [negb when] in H. run H.
  destruct (cub_allocator_ (mgr_ s)); [|first_action H Hu; discriminate].
  run H.
  first_action H Hacct. run H. first_action H Herr.
  apply ret_Ok_inv in H as [H <-]. injection H as Hok _ _.
  rewrite Hok in *. cbn [negb orb andb] in *.
  destruct (Z.ltb_spec INVALID_DEVICE device); [|lia]. cbn [when] in Hacct.
  pose proof Hacct as Hacct'.
  apply account_allocation_Ok_inv in Hacct as (di & thr & Hdi & Hthr & Hlow & Hbig & Hfit);
    [|exact Hpos].
  tidy. exists di, thr. cbn zeta.
  split; [exact Hdi|]. split; [exact Hthr|].
  (* the block after the lock *)
  match type of Herr with
  | when ?b ?m ?sc = (Ok _, ?sd) =>
      assert (same_thresholds sc sd
              ∧ (∃ added, trace (cuda sd) = added ++ trace (cuda sc))
              ∧ (b = false → sd = sc)) as (Hsame & (late & Hlate) & Hclean)
  end.
  { split; [|split].
    - eapply (keeps_when same_thresholds); [|exact Herr].
      apply refresh_after_error_thresholds.
    - eapply trace_grows; [|exact Herr].
      apply emits_when. apply refresh_after_error_shared.
    - intros Hb. rewrite Hb in Herr. by finish Herr. }
  unfold same_thresholds in Hsame. tidy.
  (* the entry after a refresh inside the lock *)
  match type of Herr with
  | _ = (Ok _, ?sd) =>
      assert (Hentry :
        free_ di < thr ∨ free_ di < size_t (out2 (answers (cuda s) (2 + clock (cuda s))%nat)) →
        dev_info_ (mgr_ sd)
        = <[Z.to_nat device :=
              after_last_error (answers (cuda s) (9 + clock (cuda s))%nat)
                (answers (cuda s) (13 + clock (cuda s))%nat)
                (answers (cuda s) (14 + clock (cuda s))%nat)
                (refreshed (answers (cuda s) (6 + clock (cuda s))%nat)
                           (answers (cuda s) (7 + clock (cuda s))%nat) di)]>
            (dev_info_ (mgr_ s)))
  end.
  { intros Hcase.
    destruct (account_allocation_refreshed _ _ _ _ _ _ _ Hacct' Hpos Hdi Hthr Hcase)
      as (Hd & Hdev & Hcuda).
    tidy. pose proof (lookup_lt_Some _ _ _ Hdi) as Hlt.
    unfold after_last_error.
    rewrite Hcuda in Herr. unfold after_refresh in Herr. tidy. cbn [Nat.add] in *.
    match type of Herr with
    | when (negb (succeeded ?x)) _ _ = _ => destruct (succeeded x) eqn:Hlast
    end.
    - cbn [negb orb when] in Herr. finish Herr. tidy. exact Hdev.
    - cbn [negb orb when] in Herr.
      eapply refresh_after_error_Ok_inv in Herr
        as [[Hz ->]|(Hnz & sr & di1 & Hupd & Hdi1 & ->)]; [| |exact Hd|].
      + tidy. rewrite Hdev. apply Z.eqb_eq in Hz. by rewrite Hz.
      + apply update_dev_info_Ok in Hupd as (old & _ & Hold & ->). tidy.
        rewrite Hdev in *.
        rewrite (grown_inside device _ _ Hd (list_lookup_insert_eq _ _ _ Hlt)) in *.
        rewrite list_lookup_insert_eq in Hold by done. injection Hold as <-.
        rewrite list_lookup_insert_eq in Hdi1 by (by rewrite length_insert).
        injection Hdi1 as <-.
        rewrite !list_insert_insert_eq, Hcuda. unfold after_refresh. tidy.
        apply Z.eqb_neq in Hnz. rewrite Hnz. reflexivity.
      + tidy. rewrite Hdev. by apply list_lookup_insert_eq. }
  clear Herr.
  split; [|split].
  - intros Hlt. destruct (Hlow Hlt) as ((added & Hadd & Hq) & Hupd). split; [|split].
    + erewrite (new_events_app _ _ (late ++ [_; _] ++ added ++ [_; _; _; _])).
      2:{ rewrite Hlate, Hadd. rewrite <- ?app_assoc. cbn. rewrite <- ?app_assoc. reflexivity. }
      rewrite !queries_app, Hq. by rewrite !orb_true_r.
    + apply Hentry. by left.
    + by rewrite Hsame.
  - intros Hge Hlt. destruct (Hbig Hge Hlt) as ((added & Hadd & Hq) & Hupd). split; [|split].
    + erewrite (new_events_app _ _ (late ++ [_; _] ++ added ++ [_; _; _; _])).
      2:{ rewrite Hlate, Hadd. rewrite <- ?app_assoc. cbn. rewrite <- ?app_assoc. reflexivity. }
      rewrite !queries_app, Hq. by rewrite !orb_true_r.
    + apply Hentry. by right.
    + by rewrite Hsame.
  - intros Hge Hle. pose proof (Hfit Hge Hle) as ->. tidy.
    split; [by rewrite Hsame|].
    intros Hlast. rewrite Hclean.
    2:{ unfold succeeded. by rewrite bool_decide_eq_true_2. }
    tidy. split; [|reflexivity].
    erewrite (new_events_app _ _
                [Called cudaGetLastError _; Release shared;
                 Called (cub_DeviceAllocate _ _ _) _; Called (Caffe_thread_pstream _) _;
                 Acquire shared; Called cudaGetDevice _]); reflexivity.
Qed.

Lemma try_allocate_accounting_witness :
  let s' := (try_allocate 100 0 0 after_init).2 in
  let s2 := (try_allocate 850 0 0 stale_estimate).2 in
  try_allocate 100 0 0 after_init = (Ok (true, 4096, 7), s')
  ∧ update_thresholds_ (mgr_ s') = [1000]
  ∧ dev_info_ (mgr_ s') = [mkDevInfo 900 1000 0]
  ∧ try_allocate 850 0 0 stale_estimate = (Ok (true, 16384, 7), s2)
  ∧ dev_info_ (mgr_ s2) = [mkDevInfo 40 1000 0]
  ∧ update_thresholds_ (mgr_ s2) = [810].
Proof.
  intros s' s2.
  assert (Hrun : try_allocate 100 0 0 after_init = (Ok (true, 4096, 7), s'))
    by (vm_compute; reflexivity).
  assert (Hrun2 : try_allocate 850 0 0 stale_estimate = (Ok (true, 16384, 7), s2))
    by (vm_compute; reflexivity).
  split; [exact Hrun|].
  destruct (try_allocate_accounting 100 0 0 after_init 4096 7 s')
    as (di & thr & Hdi & Hthr & _ & _ & Hfit);
    [reflexivity | exact Hrun | reflexivity | vm_compute; reflexivity |].
  vm_compute in Hdi, Hthr. injection Hdi as <-. injection Hthr as <-.
  destruct Hfit as [Hsame Hdebit]; [vm_compute; discriminate..|].
  split; [exact Hsame|].
  destruct Hdebit as [_ Hd]; [reflexivity|]. split; [exact Hd|].
  split; [exact Hrun2|].
  destruct (try_allocate_accounting 850 0 0 stale_estimate 16384 7 s2)
    as (di & thr & Hdi & Hthr & _ & Hbig & _);
    [vm_compute; reflexivity | exact Hrun2 | reflexivity | vm_compute; reflexivity |].
  vm_compute in Hdi, Hthr. injection Hdi as <-. injection Hthr as <-.
  destruct Hbig as (_ & Hdev & Hkept); [vm_compute; discriminate | vm_compute; reflexivity |].
  split.
  - rewrite Hdev. vm_compute. reflexivity.
  - rewrite Hkept. vm_compute. reflexivity.
Defined.

(** C3 as the spec words it fails: the carved amount, 850, exceeds the
    free estimate, 840, which is not below the threshold, 810; the
    allocation succeeds and DeviceInfo is refreshed by a real query, but
    the threshold is left at 810, where a decay by 10% would make it
    729. *)
Lemma try_allocate_no_decay_counterexample :
  let r := try_allocate 850 0 0 stale_estimate in
  dev_info_ (mgr_ stale_estimate) = [mkDevInfo 840 1000 0]
  ∧ update_thresholds_ (mgr_ stale_estimate) = [810]
  ∧ r.1 = Ok (true, 16384, 7)
  ∧ queries (new_events stale_estimate r.2) = true
  ∧ dev_info_ (mgr_ r.2) = [mkDevInfo 40 1000 0]
  ∧ update_thresholds_ (mgr_ r.2) = [810]
  ∧ decay_threshold 810 = 729.
Proof. vm_compute. repeat split; reflexivity. Qed.

(** ** [size_t] arithmetic and the entries of the table *)

Lemma size_t_range z : 0 ≤ size_t z < 2 ^ 64.
Proof. unfold size_t. apply Z.mod_pos_bound. lia. Qed.

Lemma sub64_le a b : b ≤ a → 0 ≤ sub64 a b ≤ a - b.
Proof.
  intros H. unfold sub64, size_t. split.
  - apply Z.mod_pos_bound. lia.
  - apply Z.mod_le; lia.
Qed.

Lemma refreshed_ok props mem old : dev_ok (refreshed props mem old).
Proof.
  unfold dev_ok, refreshed. cbn.
  pose proof (size_t_range (out1 props)). pose proof (size_t_range (out2 mem)).
  pose proof (size_t_range (out1 mem)). lia.
Qed.

(** After a refresh the entry of the device is within bounds, whatever
    the table held. *)
Lemma update_dev_info_entry device u s s' :
  update_dev_info device s = (Ok u, s') →
  ∃ di, dev_info_ (mgr_ s') !! Z.to_nat device = Some di ∧ 0 ≤ free_ di ≤ total_ di.
Proof.
  intros (old & _ & Hold & ->)%update_dev_info_Ok. cbn.
  eexists. split; [|apply refreshed_ok].
  apply list_lookup_insert_eq. eapply lookup_lt_Some, Hold.
Qed.

Lemma add64_le a b : 0 ≤ a + b → 0 ≤ add64 a b ≤ a + b.
Proof.
  intros H. unfold add64, size_t. split.
  - apply Z.mod_pos_bound. lia.
  - apply Z.mod_le; lia.
Qed.

(** The ways [deallocate] returns: without calling cub, or having
    credited what cub reported freed. *)
Lemma deallocate_Ok_inv ptr device u s s' :
  deallocate ptr device s = (Ok u, s') →
  (mgr_ s' = mgr_ s
   ∧ (trace (cuda s') = trace (cuda s)
      ∨ trace (cuda s')
        = Called cudaGetDevice (answers (cuda s) (clock (cuda s))) :: trace (cuda s)))
  ∨ (let r := answers (cuda s) (S (clock (cuda s))) in
     let freed := size_t (out1 r) in
     status r = cudaSuccess
     ∧ trace (cuda s')
       = Release shared :: Called (cub_DeviceFree device ptr) r :: Acquire shared
         :: Called cudaGetDevice (answers (cuda s) (clock (cuda s))) :: trace (cuda s)
     ∧ (freed = 0 → mgr_ s' = mgr_ s)
     ∧ (0 < freed →
        ∃ di, dev_info_ (mgr_ s) !! Z.to_nat device = Some di
          ∧ mgr_ s' = with_dev_info
                        (<[Z.to_nat device := with_free (add64 (free_ di) freed) di]>
                           (dev_info_ (mgr_ s)))
                        (mgr_ s))).
Proof.
  unfold deallocate. intros H. run H.
  destruct ((ptr =? 0) || _).
  { finish H. left. auto. }
  run H.
  destruct (bool_decide _).
  { finish H. left. auto. }
  run H. right. cbn zeta.
  first_action H Hcredit. finish H. tidy.
  pose proof (size_t_range (out1 (answers (cuda s) (S (clock (cuda s)))))) as Hrange.
  destruct (Z.ltb_spec 0 (size_t (out1 (answers (cuda s) (S (clock (cuda s)))))))
    as [Hpos|Hzero]; cbn [when] in Hcredit.
  - apply store_dev_info_Ok_inv in Hcredit as (di & _ & Hdi & ->). tidy.
    split; [done|]. split; [done|]. split; [lia|]. intros _. eauto.
  - finish Hcredit. tidy. split; [done|]. split; [done|]. split; [done|]. lia.
Qed.

(** ** The free estimate between two refreshes *)

Lemma total_of_app f l1 l2 : total_of f (l1 ++ l2) = total_of f l1 + total_of f l2.
Proof. unfold total_of. induction l1 as [|e l1 IH]; cbn; [lia|]. rewrite IH. lia. Qed.

Lemma GetInfo_shared with_update : emits shared_only (GetInfo with_update).
Proof. unfold GetInfo. emits_shared. Qed.

Lemma reset_shared : emits shared_only reset.
Proof. unfold reset, reset_cub_allocator. emits_shared. Qed.

Lemma exec_shared o : emits shared_only (exec o).
Proof.
  destruct o; cbn [exec].
  - apply init_shared.
  - apply reset_shared.
  - apply emits_bind; [apply try_allocate_shared|intros ?; apply emits_ret].
  - apply deallocate_shared.
  - apply emits_bind; [apply GetInfo_shared|intros ?; apply emits_ret].
  - apply update_dev_info_shared.
  - apply set_device_shared.
Qed.

Lemma run_shared ops : emits shared_only (run ops).
Proof.
  induction ops as [|o ops IH]; cbn [run]; [apply emits_ret|].
  apply emits_bind; [apply exec_shared|intros ?; exact IH].
Qed.

Lemma refresh_after_error_no_query device u s s' :
  refresh_after_error device s = (Ok u, s') →
  0 ≤ device → is_Some (dev_info_ (mgr_ s) !! Z.to_nat device) →
  s' = s ∨ ∃ added, trace (cuda s') = added ++ trace (cuda s) ∧ queries added = true.
Proof.
  unfold refresh_after_error. intros H Hd [di Hdi]. run H.
  pose proof (lookup_lt_Some _ _ _ Hdi) as Hlen.
  destruct (Z.ltb_spec INVALID_DEVICE device); [|unfold INVALID_DEVICE in *; lia].
  destruct (Z.ltb_spec device (vector_size (dev_info_ (mgr_ s))));
    [|unfold vector_size in *; lia].
  cbn [andb] in H.
  first_action H Hat. apply dev_info_at_Ok_inv in Hat as (_ & _ & ->).
  destruct (negb _); cbn [when] in H.
  - right. first_action H Hupd.
    apply update_dev_info_queries in Hupd as (added & Hadd & Hq).
    apply store_dev_info_Ok_inv in H as (? & _ & _ & ->). tidy. eauto.
  - left. by finish H.
Qed.

Lemma queries_in_new_events s s' pre added post :
  trace (cuda s') = pre ++ added ++ post ++ trace (cuda s) →
  queries added = true →
  queries (new_events s s') = true.
Proof.
  intros Heq Hq. rewrite (new_events_app _ _ (pre ++ added ++ post)).
  - rewrite !queries_app, Hq. by rewrite orb_true_r.
  - rewrite Heq. by rewrite <- !app_assoc.
Qed.

(** One [try_allocate] without a refresh. *)
Lemma try_allocate_no_refresh size device group res s s' di :
  initialized_ (mgr_ s) = true →
  0 ≤ device →
  dev_info_ (mgr_ s) !! Z.to_nat device = Some di →
  0 ≤ free_ di < 2 ^ 64 →
  try_allocate size device group s = (Ok res, s') →
  queries (new_events s s') = false →
  ∃ added di',
    trace (cuda s') = added ++ trace (cuda s)
    ∧ initialized_ (mgr_ s') = true
    ∧ dev_info_ (mgr_ s') !! Z.to_nat device = Some di'
    ∧ total_ di' = total_ di
    ∧ total_of (freed_bytes device) added = 0
    ∧ 0 ≤ total_of (carved_bytes device) added
    ∧ free_ di' = free_ di - total_of (carved_bytes device) added
    ∧ 0 ≤ free_ di' < 2 ^ 64.
Proof.
  intros Hinit Hd Hdi Hfree H Hnq. unfold try_allocate in H.
  run H. rewrite Hinit in H. cbn [negb when] in H. run H.
  destruct (cub_allocator_ (mgr_ s)); [|first_action H Hu; discriminate].
  run H.
  first_action H Hacct. run H. first_action H Herr. finish H.
  set (r := answers (cuda s) (S (S (clock (cuda s))))) in *.
  set (carved := size_t (out2 r)) in *.
  pose proof (size_t_range (out2 r)) as Hrange. fold carved in Hrange.
  (* the accounting inside the lock *)
  match type of Hacct with
  | _ ?sa = (Ok _, ?sb) =>
      assert (∃ di',
        (trace (cuda sb) = trace (cuda sa)
         ∨ ∃ added, trace (cuda sb) = added ++ trace (cuda sa) ∧ queries added = true)
        ∧ (trace (cuda sb) = trace (cuda sa) →
           initialized_ (mgr_ sb) = true
           ∧ dev_info_ (mgr_ sb) !! Z.to_nat device = Some di'
           ∧ total_ di' = total_ di
           ∧ free_ di' = free_ di - carved_bytes device
                                      (Called (cub_DeviceAllocate device size
                                                 (out1 (answers (cuda s) (S (clock (cuda s))))))
                                              r)
           ∧ 0 ≤ free_ di' < 2 ^ 64)) as (di' & Htrace & Hstate)
  end.
  { unfold carved_bytes. rewrite Z.eqb_refl, andb_true_r.
    destruct (succeeded r) eqn:Hok; cbn [andb] in Hacct.
    2:{ finish Hacct. exists di. split; [by left|]. intros _. tidy.
        repeat split; try done; lia. }
    destruct (Z.ltb_spec INVALID_DEVICE device); [|unfold INVALID_DEVICE in *; lia].
    cbn [when] in Hacct. fold carved.
    destruct (Z.eq_dec carved 0) as [Hz|Hnz].
    { unfold account_allocation in Hacct. rewrite Hz in *. cbn [Z.ltb Z.compare when] in Hacct.
      finish Hacct. exists di. split; [by left|]. intros _. tidy.
      repeat split; try done; lia. }
    apply account_allocation_Ok_inv in Hacct
      as (di0 & thr & Hdi0 & Hthr & Hlow & Hbig & Hfit); [|lia].
    tidy. assert (di0 = di) as -> by congruence.
    destruct (Z.lt_ge_cases (free_ di) thr) as [Hlt|Hge].
    { destruct (Hlow Hlt) as [Hq _]. exists di. split; [by right|].
      intros Heq. destruct Hq as (added & Hadd & Hq). rewrite Hadd in Heq.
      apply (f_equal length) in Heq. rewrite length_app in Heq.
      destruct added; [discriminate|]. cbn in Heq. lia. }
    destruct (Z.lt_ge_cases (free_ di) carved) as [Hlt|Hge'].
    { destruct (Hbig Hge Hlt) as [Hq _]. exists di. split; [by right|].
      intros Heq. destruct Hq as (added & Hadd & Hq). rewrite Hadd in Heq.
      apply (f_equal length) in Heq. rewrite length_app in Heq.
      destruct added; [discriminate|]. cbn in Heq. lia. }
    rewrite (Hfit Hge Hge'). tidy.
    exists (with_free (sub64 (free_ di) carved) di). split; [by left|]. intros _.
    pose proof (lookup_lt_Some _ _ _ Hdi).
    pose proof (sub64_le (free_ di) carved Hge').
    assert (sub64 (free_ di) carved = free_ di - carved) as Hsub.
    { unfold sub64, size_t. apply Z.mod_small. lia. }
    repeat split; try done.
    - by apply list_lookup_insert_eq.
    - cbn. lia.
    - cbn. lia. }
  tidy.
  assert (∃ late, trace (cuda s1)
            = late ++ Called cudaGetLastError (answers (cuda s0) (clock (cuda s0)))
                   :: Release shared :: trace (cuda s0)) as (late & Hlate).
  { eapply trace_grows in Herr as (late & Hlate); [eauto|].
    apply emits_when, refresh_after_error_shared. }
  destruct Htrace as [Hsame|(added & Hadd & Hq)].
  2:{ exfalso.
      assert (∃ pre post, trace (cuda s1) = pre ++ added ++ post ++ trace (cuda s))
        as (pre & post & Heq).
      { rewrite Hlate, Hadd. eexists (late ++ [_; _]), [_; _; _; _].
        rewrite <- ?app_assoc. reflexivity. }
      rewrite (queries_in_new_events _ _ _ _ _ Heq Hq) in Hnq. discriminate. }
  destruct (Hstate Hsame) as (Hinit' & Hdi' & Htot & Hfr & Hbound).
  assert (s1 = set_cuda (record_call cudaGetLastError)
                 (set_cuda (record_event (Release shared)) s0)) as ->.
  { destruct (negb (succeeded r) || _); cbn [when] in Herr; [|by finish Herr].
    apply refresh_after_error_no_query in Herr as [->|(more & Hmore & Hq)];
      [done| |done|by tidy; eauto].
    exfalso. tidy.
    assert (∃ post, trace (cuda s1) = [] ++ more ++ post ++ trace (cuda s))
      as (post & Heq).
    { rewrite Hmore, Hsame. eexists [_; _; _; _; _; _]. reflexivity. }
    rewrite (queries_in_new_events _ _ _ _ _ Heq Hq) in Hnq. discriminate. }
  tidy. rewrite Hsame.
  eexists [_; _; _; _; _; _], di'. split; [reflexivity|].
  split; [done|]. split; [done|]. split; [done|]. split; [reflexivity|].
  cbn [total_of foldr]. cbn [carved_bytes] in *. subst carved r.
  destruct (succeeded _ && (device =? device)); lia.
Qed.

(** One call on the device without a refresh: the free estimate moves by
    what cub reported, in [size_t] arithmetic, and never below zero. *)
Lemma exec_no_refresh device o s s' di :
  on_device device o →
  initialized_ (mgr_ s) = true →
  0 ≤ device →
  dev_info_ (mgr_ s) !! Z.to_nat device = Some di →
  0 ≤ free_ di < 2 ^ 64 →
  exec o s = (Ok tt, s') →
  queries (new_events s s') = false →
  ∃ added di',
    trace (cuda s') = added ++ trace (cuda s)
    ∧ initialized_ (mgr_ s') = true
    ∧ dev_info_ (mgr_ s') !! Z.to_nat device = Some di'
    ∧ total_ di' = total_ di
    ∧ free_ di' = size_t (free_ di - total_of (carved_bytes device) added
                                    + total_of (freed_bytes device) added)
    ∧ free_ di' ≤ free_ di - total_of (carved_bytes device) added
                            + total_of (freed_bytes device) added
    ∧ 0 ≤ free_ di' < 2 ^ 64.
Proof.
  intros Hon Hinit Hd Hdi Hfree Hrun Hnq.
  destruct o as [| |size d group|ptr d| | |]; cbn [on_device] in Hon; try done; subst d;
    cbn [exec] in Hrun.
  - first_action Hrun H. finish Hrun.
    destruct (try_allocate_no_refresh _ _ _ _ _ _ _ Hinit Hd Hdi Hfree H Hnq)
      as (added & di' & Htr & Hi & Hdi' & Htot & HF & HA & Hfr & Hb).
    exists added, di'. rewrite HF, Z.add_0_r.
    repeat split; try done; try lia.
    unfold size_t. rewrite Z.mod_small; lia.
  - apply deallocate_Ok_inv in Hrun as [(Hm & Htr)|(Hst & Htr & Hzero & Hpos)].
    + assert (∃ added, trace (cuda s') = added ++ trace (cuda s)
                       ∧ total_of (carved_bytes device) added = 0
                       ∧ total_of (freed_bytes device) added = 0)
        as (added & Hadd & HA & HF).
      { destruct Htr as [->| ->]; [by exists []|by eexists [_]]. }
      exists added, di. rewrite Hm, HA, HF, Z.sub_0_r, Z.add_0_r.
      repeat split; try done; try lia.
      unfold size_t. rewrite Z.mod_small; lia.
    + cbn zeta in *.
      set (r := answers (cuda s) (S (clock (cuda s)))) in *.
      pose proof (size_t_range (out1 r)) as Hrange.
      assert (total_of (freed_bytes device)
                [Release shared; Called (cub_DeviceFree device ptr) r; Acquire shared;
                 Called cudaGetDevice (answers (cuda s) (clock (cuda s)))]
              = size_t (out1 r)) as HF.
      { cbn. unfold succeeded. rewrite bool_decide_eq_true_2 by done.
        rewrite Z.eqb_refl. cbn. lia. }
      eexists [_; _; _; _]. 
      destruct (Z.eq_dec (size_t (out1 r)) 0) as [Hz|Hnz].
      * exists di. rewrite (Hzero Hz). split; [exact Htr|].
        rewrite HF, Hz. cbn [total_of foldr carved_bytes].
        repeat split; try done; try lia.
        unfold size_t. rewrite Z.mod_small; lia.
      * destruct Hpos as (di0 & Hdi0 & ->); [lia|].
        assert (di0 = di) as -> by congruence.
        exists (with_free (add64 (free_ di) (size_t (out1 r))) di).
        split; [exact Htr|]. rewrite HF. cbn [total_of foldr carved_bytes].
        pose proof (lookup_lt_Some _ _ _ Hdi).
        pose proof (add64_le (free_ di) (size_t (out1 r)) ltac:(lia)).
        pose proof (size_t_range (free_ di + size_t (out1 r))).
        cbn [initialized_ with_dev_info dev_info_ free_ total_ with_free].
        repeat split; try done; try lia.
        all: first [by apply list_lookup_insert_eq | unfold add64; f_equal; lia
                   | unfold add64; lia].
Qed.

Lemma run_no_refresh device ops : ∀ s s' di,
  Forall (on_device device) ops →
  initialized_ (mgr_ s) = true →
  0 ≤ device →
  dev_info_ (mgr_ s) !! Z.to_nat device = Some di →
  0 ≤ free_ di < 2 ^ 64 →
  run ops s = (Ok tt, s') →
  queries (new_events s s') = false →
  ∃ added di',
    trace (cuda s') = added ++ trace (cuda s)
    ∧ dev_info_ (mgr_ s') !! Z.to_nat device = Some di'
    ∧ total_ di' = total_ di
    ∧ free_ di' = size_t (free_ di - total_of (carved_bytes device) added
                                    + total_of (freed_bytes device) added)
    ∧ free_ di' ≤ free_ di - total_of (carved_bytes device) added
                            + total_of (freed_bytes device) added
    ∧ 0 ≤ free_ di' < 2 ^ 64.
Proof.
  induction ops as [|o ops IH]; intros s s' di Hon Hinit Hd Hdi Hfree Hrun Hnq.
  - cbn [run] in Hrun. finish Hrun. exists [], di. cbn [total_of foldr].
    rewrite Z.sub_0_r, Z.add_0_r. repeat split; try done; try lia.
    unfold size_t. rewrite Z.mod_small; lia.
  - apply Forall_cons in Hon as [Ho Hon]. cbn [run] in Hrun.
    first_action Hrun Hexec. destruct a.
    destruct (trace_grows _ _ _ _ _ (exec_shared o) Hexec) as (l1 & Hl1).
    destruct (trace_grows _ _ _ _ _ (run_shared ops) Hrun) as (l2 & Hl2).
    rewrite (new_events_app _ _ (l2 ++ l1)) in Hnq
      by (rewrite Hl2, Hl1; apply app_assoc).
    rewrite queries_app in Hnq. apply orb_false_iff in Hnq as [Hq2 Hq1].
    rewrite <- (new_events_app _ _ _ Hl1) in Hq1.
    rewrite <- (new_events_app _ _ _ Hl2) in Hq2.
    destruct (exec_no_refresh _ _ _ _ _ Ho Hinit Hd Hdi Hfree Hexec Hq1)
      as (a1 & di1 & Ha1 & Hinit1 & Hdi1 & Htot1 & Hfr1 & Hle1 & Hb1).
    destruct (IH _ _ _ Hon Hinit1 Hd Hdi1 Hb1 Hrun Hq2)
      as (a2 & di2 & Ha2 & Hdi2 & Htot2 & Hfr2 & Hle2 & Hb2).
    exists (a2 ++ a1), di2. rewrite !total_of_app.
    split; [rewrite Ha2, Ha1; apply app_assoc|].
    split; [done|]. split; [congruence|].
    split; [|split; [lia|done]].
    rewrite Hfr2, Hfr1. unfold size_t.
    rewrite <- Zplus_mod_idemp_l, <- Zminus_mod_idemp_l, Z.mod_mod by lia.
    rewrite Zminus_mod_idemp_l, Zplus_mod_idemp_l. f_equal. lia.
Qed.

(** A run of [thread_pinned_buffer] that allocates does so before any
    acquisition it makes. *)
Lemma thread_pinned_buffer_lock size group s p s' :
  thread_pinned_buffer size group s = (Ok p, s') →
  trace (cuda s') = trace (cuda s)
  ∨ ∃ later ha da,
      trace (cuda s')
      = later ++ Called (cudaHostGetDevicePointer (size_t (out1 ha))) da
              :: Called (cudaHostAlloc size) ha :: trace (cuda s).
Proof.
  unfold thread_pinned_buffer. intros H. run H.
  first_action H Hsz.
  assert (cuda s0 = cuda s) as Hc.
  { destruct (vector_size _ <? _); cbn [when] in Hsz.
    - first_action Hsz Hr. unfold vector_resize in Hr.
      destruct (vector_max_size <? _); [discriminate|]. finish Hr. by finish Hsz.
    - by finish Hsz. }
  clear Hsz. run H.
  first_action H Hgrow. run H.
  assert (trace (cuda s1) = trace (cuda s')) as <-.
  { destruct (device_buffers _ !! _); [|discriminate].
    apply ret_Ok_inv in H as [_ ->]. reflexivity. }
  clear H.
  match type of Hgrow with when ?b _ _ = _ => destruct b end;
    cbn [when] in Hgrow; [|left; finish Hgrow; by rewrite Hc].
  right. run Hgrow.
  eapply (trace_grows _ shared_only) in Hgrow as (later & Hlater).
  - tidy. rewrite Hc in Hlater. eauto.
  - unfold emplace, unique_ptr_delete, device_buffer_cleaner. emits_shared.
Qed.


(** ** The lock and the pinned pools *)

(** C4 as the code has it.  Every acquisition of [read_write_mutex()]
    that the two pinned pools, the cleaner of the thread-local pool,
    [try_allocate] and [deallocate] make is a shared one; a run of
    [pinned_buffer] that allocates a host buffer does it between such a
    shared acquisition and its release; a run of [thread_pinned_buffer]
    that allocates a host buffer does it before any acquisition it makes;
    and the mutex lets a shared acquisition in whenever no writer holds
    it, whatever the number of readers.  So the lock does not keep a
    pinned-buffer resize and an allocate or free call apart. *)
Theorem pinned_pools_take_lock_shared :
  (∀ size device group, emits shared_only (pinned_buffer size device group))
  ∧ (∀ size group, emits shared_only (thread_pinned_buffer size group))
  ∧ (∀ buffer, emits shared_only (host_buffer_cleaner buffer))
  ∧ (∀ size device group, emits shared_only (try_allocate size device group))
  ∧ (∀ ptr device, emits shared_only (deallocate ptr device))
  ∧ (∀ size device group s p s',
       pinned_buffer size device group s = (Ok p, s') →
       trace (cuda s') = trace (cuda s)
       ∨ ∃ mid a,
           trace (cuda s') = Release shared :: mid ++ Acquire shared :: trace (cuda s)
           ∧ Called (cudaHostAlloc (Z.max size INITIAL_PINNED_BYTES)) a ∈ mid)
  ∧ (∀ size group s p s',
       thread_pinned_buffer size group s = (Ok p, s') →
       trace (cuda s') = trace (cuda s)
       ∨ ∃ later ha da,
           trace (cuda s')
           = later ++ Called (cudaHostGetDevicePointer (size_t (out1 ha))) da
                   :: Called (cudaHostAlloc size) ha :: trace (cuda s))
  ∧ (∀ l, writer l = false → lets_in l shared = true).
Proof.
  split; [exact pinned_buffer_shared|].
  split; [exact thread_pinned_buffer_shared|].
  split; [exact host_buffer_cleaner_shared|].
  split; [exact try_allocate_shared|].
  split; [exact deallocate_shared|].
  split; [exact pinned_buffer_lock|].
  split; [exact thread_pinned_buffer_lock|].
  intros l Hl. unfold lets_in. by rewrite Hl.
Qed.

Lemma pinned_pools_take_lock_shared_witness :
  let s1 := (pinned_buffer 1024 0 0 (start 1 resize_oracle)).2 in
  let s2 := (pinned_buffer 4096 0 0 s1).2 in
  pinned_buffer 4096 0 0 s1 = (Ok 16384, s2)
  ∧ (trace (cuda s2) = trace (cuda s1)
     ∨ ∃ mid a,
         trace (cuda s2) = Release shared :: mid ++ Acquire shared :: trace (cuda s1)
         ∧ Called (cudaHostAlloc (Z.max 4096 INITIAL_PINNED_BYTES)) a ∈ mid)
  ∧ lets_in (mkMutex 1 false) shared = true.
Proof.
  intros s1 s2.
  destruct pinned_pools_take_lock_shared as (_ & _ & _ & _ & _ & Hlock & _ & Hlets).
  assert (Hr : pinned_buffer 4096 0 0 s1 = (Ok 16384, s2)) by (vm_compute; reflexivity).
  split; [exact Hr|]. split.
  - exact (Hlock 4096 0 0 s1 16384 s2 Hr).
  - apply Hlets. reflexivity.
Defined.

(** C4 as the spec words it fails: this resize of the process-wide pool
    (the 4096 bytes asked for exceed the 1024 held) takes the lock once, in
    shared mode, and a mutex that a reader holds lets that acquisition
    in. *)
Lemma pinned_buffer_resize_counterexample :
  let s1 := (pinned_buffer 1024 0 0 (start 1 resize_oracle)).2 in
  let r := pinned_buffer 4096 0 0 s1 in
  r.1 = Ok 16384
  ∧ pinned_buffer_sizes_ (mgr_ s1) = [[1024]]
  ∧ pinned_buffer_sizes_ (mgr_ r.2) = [[4096]]
  ∧ acquisitions (take 5 (trace (cuda r.2))) = [shared]
  ∧ (exclusive ∉ acquisitions (trace (cuda r.2)))
  ∧ lets_in (mkMutex 1 false) shared = true.
Proof.
  vm_compute. repeat split; try reflexivity.
  intros H. repeat (apply elem_of_cons in H as [H|H]; [discriminate|]).
  by apply elem_of_nil in H.
Qed.
(** * Further properties of the code *)

(** ** The active device *)

#[local] Instance same_device_refl : Reflexive same_device.
Proof. intros s. reflexivity. Qed.
#[local] Instance same_device_trans : Transitive same_device.
Proof. intros s1 s2 s3 H1 H2. unfold same_device in *. congruence. Qed.

Create HintDb frame_db.

(** The rules of [keeps], with the lemmas of [frame_db] for the functions
    that have one. *)
Ltac keeps_frame :=
  repeat first
    [ solve [auto with frame_db]
    | solve [reflexivity | repeat split; reflexivity]
    | keeps_step ].

Lemma update_dev_info_device device : keeps same_device (update_dev_info device).
Proof.
  intros s u s' (old & _ & _ & ->)%update_dev_info_Ok. reflexivity.
Qed.
#[local] Hint Resolve update_dev_info_device : frame_db.

Lemma store_dev_info_device device f : keeps same_device (store_dev_info device f).
Proof. unfold store_dev_info, dev_info_at. keeps_frame. Qed.
Lemma store_update_threshold_device device t :
  keeps same_device (store_update_threshold device t).
Proof. unfold store_update_threshold, update_threshold_at. keeps_frame. Qed.
#[local] Hint Resolve store_dev_info_device store_update_threshold_device : frame_db.

Lemma init_devices_device gpus : keeps same_device (init_devices gpus).
Proof.
  induction gpus as [|g rest IH]; cbn [init_devices]; unfold dev_info_at; keeps_frame.
Qed.
Lemma report_devices_device gpus : keeps same_device (report_devices gpus).
Proof.
  induction gpus as [|g rest IH]; cbn [report_devices]; unfold report_dev_info, dev_info_at;
    keeps_frame.
Qed.
#[local] Hint Resolve init_devices_device report_devices_device : frame_db.

Lemma init_device gpus debug : keeps same_device (init gpus debug).
Proof. unfold init, reset_cub_allocator. keeps_frame. Qed.
#[local] Hint Resolve init_device : frame_db.

Lemma reset_device : keeps same_device reset.
Proof. unfold reset, reset_cub_allocator. keeps_frame. Qed.

Lemma lazy_init_device device : keeps same_device (lazy_init device).
Proof. unfold lazy_init, Scope_new. keeps_frame. Qed.
#[local] Hint Resolve lazy_init_device : frame_db.

Lemma refresh_all_device n i cur_device : keeps same_device (refresh_all n i cur_device).
Proof.
  revert i. induction n as [|n IH]; intros i; cbn [refresh_all]; unfold dev_info_at;
    keeps_frame.
Qed.
#[local] Hint Resolve refresh_all_device : frame_db.

Lemma refresh_after_error_device device : keeps same_device (refresh_after_error device).
Proof. unfold refresh_after_error, dev_info_at. keeps_frame. Qed.
Lemma account_allocation_device device carved :
  keeps same_device (account_allocation device carved).
Proof. unfold account_allocation, dev_info_at, update_threshold_at. keeps_frame. Qed.
#[local] Hint Resolve refresh_after_error_device account_allocation_device : frame_db.

Lemma try_allocate_device size device group :
  keeps same_device (try_allocate size device group).
Proof. unfold try_allocate, current_device. keeps_frame. Qed.

Lemma deallocate_device ptr device : keeps same_device (deallocate ptr device).
Proof. unfold deallocate. keeps_frame. Qed.

Lemma GetInfo_device with_update : keeps same_device (GetInfo with_update).
Proof. unfold GetInfo, dev_info_at. keeps_frame. Qed.

(** ** What the device-memory operations leave alone *)

#[local] Instance same_pools_refl : Reflexive same_pools.
Proof. intros s. by repeat split. Qed.
#[local] Instance same_pools_trans : Transitive same_pools.
Proof.
  intros s1 s2 s3 (? & ? & ? & ?) (? & ? & ? & ?). unfold same_pools.
  repeat split; congruence.
Qed.

Lemma update_dev_info_pools device : keeps same_pools (update_dev_info device).
Proof.
  intros s u s' (old & _ & _ & ->)%update_dev_info_Ok. by repeat split.
Qed.
Lemma store_dev_info_pools device f : keeps same_pools (store_dev_info device f).
Proof. unfold store_dev_info, dev_info_at. keeps_frame. Qed.
Lemma store_update_threshold_pools device t :
  keeps same_pools (store_update_threshold device t).
Proof. unfold store_update_threshold, update_threshold_at. keeps_frame. Qed.
#[local] Hint Resolve update_dev_info_pools store_dev_info_pools
  store_update_threshold_pools : frame_db.

Lemma init_devices_pools gpus : keeps same_pools (init_devices gpus).
Proof.
  induction gpus as [|g rest IH]; cbn [init_devices]; unfold dev_info_at; keeps_frame.
Qed.
Lemma report_devices_pools gpus : keeps same_pools (report_devices gpus).
Proof.
  induction gpus as [|g rest IH]; cbn [report_devices]; unfold report_dev_info, dev_info_at;
    keeps_frame.
Qed.
#[local] Hint Resolve init_devices_pools report_devices_pools : frame_db.

Lemma init_pools gpus debug : keeps same_pools (init gpus debug).
Proof. unfold init, reset_cub_allocator. keeps_frame. Qed.
#[local] Hint Resolve init_pools : frame_db.

Lemma reset_pools : keeps same_pools reset.
Proof. unfold reset, reset_cub_allocator. keeps_frame. Qed.

Lemma lazy_init_pools device : keeps same_pools (lazy_init device).
Proof. unfold lazy_init, Scope_new. keeps_frame. Qed.
#[local] Hint Resolve lazy_init_pools : frame_db.

Lemma refresh_all_pools n i cur_device : keeps same_pools (refresh_all n i cur_device).
Proof.
  revert i. induction n as [|n IH]; intros i; cbn [refresh_all]; unfold dev_info_at;
    keeps_frame.
Qed.
#[local] Hint Resolve refresh_all_pools : frame_db.

Lemma refresh_after_error_pools device : keeps same_pools (refresh_after_error device).
Proof. unfold refresh_after_error, dev_info_at. keeps_frame. Qed.
Lemma account_allocation_pools device carved :
  keeps same_pools (account_allocation device carved).
Proof. unfold account_allocation, dev_info_at, update_threshold_at. keeps_frame. Qed.
#[local] Hint Resolve refresh_after_error_pools account_allocation_pools : frame_db.

Lemma try_allocate_pools size device group :
  keeps same_pools (try_allocate size device group).
Proof. unfold try_allocate, current_device. keeps_frame. Qed.

Lemma deallocate_pools ptr device : keeps same_pools (deallocate ptr device).
Proof. unfold deallocate. keeps_frame. Qed.

Lemma GetInfo_pools with_update : keeps same_pools (GetInfo with_update).
Proof. unfold GetInfo, dev_info_at. keeps_frame. Qed.

Lemma set_device_pools device : keeps same_pools (set_device device).
Proof. unfold set_device. keeps_frame. Qed.

#[local] Hint Resolve try_allocate_pools deallocate_pools GetInfo_pools reset_pools
  set_device_pools : frame_db.

Lemma exec_pools o : keeps same_pools (exec o).
Proof. destruct o; cbn [exec]; keeps_frame. Qed.
#[local] Hint Resolve exec_pools : frame_db.

Lemma run_pools ops : keeps same_pools (run ops).
Proof. induction ops as [|o rest IH]; cbn [run]; keeps_frame. Qed.

(** No call of a run is one to the page-locked host memory. *)
Ltac emits_frame := emits_rules; first [reflexivity | solve [auto with frame_db] | idtac].

Lemma init_devices_no_pinned gpus : emits no_pinned_call (init_devices gpus).
Proof. induction gpus as [|g rest IH]; cbn [init_devices]; emits_frame. Qed.
Lemma report_devices_no_pinned gpus : emits no_pinned_call (report_devices gpus).
Proof. induction gpus as [|g rest IH]; cbn [report_devices]; emits_frame. Qed.
Lemma refresh_all_no_pinned n i cur_device :
  emits no_pinned_call (refresh_all n i cur_device).
Proof. revert i. induction n as [|n IH]; intros i; cbn [refresh_all]; emits_frame. Qed.
#[local] Hint Resolve init_devices_no_pinned report_devices_no_pinned
  refresh_all_no_pinned : frame_db.

Lemma exec_no_pinned o : emits no_pinned_call (exec o).
Proof. destruct o; cbn [exec]; emits_frame. Qed.
#[local] Hint Resolve exec_no_pinned : frame_db.

Lemma run_no_pinned ops : emits no_pinned_call (run ops).
Proof. induction ops as [|o rest IH]; cbn [run]; emits_frame. Qed.

Lemma pinned_heap_no_pinned added tr :
  Forall no_pinned_call added → pinned_heap (added ++ tr) = pinned_heap tr.
Proof.
  induction 1 as [|e added He _ IH]; [done|].
  cbn [app pinned_heap]. rewrite IH.
  destruct e as [[] ?| |]; try done; discriminate He.
Qed.

(** ** What the pinned pools leave alone *)

#[local] Instance same_accounts_refl : Reflexive same_accounts.
Proof. intros s. by repeat split. Qed.
#[local] Instance same_accounts_trans : Transitive same_accounts.
Proof.
  intros s1 s2 s3 (? & ? & ? & ? & ? & ?) (? & ? & ? & ? & ? & ?). unfold same_accounts.
  repeat split; congruence.
Qed.
#[local] Instance same_manager_refl : Reflexive same_manager.
Proof. intros s. reflexivity. Qed.
#[local] Instance same_manager_trans : Transitive same_manager.
Proof. intros s1 s2 s3 H1 H2. unfold same_manager in *. congruence. Qed.
#[local] Instance same_thread_local_refl : Reflexive same_thread_local.
Proof. intros s. reflexivity. Qed.
#[local] Instance same_thread_local_trans : Transitive same_thread_local.
Proof. intros s1 s2 s3 H1 H2. unfold same_thread_local in *. congruence. Qed.

Lemma resize_buffers_accounts device group : keeps same_accounts (resize_buffers device group).
Proof. unfold resize_buffers, resize_row. keeps_frame. Qed.
Lemma resize_buffers_device device group : keeps same_device (resize_buffers device group).
Proof. unfold resize_buffers, resize_row. keeps_frame. Qed.
Lemma resize_buffers_thread_local device group :
  keeps same_thread_local (resize_buffers device group).
Proof. unfold resize_buffers, resize_row. keeps_frame. Qed.
#[local] Hint Resolve resize_buffers_accounts resize_buffers_device
  resize_buffers_thread_local : frame_db.

Lemma pinned_buffer_accounts size device group :
  keeps same_accounts (pinned_buffer size device group).
Proof. unfold pinned_buffer, at2, store2. keeps_frame. Qed.
Lemma pinned_buffer_device size device group :
  keeps same_device (pinned_buffer size device group).
Proof. unfold pinned_buffer, at2, store2. keeps_frame. Qed.
Lemma pinned_buffer_thread_local size device group :
  keeps same_thread_local (pinned_buffer size device group).
Proof. unfold pinned_buffer, at2, store2. keeps_frame. Qed.

Lemma thread_pinned_buffer_manager size group :
  keeps same_manager (thread_pinned_buffer size group).
Proof.
  unfold thread_pinned_buffer, emplace, unique_ptr_delete, host_buffer_cleaner,
    device_buffer_cleaner.
  keeps_frame.
Qed.
Lemma thread_pinned_buffer_device size group :
  keeps same_device (thread_pinned_buffer size group).
Proof.
  unfold thread_pinned_buffer, emplace, unique_ptr_delete, host_buffer_cleaner,
    device_buffer_cleaner.
  keeps_frame.
Qed.

Ltac emits_pool := emits_rules; first [exact I | reflexivity | solve [auto with frame_db] | idtac].

Lemma pinned_buffer_pool_events size device group :
  emits pool_event (pinned_buffer size device group).
Proof. unfold pinned_buffer, resize_buffers, resize_row, at2, store2. emits_pool. Qed.

Lemma thread_pinned_buffer_pool_events size group :
  emits pool_event (thread_pinned_buffer size group).
Proof.
  unfold thread_pinned_buffer, emplace, unique_ptr_delete, host_buffer_cleaner,
    device_buffer_cleaner.
  emits_pool.
Qed.

Lemma emits_new_events {A} (m : M A) P s r s' :
  emits P m → m s = (r, s') → Forall P (new_events s s').
Proof.
  intros Hm Hrun. destruct (Hm _ _ _ Hrun) as (added & Htr & Hall).
  by rewrite (new_events_app _ _ _ Htr).
Qed.

Lemma emits_pinned_heap {A} (m : M A) s r s' :
  emits no_pinned_call m → m s = (r, s') →
  pinned_heap (trace (cuda s')) = pinned_heap (trace (cuda s)).
Proof.
  intros Hm Hrun. destruct (Hm _ _ _ Hrun) as (added & -> & Hall).
  by apply pinned_heap_no_pinned.
Qed.

(** X1. A sequence of [init], [reset], [try_allocate], [deallocate],
    [GetInfo], [update_dev_info] and changes of the active device makes,
    however it ends, no call that allocates, maps or frees page-locked host
    memory, so the page-locked memory that is allocated is as before; and
    when it returns, the three tables of the process-wide pinned pool and
    the thread's own pool are as before. *)
Theorem manager_calls_leave_pinned_pools ops s r s' :
  run ops s = (r, s') →
  Forall no_pinned_call (new_events s s')
  ∧ pinned_heap (trace (cuda s')) = pinned_heap (trace (cuda s))
  ∧ (r = Ok tt → same_pools s s').
Proof.
  intros Hrun. split; [|split].
  - exact (emits_new_events _ _ _ _ _ (run_no_pinned ops) Hrun).
  - exact (emits_pinned_heap _ _ _ _ (run_no_pinned ops) Hrun).
  - intros ->. exact (run_pools ops _ _ _ Hrun).
Qed.

Lemma manager_calls_leave_pinned_pools_witness :
  let s := (pinned_buffer 1024 0 0 (start 1 resize_oracle)).2 in
  let s := set_cuda (λ d, mkDriver (credit_oracle 100) 0 (trace d) (active_device d)) s in
  let r := run credit_session s in
  r.1 = Ok tt
  ∧ pinned_host_buffers_ (mgr_ r.2) = [[4096]]
  ∧ pinned_heap (trace (cuda r.2)) = pinned_heap (trace (cuda s)).
Proof.
  intros s0 s r.
  assert (Hrun : run credit_session s = (Ok tt, r.2)) by (vm_compute; reflexivity).
  destruct (manager_calls_leave_pinned_pools credit_session s (Ok tt) r.2 Hrun)
    as (_ & Hheap & Hpools).
  destruct (Hpools eq_refl) as (Hhost & _).
  split; [vm_compute; reflexivity|]. split; [|exact Hheap].
  rewrite Hhost. vm_compute. reflexivity.
Defined.

(** X2. The two pinned pools make no call but [cudaHostAlloc],
    [cudaHostGetDevicePointer] and [cudaFreeHost], however they end:
    neither the cache nor a query of device memory.  When
    [pinned_buffer] returns, what the manager knows of device memory
    (DeviceInfo, thresholds, cache handle, flags), the thread's own pool
    and the active device are as before; when [thread_pinned_buffer]
    returns, the whole manager and the active device are as before. *)
Theorem pinned_pools_leave_accounts :
  (∀ size device group s r s',
     pinned_buffer size device group s = (r, s') →
     Forall pool_event (new_events s s')
     ∧ (∀ p, r = Ok p → same_accounts s s' ∧ same_thread_local s s' ∧ same_device s s'))
  ∧ (∀ size group s r s',
       thread_pinned_buffer size group s = (r, s') →
       Forall pool_event (new_events s s')
       ∧ (∀ p, r = Ok p → same_manager s s' ∧ same_device s s')).
Proof.
  split.
  - intros size device group s r s' Hrun. split.
    + exact (emits_new_events _ _ _ _ _ (pinned_buffer_pool_events _ _ _) Hrun).
    + intros p ->. split; [|split].
      * exact (pinned_buffer_accounts _ _ _ _ _ _ Hrun).
      * exact (pinned_buffer_thread_local _ _ _ _ _ _ Hrun).
      * exact (pinned_buffer_device _ _ _ _ _ _ Hrun).
  - intros size group s r s' Hrun. split.
    + exact (emits_new_events _ _ _ _ _ (thread_pinned_buffer_pool_events _ _) Hrun).
    + intros p ->. split.
      * exact (thread_pinned_buffer_manager _ _ _ _ _ Hrun).
      * exact (thread_pinned_buffer_device _ _ _ _ _ Hrun).
Qed.

Lemma pinned_pools_leave_accounts_witness :
  let s := set_cuda (λ d, mkDriver resize_oracle 0 (trace d) (active_device d)) after_init in
  let r := pinned_buffer 1024 0 0 s in
  r.1 = Ok 8192
  ∧ dev_info_ (mgr_ r.2) = [mkDevInfo 1000 1000 0]
  ∧ update_thresholds_ (mgr_ r.2) = [1000].
Proof.
  intros s r.
  assert (Hrun : pinned_buffer 1024 0 0 s = (Ok 8192, r.2)) by (vm_compute; reflexivity).
  destruct pinned_pools_leave_accounts as [Hpool _].
  destruct (Hpool 1024 0 0 s (Ok 8192) r.2 Hrun) as [_ Hkept].
  destruct (Hkept 8192 eq_refl) as [(_ & _ & _ & Hdev & Hthr & _) _].
  split; [vm_compute; reflexivity|].
  rewrite Hdev, Hthr. split; vm_compute; reflexivity.
Defined.

Lemma try_allocate_active_device size device group s r s' :
  try_allocate size device group s = (Ok r, s') →
  device = active_device (cuda s) ∧ active_device (cuda s') = device.
Proof.
  intros Hrun.
  pose proof (try_allocate_device _ _ _ _ _ _ Hrun) as Hsame. red in Hsame.
  unfold try_allocate in Hrun.
  first_action Hrun Hm. finish Hm.
  first_action Hrun Hlazy.
  assert (active_device (cuda s0) = active_device (cuda s)) as Hdev.
  { destruct (initialized_ (mgr_ s)); cbn [negb when] in Hlazy.
    - by finish Hlazy.
    - exact (lazy_init_device _ _ _ _ Hlazy). }
  step Hrun. step Hrun. apply Z.eqb_eq in H0. split; congruence.
Qed.

(** X3. [try_allocate] returns only if the device it is given is the
    calling thread's active device; and when [update_dev_info], which
    switches to the device it refreshes, [init], [reset], [try_allocate],
    [deallocate], [GetInfo] and the two pinned pools return, the active
    device is the one it was. *)
Theorem calls_keep_active_device :
  (∀ size device group s r s',
     try_allocate size device group s = (Ok r, s') →
     device = active_device (cuda s) ∧ active_device (cuda s') = device)
  ∧ (∀ device, keeps same_device (update_dev_info device))
  ∧ (∀ gpus debug, keeps same_device (init gpus debug))
  ∧ keeps same_device reset
  ∧ (∀ ptr device, keeps same_device (deallocate ptr device))
  ∧ (∀ with_update, keeps same_device (GetInfo with_update))
  ∧ (∀ size device group, keeps same_device (pinned_buffer size device group))
  ∧ (∀ size group, keeps same_device (thread_pinned_buffer size group)).
Proof.
  split; [exact try_allocate_active_device|].
  auto 10 using update_dev_info_device, init_device, reset_device,
    deallocate_device, GetInfo_device, pinned_buffer_device,
    thread_pinned_buffer_device.
Qed.

Lemma calls_keep_active_device_witness :
  let r := try_allocate 100 0 0 after_init in
  r.1 = Ok (true, 4096, 7) ∧ active_device (cuda r.2) = 0.
Proof.
  intros r.
  assert (Hrun : try_allocate 100 0 0 after_init = (Ok (true, 4096, 7), r.2))
    by (vm_compute; reflexivity).
  destruct calls_keep_active_device as [Hcheck _].
  destruct (Hcheck 100 0 0 after_init _ r.2 Hrun) as [_ Hdev].
  split; [vm_compute; reflexivity | exact Hdev].
Defined.

(** ** [update_dev_info], [init] and [reset] *)

Lemma grown_lookup device v i di :
  v !! i = Some di → grown device v !! i = Some di.
Proof.
  intros Hi. unfold grown. destruct (_ <? _) eqn:E; [|done].
  apply Z.ltb_lt in E. unfold vector_size in E.
  rewrite lookup_resize by (apply lookup_lt_Some in Hi; lia). exact Hi.
Qed.

Lemma grown_length device v :
  0 ≤ device < 2 ^ 31 →
  length (grown device v) = (length v `max` S (Z.to_nat device))%nat.
Proof.
  intros Hd. unfold grown, vector_size, size_t.
  rewrite Z.mod_small by lia.
  destruct (Z.ltb_spec (Z.of_nat (length v)) (device + 1)).
  - rewrite length_resize. lia.
  - lia.
Qed.

Lemma grown_new device v i :
  0 ≤ device < 2 ^ 31 →
  (length v ≤ i ≤ Z.to_nat device)%nat → grown device v !! i = Some DevInfo_new.
Proof.
  intros Hd Hi. unfold grown, vector_size, size_t.
  rewrite Z.mod_small by lia.
  destruct (Z.ltb_spec (Z.of_nat (length v)) (device + 1)); [|lia].
  rewrite lookup_resize_new; [done | lia | lia].
Qed.

Lemma update_dev_info_calls_succeed device s u s' :
  update_dev_info device s = (Ok u, s') →
  ∀ k, (k < 6)%nat → status (answers (cuda s) (k + clock (cuda s))%nat) = cudaSuccess.
Proof.
  unfold update_dev_info. intros H.
  run H. first_action H Hg.
  assert (cuda s0 = record_call cudaGetDevice (cuda s)) as Hc.
  { unfold when in Hg. destruct (_ <? _).
    - first_action Hg Hr. unfold vector_resize in Hr. destruct (_ <? _); [discriminate|].
      finish Hr. by finish Hg.
    - by finish Hg. }
  clear Hg. run H.
  first_action H H4. apply store_dev_info_Ok_inv in H4 as (old & Hd & Hold & ->). tidy.
  run H.
  first_action H H5. apply store_dev_info_Ok_inv in H5 as (di1 & _ & Hdi1 & ->). tidy.
  first_action H H5. apply store_dev_info_Ok_inv in H5 as (di2 & _ & Hdi2 & ->). tidy.
  finish H. tidy.
  rewrite Hc in *. tidy.
  intros k Hk.
  destruct k as [|[|[|[|[|[|k]]]]]]; [done..|lia].
Qed.

(** X4. When [update_dev_info] returns, the table has an entry for
    [device]: its total is the smaller of [props.totalGlobalMem] and the
    total [cudaMemGetInfo] gave, its free is the smaller of that total and
    the free [cudaMemGetInfo] gave, its flush count is the one the entry
    had.  The table is as long as it was, or just long enough to hold
    [device], the entries added are [DevInfo()] and every other entry is
    as it was.  The thresholds, the cache handle, the flags and the
    pinned pools are as before, and the calls made are the six of the
    refresh, each of which succeeded. *)
Theorem update_dev_info_refreshes device s u s' :
  update_dev_info device s = (Ok u, s') →
  device < 2 ^ 31 →
  let props := answers (cuda s) (3 + clock (cuda s))%nat in
  let mem := answers (cuda s) (4 + clock (cuda s))%nat in
  let total := Z.min (size_t (out1 props)) (size_t (out2 mem)) in
  0 ≤ device
  ∧ length (dev_info_ (mgr_ s'))
    = (length (dev_info_ (mgr_ s)) `max` S (Z.to_nat device))%nat
  ∧ (∃ di', dev_info_ (mgr_ s') !! Z.to_nat device = Some di'
       ∧ total_ di' = total
       ∧ free_ di' = Z.min total (size_t (out1 mem))
       ∧ flush_count_ di'
         = from_option flush_count_ 0 (dev_info_ (mgr_ s) !! Z.to_nat device))
  ∧ (∀ i di, i ≠ Z.to_nat device →
       dev_info_ (mgr_ s) !! i = Some di → dev_info_ (mgr_ s') !! i = Some di)
  ∧ (∀ i, (length (dev_info_ (mgr_ s)) ≤ i < Z.to_nat device)%nat →
       dev_info_ (mgr_ s') !! i = Some DevInfo_new)
  ∧ same_thresholds s s' ∧ same_pools s s'
  ∧ cub_allocator_ (mgr_ s') = cub_allocator_ (mgr_ s)
  ∧ initialized_ (mgr_ s') = initialized_ (mgr_ s)
  ∧ cuda s' = after_refresh device (cuda s)
  ∧ Forall (λ e, ∃ c a, e = Called c a ∧ status a = cudaSuccess) (new_events s s').
Proof.
  intros Hrun Hint props mem total.
  pose proof Hrun as (old & Hd & Hold & ->)%update_dev_info_Ok. tidy.
  pose proof (lookup_lt_Some _ _ _ Hold) as Hlt.
  split; [done|]. split; [|split; [|split; [|split]]].
  - rewrite length_insert. by apply grown_length.
  - eexists. rewrite list_lookup_insert_eq by done. split; [done|].
    unfold refreshed. cbn. repeat split.
    destruct (dev_info_ (mgr_ s) !! Z.to_nat device) as [di|] eqn:E; cbn.
    + apply (grown_lookup device) in E. congruence.
    + apply lookup_ge_None in E.
      rewrite grown_new in Hold by lia. by injection Hold as <-.
  - intros i di Hi Hdi. rewrite list_lookup_insert_ne by done. by apply grown_lookup.
  - intros i Hi. rewrite list_lookup_insert_ne by lia. apply grown_new; lia.
  - pose proof (update_dev_info_calls_succeed _ _ _ _ Hrun) as Hst.
    repeat split.
    rewrite (new_events_app _ _ [_; _; _; _; _; _]) by reflexivity.
    repeat constructor; do 2 eexists; (split; [reflexivity|]); tidy.
    + apply (Hst 5%nat). lia.
    + apply (Hst 4%nat). lia.
    + apply (Hst 3%nat). lia.
    + apply (Hst 2%nat). lia.
    + apply (Hst 1%nat). lia.
    + apply (Hst 0%nat). lia.
Qed.

Lemma update_dev_info_refreshes_witness :
  let s := set_cuda (λ d, mkDriver (script [ok 0 0; ok 0 0; ok 0 0; ok 800 0; ok 700 900; ok 0 0])
                            0 (trace d) (active_device d)) after_init in
  let r := update_dev_info 2 s in
  r.1 = Ok tt
  ∧ dev_info_ (mgr_ r.2) = [mkDevInfo 1000 1000 0; DevInfo_new; mkDevInfo 700 800 0].
Proof.
  intros s r.
  assert (Hrun : update_dev_info 2 s = (Ok tt, r.2)) by (vm_compute; reflexivity).
  split; [vm_compute; reflexivity|].
  destruct (update_dev_info_refreshes 2 s tt r.2 Hrun) as (_ & Hlen & _); [lia|].
  vm_compute. reflexivity.
Defined.

(** One round of the loop of [init]. *)
Lemma init_round g s u s1 di s2 u2 :
  update_dev_info g s = (Ok u, s1) →
  dev_info_at g s1 = (Ok di, s1) →
  store_update_threshold g (total_ di) s1 = (Ok u2, s2) →
  populated g s2
  ∧ length (update_thresholds_ (mgr_ s2)) = length (update_thresholds_ (mgr_ s))
  ∧ ∀ g', populated g' s → populated g' s2.
Proof.
  intros Hupd Hat Hst.
  pose proof (update_dev_info_thresholds _ _ _ _ Hupd) as Hthr. red in Hthr.
  apply update_dev_info_Ok in Hupd as (old & Hg & Hold & ->).
  apply dev_info_at_Ok_inv in Hat as (_ & Hdi & _). tidy.
  apply store_update_threshold_Ok_inv in Hst as (t & _ & Ht & ->). tidy.
  pose proof (lookup_lt_Some _ _ _ Hold) as Hlt.
  pose proof (lookup_lt_Some _ _ _ Ht) as Hlt'.
  rewrite list_lookup_insert_eq in Hdi by done. injection Hdi as <-.
  split; [|split].
  - split; [done|]. eexists. tidy.
    rewrite !list_lookup_insert_eq by done.
    split; [done|]. split; [done|]. apply refreshed_ok.
  - tidy. by rewrite length_insert.
  - intros g' (Hg' & di' & Hdi' & Hthr' & Hok'). split; [done|]. tidy.
    destruct (decide (Z.to_nat g' = Z.to_nat g)) as [E|E].
    + rewrite E. eexists. rewrite !list_lookup_insert_eq by done.
      split; [done|]. split; [done|]. apply refreshed_ok.
    + exists di'. rewrite !list_lookup_insert_ne by done.
      split; [by apply grown_lookup|]. done.
Qed.

Lemma init_devices_populates gpus : ∀ s u s',
  init_devices gpus s = (Ok u, s') →
  Forall (λ g, populated g s') gpus
  ∧ length (update_thresholds_ (mgr_ s')) = length (update_thresholds_ (mgr_ s))
  ∧ ∀ g, populated g s → populated g s'.
Proof.
  induction gpus as [|g rest IH]; intros s u s' H; cbn [init_devices] in H.
  - finish H. split; [constructor|]. split; [done|]. by intros g Hg.
  - first_action H Hupd. first_action H Hat.
    pose proof Hat as (_ & _ & ->)%dev_info_at_Ok_inv.
    first_action H Hst.
    destruct (init_round _ _ _ _ _ _ _ Hupd Hat Hst) as (Hg & Hlen & Hkeep).
    destruct (IH _ _ _ H) as (Hall & Hlen' & Hkeep').
    split; [|split].
    + constructor; [by apply Hkeep'|done].
    + congruence.
    + intros g' Hg'. by apply Hkeep', Hkeep.
Qed.

Lemma report_devices_manager gpus : keeps same_manager (report_devices gpus).
Proof.
  induction gpus as [|g rest IH]; cbn [report_devices]; unfold report_dev_info, dev_info_at;
    keeps_frame.
Qed.

Lemma reset_cub_allocator_when b p u s s' :
  when b (reset_cub_allocator p) s = (Ok u, s') →
  mgr_ s' = (if b then with_cub_allocator p (mgr_ s) else mgr_ s).
Proof.
  destruct b; cbn [when]; intros H; [|by finish H].
  unfold reset_cub_allocator in H. run H.
  first_action H Hw. unfold when in Hw.
  destruct (bool_decide _); [run Hw|]; finish Hw; by finish H.
Qed.

(** What [init] does on a manager that is not initialized, when it
    returns. *)
Lemma init_Ok_inv gpus debug s u s' :
  initialized_ (mgr_ s) = false →
  init gpus debug s = (Ok u, s') →
  let env := answers (cuda s) (clock (cuda s)) in
  let built := answers (cuda s) (S (clock (cuda s))) in
  ∃ s1 s2,
    debug_ (mgr_ s1) = debug || negb (out1 env =? 0)
    ∧ is_Some (cub_allocator_ (mgr_ s1))
    ∧ (succeeded built = true →
       cub_allocator_ (mgr_ s1) = Some (init_allocator debug (negb (out1 env =? 0))))
    ∧ update_thresholds_ (mgr_ s1) = update_thresholds_ (mgr_ s)
    ∧ init_devices gpus s1 = (Ok tt, s2)
    ∧ mgr_ s' = with_initialized true (mgr_ s2).
Proof.
  intros Hinit H env built. unfold init in H.
  first_action H Hm. finish Hm. rewrite Hinit in H.
  run H. first_action H Hbuilt.
  first_action H Hm. finish Hm.
  first_action H Hc. apply CHECK_Ok_inv in Hc as [Hc ->].
  apply bool_decide_eq_true in Hc.
  first_action H Hdev. destruct a1.
  first_action H Hi. finish Hi.
  apply report_devices_manager in H. red in H. tidy.
  apply reset_cub_allocator_when in Hbuilt. tidy.
  exists s0, s1. fold built in Hbuilt.
  split; [|split; [done|split; [|split; [|done]]]].
  - rewrite Hbuilt. by destruct (succeeded built).
  - intros Hb. rewrite Hbuilt, Hb. done.
  - rewrite Hbuilt. by destruct (succeeded built).
Qed.

#[local] Instance same_flags_refl : Reflexive same_flags.
Proof. intros s. by repeat split. Qed.
#[local] Instance same_flags_trans : Transitive same_flags.
Proof.
  intros s1 s2 s3 (? & ? & ? & ?) (? & ? & ? & ?). unfold same_flags.
  repeat split; congruence.
Qed.

Lemma update_dev_info_flags device : keeps same_flags (update_dev_info device).
Proof.
  intros s u s' (old & _ & _ & ->)%update_dev_info_Ok. by repeat split.
Qed.
Lemma store_dev_info_flags device f : keeps same_flags (store_dev_info device f).
Proof. unfold store_dev_info, dev_info_at. keeps_frame. Qed.
Lemma store_update_threshold_flags device t :
  keeps same_flags (store_update_threshold device t).
Proof. unfold store_update_threshold, update_threshold_at. keeps_frame. Qed.
#[local] Hint Resolve update_dev_info_flags store_dev_info_flags
  store_update_threshold_flags : frame_db.

Lemma init_devices_flags gpus : keeps same_flags (init_devices gpus).
Proof.
  induction gpus as [|g rest IH]; cbn [init_devices]; unfold dev_info_at; keeps_frame.
Qed.

(** X5. When [init] returns on a manager that was not initialized, the
    manager is initialized and holds a cache handle, the one built with
    growth 2, bins 6 to 22, no limit on cached bytes and [skip_cleanup]
    when the construction succeeded; its debug flag is the argument or-ed
    with whether [DEBUG_GPU_MEM] is set.  Every listed device has an entry
    in DeviceInfo, with free within total, and its refresh threshold is
    that total.  The threshold table is not resized, so every listed
    device is inside the table the manager was constructed with: [init]
    on a device index that is not below the device count does not
    return.  The pinned pools and the active device are as before. *)
Theorem init_populates gpus debug s u s' :
  initialized_ (mgr_ s) = false →
  init gpus debug s = (Ok u, s') →
  let debug' := debug || negb (out1 (answers (cuda s) (clock (cuda s))) =? 0) in
  initialized_ (mgr_ s') = true
  ∧ debug_ (mgr_ s') = debug'
  ∧ is_Some (cub_allocator_ (mgr_ s'))
  ∧ (succeeded (answers (cuda s) (S (clock (cuda s)))) = true →
     cub_allocator_ (mgr_ s') = Some (mkCub 2 6 22 (2 ^ 64 - 1) true debug'))
  ∧ Forall (λ g, populated g s') gpus
  ∧ length (update_thresholds_ (mgr_ s')) = length (update_thresholds_ (mgr_ s))
  ∧ Forall (λ g, 0 ≤ g < Z.of_nat (length (update_thresholds_ (mgr_ s)))) gpus
  ∧ same_pools s s' ∧ same_device s s'.
Proof.
  intros Hinit Hrun debug'.
  pose proof (init_pools _ _ _ _ _ Hrun) as Hpools.
  pose proof (init_device _ _ _ _ _ Hrun) as Hdevice.
  destruct (init_Ok_inv _ _ _ _ _ Hinit Hrun)
    as (s1 & s2 & Hdebug & Hsome & Hcub & Hthr & Hdev & Hmgr).
  destruct (init_devices_flags _ _ _ _ Hdev) as (Hd & _ & Hc & _).
  destruct (init_devices_populates _ _ _ _ Hdev) as (Hall & Hlen & _).
  assert (Hall' : Forall (λ g, populated g s') gpus).
  { eapply Forall_impl; [exact Hall|]. intros g. unfold populated.
    rewrite Hmgr. done. }
  rewrite Hmgr. tidy. rewrite Hd, Hc, Hlen, Hthr.
  split; [done|]. split; [done|]. split; [done|].
  split; [intros Hb; rewrite (Hcub Hb); reflexivity|].
  split; [exact Hall'|]. split; [done|].
  split; [|done].
  eapply Forall_impl; [exact Hall|]. intros g (Hg & di & _ & Hlook & _).
  apply lookup_lt_Some in Hlook. rewrite Hlen, Hthr in Hlook. lia.
Qed.

Lemma init_populates_witness :
  let r := init [0] true (start 1 session_oracle) in
  r.1 = Ok tt
  ∧ initialized_ (mgr_ r.2) = true
  ∧ cub_allocator_ (mgr_ r.2) = Some (mkCub 2 6 22 (2 ^ 64 - 1) true true)
  ∧ populated 0 r.2.
Proof.
  intros r.
  assert (Hrun : init [0] true (start 1 session_oracle) = (Ok tt, r.2))
    by (vm_compute; reflexivity).
  destruct (init_populates [0] true (start 1 session_oracle) tt r.2 eq_refl Hrun)
    as (Hi & _ & _ & Hcub & Hall & _).
  split; [vm_compute; reflexivity|]. split; [exact Hi|].
  split; [exact (Hcub eq_refl)|]. by apply Forall_inv in Hall.
Defined.

(** X6. [init] keeps no count of its calls.  After an [init] that
    returned, a further [init], whatever its arguments, returns with the
    process as it is, no call made; and a single [reset] then leaves the
    manager not initialized and without a cache handle. *)
Theorem init_is_not_counted gpus debug gpus' debug' s u s1 :
  init gpus debug s = (Ok u, s1) →
  init gpus' debug' s1 = (Ok tt, s1)
  ∧ ∃ s2, reset s1 = (Ok tt, s2)
          ∧ initialized_ (mgr_ s2) = false
          ∧ cub_allocator_ (mgr_ s2) = None.
Proof.
  intros Hrun.
  assert (Hinit : initialized_ (mgr_ s1) = true).
  { destruct (initialized_ (mgr_ s)) eqn:E.
    - unfold init in Hrun. first_action Hrun Hm. finish Hm. rewrite E in Hrun.
      by finish Hrun.
    - destruct (init_Ok_inv _ _ _ _ _ E Hrun) as (? & ? & _ & _ & _ & _ & _ & Hmgr).
      by rewrite Hmgr. }
  split.
  - unfold init. rewrite (bind_Ok get_mgr _ s1 (mgr_ s1) s1) by reflexivity.
    by rewrite Hinit.
  - unfold reset, reset_cub_allocator, mbind, M_bind, get_mgr, when, modify_mgr, call,
      mret, M_ret.
    rewrite Hinit.
    destruct (bool_decide _); eexists; (split; [reflexivity|]); done.
Qed.

Lemma init_is_not_counted_witness :
  init [0] true after_init = (Ok tt, after_init)
  ∧ ∃ s2, reset after_init = (Ok tt, s2)
          ∧ initialized_ (mgr_ s2) = false
          ∧ cub_allocator_ (mgr_ s2) = None.
Proof.
  apply (init_is_not_counted [0] false [0] true (start 1 session_oracle) tt after_init).
  vm_compute. reflexivity.
Defined.

(** ** Lazy initialization *)

Lemma refresh_all_flags n i cur_device : keeps same_flags (refresh_all n i cur_device).
Proof.
  revert i. induction n as [|n IH]; intros i; cbn [refresh_all]; unfold dev_info_at;
    keeps_frame.
Qed.
#[local] Hint Resolve refresh_all_flags : frame_db.

Lemma refresh_after_error_flags device : keeps same_flags (refresh_after_error device).
Proof. unfold refresh_after_error, dev_info_at. keeps_frame. Qed.
Lemma account_allocation_flags device carved :
  keeps same_flags (account_allocation device carved).
Proof. unfold account_allocation, dev_info_at, update_threshold_at. keeps_frame. Qed.
#[local] Hint Resolve refresh_after_error_flags account_allocation_flags : frame_db.

(** [try_allocate] on a manager that is initialized skips [lazy_init]. *)
Lemma try_allocate_flags size device group s r s' :
  initialized_ (mgr_ s) = true →
  try_allocate size device group s = (Ok r, s') → same_flags s s'.
Proof.
  intros Hinit H. unfold try_allocate in H.
  first_action H Hm. finish Hm. rewrite Hinit in H. cbn [negb when] in H.
  first_action H Hm. finish Hm.
  match type of H with
  | ?m _ = _ => assert (keeps same_flags m) as Hk by (unfold current_device; keeps_frame)
  end.
  exact (Hk _ _ _ H).
Qed.

Lemma try_allocate_split size device group s r s' :
  try_allocate size device group s = (Ok r, s') →
  ∃ s1, when (negb (initialized_ (mgr_ s))) (lazy_init device) s = (Ok tt, s1)
        ∧ (initialized_ (mgr_ s1) = true → try_allocate size device group s1 = (Ok r, s')).
Proof.
  intros H. unfold try_allocate in H.
  first_action H Hm. finish Hm. first_action H Hlazy. destruct a.
  exists s0. split; [done|]. intros Hinit.
  unfold try_allocate. rewrite (bind_Ok get_mgr _ s0 (mgr_ s0) s0) by reflexivity.
  rewrite Hinit. cbn [negb when].
  rewrite (bind_Ok (mret tt) _ s0 tt s0) by reflexivity. exact H.
Qed.

(** X7. On a manager that is not initialized and whose function-static
    [Scope] has not been built, a [try_allocate] that returns has
    initialized the manager for its device: the [Scope] is built, the
    manager is initialized and holds a cache handle, and the device is
    inside the threshold table the manager was constructed with. *)
Theorem try_allocate_initializes_lazily size device group s r s' :
  initialized_ (mgr_ s) = false →
  gpu_memory_scope (mgr_ s) = false →
  try_allocate size device group s = (Ok r, s') →
  initialized_ (mgr_ s') = true
  ∧ gpu_memory_scope (mgr_ s') = true
  ∧ is_Some (cub_allocator_ (mgr_ s'))
  ∧ 0 ≤ device < Z.of_nat (length (update_thresholds_ (mgr_ s))).
Proof.
  intros Hinit Hscope Hrun.
  destruct (try_allocate_active_device _ _ _ _ _ _ Hrun) as [Hdev _].
  destruct (try_allocate_split _ _ _ _ _ _ Hrun) as (s1 & Hlazy & Hrest).
  rewrite Hinit in Hlazy. cbn [negb when] in Hlazy.
  unfold lazy_init in Hlazy.
  first_action Hlazy Hm. finish Hm. rewrite Hinit in Hlazy.
  first_action Hlazy Hd.
  assert (a = device ∧ mgr_ s0 = mgr_ s) as [-> Hmgr].
  { destruct (device <? 0).
    - run Hd. finish Hd. done.
    - by finish Hd. }
  clear Hd. first_action Hlazy Hm. finish Hm. rewrite Hmgr, Hscope in Hlazy.
  first_action Hlazy Hnew. finish Hlazy. unfold Scope_new in Hnew.
  assert (Hinit0 : initialized_ (mgr_ s0) = false) by (by rewrite Hmgr).
  destruct (init_Ok_inv _ _ _ _ _ Hinit0 Hnew)
    as (sa & sb & _ & Hsome & _ & Hthr & Hdevs & Hmgr').
  destruct (init_devices_flags _ _ _ _ Hdevs) as (_ & _ & Hc & _).
  destruct (init_devices_populates _ _ _ _ Hdevs) as (Hall & Hlen & _).
  apply Forall_inv in Hall. destruct Hall as (Hpos & di & _ & Hin & _).
  apply lookup_lt_Some in Hin.
  tidy.
  assert (Hi1 : initialized_ (mgr_ (set_mgr (with_gpu_memory_scope true) s2)) = true).
  { tidy. by rewrite Hmgr'. }
  specialize (Hrest Hi1).
  destruct (try_allocate_flags _ _ _ _ _ _ Hi1 Hrest) as (_ & Hi & Hcub & Hsc).
  tidy. rewrite Hmgr' in *. tidy.
  split; [congruence|]. split; [congruence|]. split; [by rewrite Hcub, Hc|].
  rewrite Hlen, Hthr, Hmgr in Hin. lia.
Qed.

Lemma try_allocate_initializes_lazily_witness :
  let r := try_allocate 100 0 0 (start 1 session_oracle) in
  r.1 = Ok (true, 4096, 7)
  ∧ initialized_ (mgr_ r.2) = true
  ∧ gpu_memory_scope (mgr_ r.2) = true
  ∧ dev_info_ (mgr_ r.2) = [mkDevInfo 900 1000 0].
Proof.
  intros r.
  assert (Hrun : try_allocate 100 0 0 (start 1 session_oracle) = (Ok (true, 4096, 7), r.2))
    by (vm_compute; reflexivity).
  destruct (try_allocate_initializes_lazily 100 0 0 (start 1 session_oracle) _ r.2
              eq_refl eq_refl Hrun) as (Hi & Hsc & _).
  split; [vm_compute; reflexivity|]. split; [exact Hi|]. split; [exact Hsc|].
  vm_compute. reflexivity.
Defined.

(** X8. The [Scope] of [lazy_init] is built once in the life of the
    process.  On a manager that is not initialized and has no cache
    handle, but whose [Scope] has been built (lazily initialized, then
    reset), [lazy_init] leaves the manager as it is, and [try_allocate]
    does not return: it aborts when [cudaGetDevice] fails or the device is
    not the active one, and otherwise calls [DeviceAllocate] through the
    empty handle. *)
Theorem try_allocate_after_reset size device group s r s' :
  gpu_memory_scope (mgr_ s) = true →
  initialized_ (mgr_ s) = false →
  cub_allocator_ (mgr_ s) = None →
  try_allocate size device group s = (r, s') →
  mgr_ s' = mgr_ s
  ∧ (r = Fatal ∨ r = Undefined)
  ∧ (0 ≤ device → device = active_device (cuda s) →
     status (answers (cuda s) (clock (cuda s))) = cudaSuccess → r = Undefined).
Proof.
  intros Hscope Hinit Hcub H.
  unfold try_allocate, lazy_init, current_device, CUDA_CHECK, CHECK, mbind, M_bind, get_mgr,
    when, call, emit, modify_cuda, get_active_device, mret, M_ret, fatal, undefined in H.
  rewrite Hinit in H. cbn [negb] in H. rewrite Hinit in H.
  repeat first
    [ progress (cbv beta iota zeta in H; tidy)
    | rewrite Hscope in H
    | rewrite Hcub in H
    | match type of H with
      | context [if ?b then _ else _] => destruct b eqn:?
      end ];
  injection H as <- <-; (split; [done|]); (split; [by auto|]);
  intros Hpos Hdev Hst; try done;
  exfalso;
  repeat match goal with
    | E : (_ <? _) = true |- _ => apply Z.ltb_lt in E
    | E : (_ =? _) = false |- _ => apply Z.eqb_neq in E
    | E : succeeded _ = false |- _ =>
        unfold succeeded in E; apply bool_decide_eq_false in E
    end;
  first [lia | congruence].
Qed.

Lemma try_allocate_after_reset_witness :
  initialized_ (mgr_ after_lazy_init_and_reset) = false
  ∧ (try_allocate 100 0 0 after_lazy_init_and_reset).1 = Undefined.
Proof.
  split; [reflexivity|].
  destruct (try_allocate_after_reset 100 0 0 after_lazy_init_and_reset
              (try_allocate 100 0 0 after_lazy_init_and_reset).1
              (try_allocate 100 0 0 after_lazy_init_and_reset).2)
    as (_ & _ & Hundef); [reflexivity..| |].
  - vm_compute. reflexivity.
  - apply Hundef; [lia | reflexivity | reflexivity].
Defined.

(** ** [try_allocate] when the allocation fails *)

(** X9. A [try_allocate] on an initialized manager for which cub's
    [DeviceAllocate] does not answer [cudaSuccess] returns [false] when it
    returns, with the thresholds, the flags and the cache handle as
    before.  When DeviceInfo has an entry for the device whose total is
    not 0, that entry was refreshed by a real query and its flush count
    is one more, every other entry being as before; when the total is 0
    (a device [init] was not given), the manager is as before and no query
    was made. *)
Theorem try_allocate_failure size device group s b p stream s' di :
  initialized_ (mgr_ s) = true →
  0 ≤ device →
  dev_info_ (mgr_ s) !! Z.to_nat device = Some di →
  succeeded (answers (cuda s) (2 + clock (cuda s))%nat) = false →
  try_allocate size device group s = (Ok (b, p, stream), s') →
  b = false
  ∧ same_thresholds s s' ∧ same_flags s s'
  ∧ (total_ di ≠ 0 →
       queries (new_events s s') = true
       ∧ dev_info_ (mgr_ s')
         = <[Z.to_nat device :=
               incr_flush_count (refreshed (answers (cuda s) (7 + clock (cuda s))%nat)
                                           (answers (cuda s) (8 + clock (cuda s))%nat) di)]>
             (dev_info_ (mgr_ s)))
  ∧ (total_ di = 0 → mgr_ s' = mgr_ s ∧ queries (new_events s s') = false).
Proof.
  intros Hinit Hd Hdi Hfail H.
  pose proof (try_allocate_flags _ _ _ _ _ _ Hinit H) as Hflags.
  cbn [Nat.add] in *.
  unfold try_allocate in H.
  run H. rewrite Hinit in H. cbn [negb when] in H. run H.
  destruct (cub_allocator_ (mgr_ s)); [|first_action H Hu; discriminate].
  run H. rewrite Hfail in H. cbn [andb negb orb when] in H. run H.
  first_action H Herr. finish H.
  split; [done|].
  eapply refresh_after_error_Ok_inv in Herr as [[Hz ->]|(Hnz & s1 & di1 & Hupd & Hdi1 & ->)];
    [| |done|exact Hdi].
  - split; [reflexivity|]. split; [done|]. split; [done|]. intros _.
    split; [by destruct s as [[] ? ?]|].
    rewrite (new_events_app _ _ [_; _; _; _; _; _]) by reflexivity. reflexivity.
  - pose proof (update_dev_info_thresholds _ _ _ _ Hupd) as Hthr. red in Hthr.
    pose proof (update_dev_info_queries _ _ _ _ Hupd) as (added & Hadd & Hq).
    apply update_dev_info_Ok in Hupd as (old & _ & Hold & ->). tidy.
    split; [done|]. split; [done|]. split; [|done]. intros _.
    split.
    + tidy.
      eapply (queries_in_new_events _ _ [] added
                [Called _ _; Release _; Called _ _; Called _ _; Acquire _; Called _ _]);
        [|done].
      tidy. rewrite Hadd. reflexivity.
    + rewrite (grown_inside _ _ _ Hd Hdi) in *.
      assert (old = di) as -> by congruence.
      pose proof (lookup_lt_Some _ _ _ Hdi) as Hlt.
      rewrite list_lookup_insert_eq in Hdi1 by done. injection Hdi1 as <-.
      rewrite list_insert_insert_eq. reflexivity.
Qed.

Lemma try_allocate_failure_witness :
  let r := try_allocate 100 0 0 (with_oracle failing_oracle after_init) in
  r.1 = Ok (false, 0, 7)
  ∧ dev_info_ (mgr_ r.2) = [mkDevInfo 300 1000 1]
  ∧ update_thresholds_ (mgr_ r.2) = [1000].
Proof.
  intros r. set (s := with_oracle failing_oracle after_init).
  assert (Hrun : try_allocate 100 0 0 s = (Ok (false, 0, 7), r.2))
    by (vm_compute; reflexivity).
  destruct (try_allocate_failure 100 0 0 s false 0 7 r.2 (mkDevInfo 1000 1000 0))
    as (_ & Hthr & _ & Hrefresh & _);
    [reflexivity | lia | reflexivity | reflexivity | exact Hrun |].
  destruct Hrefresh as [_ Hdev]; [vm_compute; discriminate|].
  split; [vm_compute; reflexivity|]. split.
  - rewrite Hdev. vm_compute. reflexivity.
  - rewrite Hthr. vm_compute. reflexivity.
Defined.

(** ** [try_allocate] and [deallocate] together *)

Lemma add64_sub64 f c : 0 ≤ c ≤ f → f < 2 ^ 64 → add64 (sub64 f c) c = f.
Proof.
  intros Hc Hf. unfold add64, sub64, size_t.
  rewrite (Z.mod_small (f - c)) by lia. replace (f - c + c) with f by lia.
  apply Z.mod_small. lia.
Qed.

Lemma with_dev_info_same m : with_dev_info (dev_info_ m) m = m.
Proof. by destruct m. Qed.

(** X10. On an initialized manager whose free estimate for the device is
    neither below the threshold nor below the bytes carved, a
    [try_allocate] that succeeds with the driver's last error clear,
    followed by the [deallocate] of the pointer it gave, for which cub
    reports as many bytes freed as it had carved, leaves the manager as it
    was before the allocation, and makes no query of the device's
    memory. *)
Theorem allocate_then_deallocate size device group s p stream s1 s2 di threshold :
  initialized_ (mgr_ s) = true →
  0 ≤ device →
  dev_info_ (mgr_ s) !! Z.to_nat device = Some di →
  update_thresholds_ (mgr_ s) !! Z.to_nat device = Some threshold →
  free_ di < 2 ^ 64 →
  let carved := size_t (out2 (answers (cuda s) (2 + clock (cuda s))%nat)) in
  threshold ≤ free_ di → carved ≤ free_ di →
  status (answers (cuda s) (3 + clock (cuda s))%nat) = cudaSuccess →
  try_allocate size device group s = (Ok (true, p, stream), s1) →
  p ≠ 0 →
  status (answers (cuda s) (4 + clock (cuda s))%nat) ≠ cudaErrorCudartUnloading →
  size_t (out1 (answers (cuda s) (5 + clock (cuda s))%nat)) = carved →
  deallocate p device s1 = (Ok tt, s2) →
  mgr_ s2 = mgr_ s ∧ queries (new_events s s2) = false.
Proof.
  intros Hinit Hd Hdi Hthr Hfree carved Hge Hfit Hlast H Hp Hunl Hfreed Hde.
  cbn [Nat.add] in *.
  pose proof (size_t_range (out2 (answers (cuda s) (S (S (clock (cuda s))))))) as Hrange.
  fold carved in Hrange.
  unfold try_allocate in H.
  run H. rewrite Hinit in H. cbn [negb when] in H. run H.
  destruct (cub_allocator_ (mgr_ s)) as [c|] eqn:Hcub; [|first_action H Hu; discriminate].
  run H.
  first_action H Hacct. run H. first_action H Herr. finish H.
  rewrite H in Hacct, Herr.
  destruct (Z.ltb_spec INVALID_DEVICE device); [|unfold INVALID_DEVICE in *; lia].
  cbn [andb negb orb when] in Hacct, Herr.
  set (carved := size_t (out2 (answers (cuda s) (S (S (clock (cuda s))))))) in *.
  match type of Hacct with
  | _ ?sa = _ =>
      assert (cuda s0 = cuda sa
              ∧ mgr_ s0 = with_dev_info
                            (<[Z.to_nat device := with_free (sub64 (free_ di) carved) di]>
                               (dev_info_ (mgr_ s))) (mgr_ s)) as [Hc0 Hm0]
  end.
  { destruct (Z.eq_dec carved 0) as [Hz|Hnz].
    - unfold account_allocation in Hacct. rewrite Hz in *.
      cbn [Z.ltb Z.compare when] in Hacct. finish Hacct. tidy. split; [done|].
      unfold sub64, size_t. rewrite Z.sub_0_r, Z.mod_small by (unfold dev_ok in *; lia).
      replace (with_free (free_ di) di) with di by (by destruct di).
      by rewrite list_insert_id, with_dev_info_same.
    - apply account_allocation_Ok_inv in Hacct
        as (di0 & thr & Hdi0 & Hthr0 & _ & _ & Hdebit); [|lia].
      tidy. assert (di0 = di) as -> by congruence.
      assert (thr = threshold) as -> by congruence.
      rewrite (Hdebit Hge Hfit). tidy. done. }
  destruct s0 as [m0 t0 c0]. cbn [cuda mgr_] in Hc0, Hm0. subst m0 c0. tidy.
  assert (succeeded (answers (cuda s) (S (S (S (clock (cuda s)))))) = true) as Hl.
  { unfold succeeded. by apply bool_decide_eq_true_2. }
  rewrite Hl in Herr. cbn [negb when] in Herr. finish Herr.
  unfold deallocate in Hde. run Hde. tidy.
  destruct (Z.eqb_spec (size_t (out1 (answers (cuda s) (S (S (clock (cuda s))))))) 0);
    [done|].
  rewrite Hcub in Hde.
  rewrite bool_decide_eq_true_2 in Hde by eauto. cbn [orb negb] in Hde.
  run Hde.
  rewrite bool_decide_eq_false_2 in Hde by done.
  run Hde. first_action Hde Hcredit. finish Hde. tidy.
  rewrite Hfreed in Hcredit.
  set (carved := size_t (out2 (answers (cuda s) (S (S (clock (cuda s))))))) in *.
  pose proof (lookup_lt_Some _ _ _ Hdi) as Hlt.
  assert (0 ≤ free_ di) as Hnn by lia.
  split.
  - destruct (Z.ltb_spec 0 carved) as [Hpos|Hzero]; cbn [when] in Hcredit.
    + apply store_dev_info_Ok_inv in Hcredit as (di1 & _ & Hdi1 & ->). tidy.
      rewrite list_lookup_insert_eq in Hdi1 by done. injection Hdi1 as <-.
      rewrite list_insert_insert_eq. cbn [with_free free_ total_ flush_count_].
      rewrite add64_sub64 by lia.
      replace (with_free (free_ di) (with_free (sub64 (free_ di) carved) di)) with di
        by (by destruct di).
      rewrite list_insert_id by done. by destruct (mgr_ s).
    + finish Hcredit. tidy. assert (carved = 0) as Hz by lia.
      unfold sub64, size_t. rewrite Hz, Z.sub_0_r, Z.mod_small by lia.
      replace (with_free (free_ di) di) with di by (by destruct di).
      rewrite list_insert_id by done. by destruct (mgr_ s).
  - destruct (0 <? carved); cbn [when] in Hcredit;
      [apply store_dev_info_Ok_inv in Hcredit as (di1 & _ & Hdi1 & ->)|finish Hcredit];
      rewrite (new_events_app _ _ [_; _; _; _; _; _; _; _; _; _]) by reflexivity;
      reflexivity.
Qed.

Lemma allocate_then_deallocate_witness :
  let s := with_oracle (script [ok 0 0; ok 7 0; ok 4096 100; ok 0 0; ok 0 0; ok 100 0])
             after_init in
  let s1 := (try_allocate 100 0 0 s).2 in
  let s2 := (deallocate 4096 0 s1).2 in
  dev_info_ (mgr_ s1) = [mkDevInfo 900 1000 0] ∧ mgr_ s2 = mgr_ s.
Proof.
  intros s s1 s2. split; [vm_compute; reflexivity|].
  assert (H1 : try_allocate 100 0 0 s = (Ok (true, 4096, 7), s1)) by (vm_compute; reflexivity).
  assert (H2 : deallocate 4096 0 s1 = (Ok tt, s2)) by (vm_compute; reflexivity).
  refine (proj1 (allocate_then_deallocate 100 0 0 s 4096 7 s1 s2 (mkDevInfo 1000 1000 0) 1000
                   _ _ _ _ _ _ _ _ H1 _ _ _ H2));
    try reflexivity; try (vm_compute; discriminate); vm_compute; congruence.
Defined.

(** ** What [deallocate] and [GetInfo] change *)

Lemma deallocate_flags ptr device : keeps same_flags (deallocate ptr device).
Proof. unfold deallocate. keeps_frame. Qed.

#[local] Hint Resolve update_dev_info_thresholds store_dev_info_thresholds : frame_db.

Lemma deallocate_thresholds ptr device : keeps same_thresholds (deallocate ptr device).
Proof. unfold deallocate. keeps_frame. Qed.

(** X11. When [deallocate] returns, the only thing of the manager that
    can have changed is the free estimate of the device it was given:
    the table has the length it had, every entry has the total and the
    flush count it had, the entries of the other devices are as they
    were, and the thresholds, the flags, the cache handle, the pinned
    pools and the active device are as before.  No query of the device's
    memory was made, and the free estimate did not go down unless the
    [size_t] sum wrapped. *)
Theorem deallocate_changes_free_only ptr device s u s' :
  deallocate ptr device s = (Ok u, s') →
  same_thresholds s s' ∧ same_flags s s' ∧ same_pools s s' ∧ same_device s s'
  ∧ queries (new_events s s') = false
  ∧ length (dev_info_ (mgr_ s')) = length (dev_info_ (mgr_ s))
  ∧ ∀ i di, dev_info_ (mgr_ s) !! i = Some di →
      ∃ di', dev_info_ (mgr_ s') !! i = Some di'
        ∧ total_ di' = total_ di
        ∧ flush_count_ di' = flush_count_ di
        ∧ (i ≠ Z.to_nat device → di' = di)
        ∧ (free_ di' = free_ di
           ∨ ∃ freed, 0 < freed < 2 ^ 64 ∧ free_ di' = add64 (free_ di) freed).
Proof.
  intros H.
  split; [exact (deallocate_thresholds _ _ _ _ _ H)|].
  split; [exact (deallocate_flags _ _ _ _ _ H)|].
  split; [exact (deallocate_pools _ _ _ _ _ H)|].
  split; [exact (deallocate_device _ _ _ _ _ H)|].
  destruct u.
  apply deallocate_Ok_inv in H as [[Hmgr Htr]|(Hst & Htr & Hzero & Hpos)].
  - rewrite Hmgr. split; [|split; [done|]].
    + destruct Htr as [Htr|Htr].
      * by erewrite (new_events_app _ _ []) by exact Htr.
      * by erewrite (new_events_app _ _ [_]) by exact Htr.
    + intros i di Hdi. exists di. by repeat split; auto.
  - split; [by erewrite (new_events_app _ _ [_; _; _; _]) by exact Htr|].
    set (freed := size_t (out1 (answers (cuda s) (S (clock (cuda s)))))) in *.
    pose proof (size_t_range (out1 (answers (cuda s) (S (clock (cuda s)))))) as Hrange.
    fold freed in Hrange.
    destruct (Z.eq_dec freed 0) as [Hz|Hnz].
    + rewrite (Hzero Hz). split; [done|].
      intros i di Hdi. exists di. by repeat split; auto.
    + destruct Hpos as (di0 & Hdi0 & ->); [lia|]. tidy.
      split; [by rewrite length_insert|].
      intros i di Hdi.
      destruct (decide (i = Z.to_nat device)) as [->|Hne].
      * assert (di0 = di) as -> by congruence.
        eexists. rewrite list_lookup_insert_eq by (by eapply lookup_lt_Some).
        split; [done|]. cbn. repeat split; [done|].
        right. exists freed. split; [lia|done].
      * exists di. rewrite list_lookup_insert_ne by done. by repeat split; auto.
Qed.

Lemma deallocate_changes_free_only_witness :
  let s := with_oracle (script [ok 0 0; ok 200 0]) after_init in
  let r := deallocate 4096 0 s in
  r.1 = Ok tt
  ∧ dev_info_ (mgr_ r.2) = [mkDevInfo 1200 1000 0]
  ∧ same_thresholds s r.2.
Proof.
  intros s r.
  assert (Hrun : deallocate 4096 0 s = (Ok tt, r.2)) by (vm_compute; reflexivity).
  destruct (deallocate_changes_free_only 4096 0 s tt r.2 Hrun) as (Hthr & _).
  split; [vm_compute; reflexivity|]. split; [vm_compute; reflexivity|]. exact Hthr.
Defined.

(** X12. [GetInfo] aborts on a manager without a cache handle, the
    process being left as it was.  When [GetInfo] returns without update,
    the manager is as before and it has asked the driver nothing but the
    active device and cub its cached bytes; when it returns with update,
    it has made a query of the device's memory, the entry of the active
    device holds what the query gave and its refresh threshold is as
    before. *)
Theorem GetInfo_update with_update s :
  (cub_allocator_ (mgr_ s) = None → GetInfo with_update s = (Fatal, s))
  ∧ ∀ free_mem total_mem s',
      GetInfo with_update s = (Ok (free_mem, total_mem), s') →
      same_thresholds s s' ∧ same_flags s s' ∧ same_pools s s'
      ∧ (with_update = false →
         mgr_ s' = mgr_ s
         ∧ new_events s s'
           = [Called (cub_cached_bytes_free (active_device (cuda s)))
                (answers (cuda s) (S (clock (cuda s))));
              Called cudaGetDevice (answers (cuda s) (clock (cuda s)))])
      ∧ (with_update = true →
         queries (new_events s s') = true
         ∧ ∃ old, dev_info_ (mgr_ s') !! Z.to_nat (active_device (cuda s))
                  = Some (refreshed (answers (cuda s) (4 + clock (cuda s))%nat)
                                    (answers (cuda s) (5 + clock (cuda s))%nat) old)).
Proof.
  split.
  - intros Hnone. unfold GetInfo.
    rewrite (bind_Ok get_mgr _ s (mgr_ s) s) by reflexivity. rewrite Hnone.
    rewrite bool_decide_eq_false_2 by (intros [? ?]; discriminate). reflexivity.
  - intros free_mem total_mem s' H.
    assert (Hthr : same_thresholds s s').
    { revert H. generalize (free_mem, total_mem). intros r H.
      assert (keeps same_thresholds (GetInfo with_update)) as Hk
        by (unfold GetInfo, dev_info_at; keeps_frame).
      exact (Hk _ _ _ H). }
    assert (Hfl : same_flags s s').
    { assert (keeps same_flags (GetInfo with_update)) as Hk
        by (unfold GetInfo, dev_info_at; keeps_frame).
      exact (Hk _ _ _ H). }
    split; [done|]. split; [done|].
    split; [exact (GetInfo_pools _ _ _ _ H)|].
    unfold GetInfo in H. run H. first_action H Hupd.
    split; intros ->; cbn [when] in Hupd.
    + finish Hupd. first_action H Hdi. apply dev_info_at_Ok_inv in Hdi as (_ & Hdi & ->).
      run H. finish H. tidy. split; [done|].
      by erewrite (new_events_app _ _ [_; _]) by reflexivity.
    + pose proof (update_dev_info_queries _ _ _ _ Hupd) as (added & Hadd & Hq).
      apply update_dev_info_Ok in Hupd as (old & Hd & Hold & ->). tidy.
      first_action H Hdi. apply dev_info_at_Ok_inv in Hdi as (_ & Hdi & ->).
      run H. finish H. tidy. split.
      * eapply (queries_in_new_events _ _ [_] added [_]); [|done].
        tidy. rewrite Hadd. reflexivity.
      * exists old. apply list_lookup_insert_eq. by eapply lookup_lt_Some.
Qed.

Lemma GetInfo_update_witness :
  let s := with_oracle (script [ok 0 0; ok 0 0; ok 0 0; ok 0 0; ok 1000 0; ok 600 1000;
                                ok 0 0; ok 50 0]) after_init in
  let r := GetInfo true s in
  r.1 = Ok (650, 1000)
  ∧ dev_info_ (mgr_ r.2) = [mkDevInfo 600 1000 0]
  ∧ queries (new_events s r.2) = true.
Proof.
  intros s r.
  assert (Hrun : GetInfo true s = (Ok (650, 1000), r.2)) by (vm_compute; reflexivity).
  destruct (GetInfo_update true s) as [_ Hret].
  destruct (Hret 650 1000 r.2 Hrun) as (_ & _ & _ & _ & Hupd).
  destruct (Hupd eq_refl) as [Hq _].
  split; [vm_compute; reflexivity|]. split; [vm_compute; reflexivity|]. exact Hq.
Defined.

(** ** The process-wide pinned pool *)

Lemma grow_table_shape i j v w :
  shape v = shape w → shape (grow_table i j v) = shape (grow_table i j w).
Proof.
  unfold shape, grow_table. intros Hs.
  assert (Hlen : length v = length w).
  { apply (f_equal length) in Hs. by rewrite !length_fmap in Hs. }
  rewrite Hlen.
  set (v1 := if (length w <? S i)%nat then resize (S i) [] v else v).
  set (w1 := if (length w <? S i)%nat then resize (S i) [] w else w).
  assert (Hs1 : length <$> v1 = length <$> w1).
  { subst v1 w1. destruct (length w <? S i)%nat; [|done].
    rewrite !fmap_resize. by rewrite Hs. }
  clearbody v1 w1.
  assert (Hrow : length <$> (v1 !! i) = length <$> (w1 !! i))
    by (by rewrite <- !list_lookup_fmap, Hs1).
  destruct (v1 !! i) as [rv|], (w1 !! i) as [rw|]; try done.
  injection Hrow as Hrow. rewrite Hrow.
  destruct (length rw <? S j)%nat; [|done].
  rewrite !list_fmap_insert, !length_resize. by rewrite Hs1.
Qed.

Lemma grow_table_entry i j v :
  entry (grow_table i j v) i j = Some (default 0 (entry v i j)).
Proof.
  unfold entry, grow_table.
  destruct (Nat.ltb_spec (length v) (S i)) as [Hshort|Hlong].
  - destruct (v !! i) as [row|] eqn:Hrow.
    + rewrite lookup_resize by (apply lookup_lt_Some in Hrow; lia). rewrite Hrow.
      destruct (Nat.ltb_spec (length row) (S j)).
      * rewrite list_lookup_insert_eq by (rewrite length_resize; lia).
        destruct (row !! j) as [x|] eqn:Hx.
        -- rewrite lookup_resize by (apply lookup_lt_Some in Hx; lia). by rewrite Hx.
        -- apply lookup_ge_None in Hx. by rewrite lookup_resize_new by lia.
      * rewrite lookup_resize by (apply lookup_lt_Some in Hrow; lia). rewrite Hrow.
        destruct (row !! j) eqn:Hx; [done|]. apply lookup_ge_None in Hx. lia.
    + apply lookup_ge_None in Hrow.
      rewrite lookup_resize_new by lia. cbn [length Nat.ltb Nat.leb].
      rewrite list_lookup_insert_eq by (rewrite length_resize; lia).
      by rewrite lookup_resize_new by (cbn; lia).
  - destruct (v !! i) as [row|] eqn:Hrow; [|apply lookup_ge_None in Hrow; lia].
    destruct (Nat.ltb_spec (length row) (S j)).
    + rewrite list_lookup_insert_eq by (apply lookup_lt_Some in Hrow; lia).
      destruct (row !! j) as [x|] eqn:Hx.
      * rewrite lookup_resize by (apply lookup_lt_Some in Hx; lia). by rewrite Hx.
      * apply lookup_ge_None in Hx. by rewrite lookup_resize_new by lia.
    + rewrite Hrow. destruct (row !! j) eqn:Hx; [done|]. apply lookup_ge_None in Hx. lia.
Qed.

Lemma grow_table_kept i j v i' j' x :
  entry v i' j' = Some x → entry (grow_table i j v) i' j' = Some x.
Proof.
  unfold entry, grow_table. intros Hx.
  destruct (v !! i') as [row'|] eqn:Hrow'; [|done].
  set (v1 := if (length v <? S i)%nat then resize (S i) [] v else v).
  assert (Hv1 : v1 !! i' = Some row').
  { subst v1. destruct (Nat.ltb_spec (length v) (S i)); [|done].
    rewrite lookup_resize by (apply lookup_lt_Some in Hrow'; lia). done. }
  clearbody v1.
  destruct (v1 !! i) as [row|] eqn:Hrow; [|by rewrite Hv1].
  destruct (Nat.ltb_spec (length row) (S j)); [|by rewrite Hv1].
  destruct (decide (i' = i)) as [->|Hne].
  - rewrite list_lookup_insert_eq by (by eapply lookup_lt_Some).
    assert (row' = row) as -> by congruence.
    by rewrite lookup_resize by (apply lookup_lt_Some in Hx; lia).
  - rewrite list_lookup_insert_ne by done. by rewrite Hv1.
Qed.

Lemma grow_table_new i j v i' j' x :
  entry (grow_table i j v) i' j' = Some x → entry v i' j' = Some x ∨ x = 0.
Proof.
  unfold entry, grow_table.
  set (v1 := if (length v <? S i)%nat then resize (S i) [] v else v).
  assert (Hv1 : ∀ row, v1 !! i' = Some row → v !! i' = Some row ∨ row = []).
  { subst v1. intros row. destruct (Nat.ltb_spec (length v) (S i)); [|by left].
    intros Hr. pose proof (lookup_lt_Some _ _ _ Hr) as Hlt. rewrite length_resize in Hlt.
    destruct (decide (i' < length v)%nat).
    - rewrite lookup_resize in Hr by lia. by left.
    - rewrite lookup_resize_new in Hr by lia. right. congruence. }
  clearbody v1.
  assert (Hold : ∀ row, v1 !! i' = Some row → row !! j' = Some x →
                 match v !! i' with Some row0 => row0 !! j' | None => None end = Some x ∨ x = 0).
  { intros row Hr Hx. destruct (Hv1 _ Hr) as [->| ->]; [by left|done]. }
  destruct (v1 !! i) as [row|] eqn:Hrow.
  - destruct (Nat.ltb_spec (length row) (S j)).
    + destruct (decide (i' = i)) as [->|Hne].
      * rewrite list_lookup_insert_eq by (by eapply lookup_lt_Some).
        intros Hx. pose proof (lookup_lt_Some _ _ _ Hx) as Hlt. rewrite length_resize in Hlt.
        destruct (decide (j' < length row)%nat).
        -- rewrite lookup_resize in Hx by lia. by eapply Hold.
        -- rewrite lookup_resize_new in Hx by lia. right. congruence.
      * rewrite list_lookup_insert_ne by done.
        destruct (v1 !! i') eqn:E; [|done]. by eapply Hold.
    + destruct (v1 !! i') eqn:E; [|done]. by eapply Hold.
  - destruct (v1 !! i') eqn:E; [|done]. by eapply Hold.
Qed.

Lemma grow_table_same i j v x : entry v i j = Some x → grow_table i j v = v.
Proof.
  unfold entry, grow_table. intros Hx.
  destruct (v !! i) as [row|] eqn:Hrow; [|done].
  pose proof (lookup_lt_Some _ _ _ Hrow). pose proof (lookup_lt_Some _ _ _ Hx).
  destruct (Nat.ltb_spec (length v) (S i)); [lia|]. rewrite Hrow.
  destruct (Nat.ltb_spec (length row) (S j)); [lia|]. done.
Qed.

Lemma vector_resize_Ok_inv {A} n (d : A) v v' s s' :
  vector_resize n d v s = (Ok v', s') → v' = resize (Z.to_nat n) d v ∧ s' = s.
Proof.
  unfold vector_resize. destruct (_ <? _); [discriminate|].
  by intros [-> ->]%ret_Ok_inv.
Qed.

Lemma resize_row_Ok_inv {A} (v : list (list A)) i n d v' s s' :
  resize_row v i n d s = (Ok v', s') →
  ∃ row, v !! Z.to_nat i = Some row
         ∧ v' = <[Z.to_nat i := resize (Z.to_nat n) d row]> v ∧ s' = s.
Proof.
  unfold resize_row. intros H.
  first_action H Hat. apply at_Ok_inv in Hat as (_ & Hrow & ->).
  first_action H Hr. apply vector_resize_Ok_inv in Hr as [-> ->].
  finish H. eauto.
Qed.

Lemma shape_length {A B} (v : list (list A)) (w : list (list B)) :
  shape v = shape w → length v = length w.
Proof. unfold shape. intros H. apply (f_equal length) in H. by rewrite !length_fmap in H. Qed.

Lemma shape_row {A B} (v : list (list A)) (w : list (list B)) i rv rw :
  shape v = shape w → v !! i = Some rv → w !! i = Some rw → length rv = length rw.
Proof.
  unfold shape. intros H Hv Hw.
  assert (length <$> (v !! i) = length <$> (w !! i)) as E
    by (by rewrite <- !list_lookup_fmap, H).
  rewrite Hv, Hw in E. by injection E.
Qed.

Lemma shape_resize {A B} (v : list (list A)) (w : list (list B)) n :
  shape v = shape w → shape (resize n [] v) = shape (resize n [] w).
Proof. unfold shape. intros H. rewrite !fmap_resize. by rewrite H. Qed.

(** What [resize_buffers] does to tables that are aligned. *)
Lemma resize_buffers_Ok_inv device group s b s' :
  pinned_aligned (mgr_ s) →
  resize_buffers device group s = (Ok b, s') →
  let d := Z.to_nat device in
  let g := Z.to_nat group in
  0 ≤ device ∧ 0 ≤ group
  ∧ s' = set_mgr (with_pinned (grow_table d g (pinned_host_buffers_ (mgr_ s)))
                              (grow_table d g (pinned_device_buffers_ (mgr_ s)))
                              (grow_table d g (pinned_buffer_sizes_ (mgr_ s)))) s
  ∧ b = bool_decide (entry (pinned_buffer_sizes_ (mgr_ s)) d g = None).
Proof.
  intros [Hh Hd] H d g. unfold resize_buffers in H.
  step H. step H. step H. step H.
  apply Z.leb_le in H0, H1.
  split; [done|]. split; [done|].
  first_action H Houter.
  set (hosts := pinned_host_buffers_ (mgr_ s)) in *.
  set (devs := pinned_device_buffers_ (mgr_ s)) in *.
  set (szs := pinned_buffer_sizes_ (mgr_ s)) in *.
  set (h1 := if (length szs <? S d)%nat then resize (S d) [] hosts else hosts).
  set (d1 := if (length szs <? S d)%nat then resize (S d) [] devs else devs).
  set (z1 := if (length szs <? S d)%nat then resize (S d) [] szs else szs).
  assert (Hs0 : s0 = set_mgr (with_pinned h1 d1 z1) s
                ∧ a1 = (length szs <? S d)%nat).
  { unfold vector_size in Houter. subst h1 d1 z1.
    destruct (Z.ltb_spec (Z.of_nat (length szs)) (device + 1)) as [Hlt|Hge].
    - destruct (Nat.ltb_spec (length szs) (S d)); [|lia].
      first_action Houter Hr. apply vector_resize_Ok_inv in Hr as [-> ->].
      first_action Houter Hr. apply vector_resize_Ok_inv in Hr as [-> ->].
      first_action Houter Hr. apply vector_resize_Ok_inv in Hr as [-> ->].
      step Houter. finish Houter.
      replace (Z.to_nat (device + 1)) with (S d) by lia. done.
    - destruct (Nat.ltb_spec (length szs) (S d)); [lia|].
      finish Houter. split; [|done]. by destruct s as [[] ? ?]. }
  destruct Hs0 as [-> ->]. clear Houter.
  assert (Hh1 : shape h1 = shape z1).
  { subst h1 z1. destruct (_ <? _)%nat; [by apply shape_resize|done]. }
  assert (Hd1 : shape d1 = shape z1).
  { subst d1 z1. destruct (_ <? _)%nat; [by apply shape_resize|done]. }
  step H. step H. tidy. first_action H Hat. apply at_Ok_inv in Hat as (_ & Hrow & ->).
  assert (Hgh : ∀ v, shape v = shape szs →
            let v1 := if (length szs <? S d)%nat then resize (S d) [] v else v in
            shape v1 = shape z1 →
            grow_table d g v
            = if (length a1 <? S g)%nat
              then match v1 !! d with
                   | Some row => <[d := resize (S g) 0 row]> v1
                   | None => v1
                   end
              else v1).
  { intros v Hv v1 Hv1. unfold grow_table. rewrite (shape_length _ _ Hv). fold v1.
    destruct (v1 !! d) as [row|] eqn:E; [|by destruct (length a1 <? S g)%nat].
    by rewrite (shape_row _ _ _ _ _ Hv1 E Hrow). }
  rewrite (Hgh hosts Hh Hh1), (Hgh devs Hd Hd1), (Hgh szs eq_refl eq_refl).
  fold h1 d1 z1. fold d in Hrow. rewrite Hrow.
  unfold vector_size in H.
  destruct (Z.ltb_spec (Z.of_nat (length a1)) (group + 1)) as [Hlt|Hge].
  - destruct (Nat.ltb_spec (length a1) (S g)); [|lia].
    first_action H Hr. apply resize_row_Ok_inv in Hr as (rh & Hrh & -> & ->).
    first_action H Hr. apply resize_row_Ok_inv in Hr as (rd & Hrd & -> & ->).
    first_action H Hr. apply resize_row_Ok_inv in Hr as (rz & Hrz & -> & ->).
    step H. finish H. fold d in Hrh, Hrd, Hrz. rewrite Hrh, Hrd.
    assert (rz = a1) as -> by congruence.
    replace (Z.to_nat (group + 1)) with (S g) by lia.
    split; [by destruct s as [[] ? ?]|].
    symmetry. apply bool_decide_eq_true_2. unfold entry.
    destruct (szs !! d) as [row|] eqn:E; [|done].
    assert (z1 !! d = Some row) as Hz.
    { subst z1. destruct (Nat.ltb_spec (length szs) (S d)); [|done].
      apply lookup_lt_Some in E. lia. }
    assert (row = a1) as -> by congruence.
    apply lookup_ge_None. lia.
  - destruct (Nat.ltb_spec (length a1) (S g)); [lia|].
    finish H. split; [by destruct s as [[] ? ?]|].
    destruct (Nat.ltb_spec (length szs) (S d)) as [Hshort|Hlong].
    + symmetry. apply bool_decide_eq_true_2. unfold entry.
      destruct (szs !! d) eqn:E; [|done]. apply lookup_lt_Some in E. lia.
    + symmetry. apply bool_decide_eq_false_2. unfold entry.
      subst z1. destruct (Nat.ltb_spec (length szs) (S d)); [lia|]. rewrite Hrow.
      intros Hn. apply lookup_ge_None in Hn. lia.
Qed.

Lemma entry_put_eq {A} i j (x : A) v :
  is_Some (entry v i j) → entry (put i j x v) i j = Some x.
Proof.
  unfold entry, put. intros [y Hy].
  destruct (v !! i) as [row|] eqn:E; [|done].
  rewrite list_lookup_alter_eq, E. cbn.
  apply list_lookup_insert_eq. by eapply lookup_lt_Some.
Qed.

Lemma entry_put_ne {A} i j (x : A) v i' j' :
  (i', j') ≠ (i, j) → entry (put i j x v) i' j' = entry v i' j'.
Proof.
  unfold entry, put. intros Hne.
  destruct (decide (i' = i)) as [->|Hi].
  - rewrite list_lookup_alter_eq. destruct (v !! i) as [row|]; [|done]. cbn.
    apply list_lookup_insert_ne. congruence.
  - by rewrite list_lookup_alter_ne.
Qed.

Lemma shape_put {A} i j (x : A) v : shape (put i j x v) = shape v.
Proof.
  unfold shape, put. apply list_eq. intros k.
  rewrite !list_lookup_fmap.
  destruct (decide (k = i)) as [->|Hk].
  - rewrite list_lookup_alter_eq. destruct (v !! i); [|done]. cbn.
    by rewrite length_insert.
  - by rewrite list_lookup_alter_ne.
Qed.

Lemma store2_put {A} (v : list (list A)) i j (x : A) v' s s' :
  store2 v i j x s = (Ok v', s') →
  s' = s ∧ is_Some (entry v (Z.to_nat i) (Z.to_nat j)) ∧ v' = put (Z.to_nat i) (Z.to_nat j) x v.
Proof.
  unfold store2. intros H.
  first_action H Hrow. apply at_Ok_inv in Hrow as (_ & Hrow & ->).
  first_action H Hx. apply at_Ok_inv in Hx as (_ & Hx & ->).
  finish H. split; [done|]. unfold entry, put. rewrite Hrow. split; [eauto|].
  apply list_eq. intros k. destruct (decide (k = Z.to_nat i)) as [->|Hk].
  - rewrite list_lookup_alter_eq, Hrow. cbn.
    apply list_lookup_insert_eq. by eapply lookup_lt_Some.
  - by rewrite list_lookup_alter_ne, list_lookup_insert_ne.
Qed.

Lemma at2_entry {A} (v : list (list A)) i j x s s' :
  at2 v i j s = (Ok x, s') →
  s' = s ∧ entry v (Z.to_nat i) (Z.to_nat j) = Some x.
Proof.
  intros (-> & row & Hrow & Hx)%at2_Ok_inv. split; [done|].
  unfold entry. by rewrite Hrow.
Qed.

Lemma shape_entry {A B} (v : list (list A)) (w : list (list B)) i j :
  shape v = shape w → is_Some (entry w i j) → is_Some (entry v i j).
Proof.
  unfold entry. intros Hs [x Hx].
  destruct (w !! i) as [rw|] eqn:Ew; [|done].
  destruct (v !! i) as [rv|] eqn:Ev.
  - apply lookup_lt_is_Some. rewrite (shape_row _ _ _ _ _ Hs Ev Ew).
    by eapply lookup_lt_Some.
  - apply lookup_ge_None in Ev. apply lookup_lt_Some in Ew.
    rewrite (shape_length _ _ Hs) in Ev. lia.
Qed.

Lemma with_room_aligned device group m :
  pinned_aligned m → pinned_aligned (with_room device group m).
Proof.
  intros [Hh Hd]. split; cbn; by apply grow_table_shape.
Qed.

(** What [pinned_buffer] does to tables that are aligned. *)
Lemma pinned_buffer_Ok_inv size device group s p s' :
  pinned_aligned (mgr_ s) →
  pinned_buffer size device group s = (Ok p, s') →
  let d := Z.to_nat device in
  let g := Z.to_nat group in
  let size' := Z.max size INITIAL_PINNED_BYTES in
  let m1 := with_room device group (mgr_ s) in
  0 ≤ device ∧ 0 ≤ group
  ∧ ((∃ current, entry (pinned_buffer_sizes_ (mgr_ s)) d g = Some current
        ∧ size' ≤ current
        ∧ s' = s
        ∧ entry (pinned_device_buffers_ (mgr_ s)) d g = Some p)
     ∨ (∃ freed ha da,
          (∀ current, entry (pinned_buffer_sizes_ (mgr_ s)) d g = Some current →
                      current < size')
          ∧ status ha = cudaSuccess ∧ status da = cudaSuccess
          ∧ p = size_t (out1 da)
          ∧ mgr_ s' = with_pinned
                        (put d g (size_t (out1 ha)) (pinned_host_buffers_ m1))
                        (put d g p (pinned_device_buffers_ m1))
                        (put d g size' (pinned_buffer_sizes_ m1)) m1
          ∧ thread_local_ s' = thread_local_ s
          ∧ active_device (cuda s') = active_device (cuda s)
          ∧ trace (cuda s')
            = Release shared
              :: Called (cudaHostGetDevicePointer (size_t (out1 ha))) da
              :: Called (cudaHostAlloc size') ha
              :: freed ++ Acquire shared :: trace (cuda s)
          ∧ freed = match entry (pinned_host_buffers_ (mgr_ s)) d g with
                    | Some old => [Called (cudaFreeHost old) (answers (cuda s) (clock (cuda s)))]
                    | None => []
                    end)).
Proof.
  intros Hal H d g size' m1. unfold pinned_buffer in H.
  first_action H Hres.
  apply resize_buffers_Ok_inv in Hres as (Hd & Hg & -> & ->); [|done].
  split; [done|]. split; [done|].
  fold d g in H. 
  change (set_mgr _ s) with (set_mgr (λ _, m1) s) in H.
  step H. tidy.
  first_action H Hcur. apply at2_entry in Hcur as [-> Hcur]. fold d g size' in H, Hcur.
  pose proof (with_room_aligned device group _ Hal) as [Hh1 Hd1]. fold m1 in Hh1, Hd1.
  first_action H Hgrow.
  (* the allocation, when it is made *)
  assert (Hbody : ∀ sa a s0,
    mgr_ sa = m1 →
    (ha ← call (cudaHostAlloc size');
     h ← store2 (pinned_host_buffers_ m1) device group (size_t (out1 ha));
     modify_mgr (λ m, with_pinned h (pinned_device_buffers_ m) (pinned_buffer_sizes_ m) m);;
     CUDA_CHECK ha;;
     da ← call (cudaHostGetDevicePointer (size_t (out1 ha)));
     d ← store2 (pinned_device_buffers_ m1) device group (size_t (out1 da));
     modify_mgr (λ m, with_pinned (pinned_host_buffers_ m) d (pinned_buffer_sizes_ m) m);;
     CUDA_CHECK da;;
     sz ← store2 (pinned_buffer_sizes_ m1) device group size';
     modify_mgr (λ m, with_pinned (pinned_host_buffers_ m) (pinned_device_buffers_ m) sz m);;
     emit (Release shared)) sa = (Ok a, s0) →
    ∃ ha da,
      status ha = cudaSuccess ∧ status da = cudaSuccess
      ∧ mgr_ s0 = with_pinned
                    (put d g (size_t (out1 ha)) (pinned_host_buffers_ m1))
                    (put d g (size_t (out1 da)) (pinned_device_buffers_ m1))
                    (put d g size' (pinned_buffer_sizes_ m1)) m1
      ∧ thread_local_ s0 = thread_local_ sa
      ∧ active_device (cuda s0) = active_device (cuda sa)
      ∧ trace (cuda s0)
        = Release shared
          :: Called (cudaHostGetDevicePointer (size_t (out1 ha))) da
          :: Called (cudaHostAlloc size') ha :: trace (cuda sa)).
  { intros sa a' sb Hm Hb.
    step Hb. first_action Hb Hst. apply store2_put in Hst as (-> & _ & ->).
    step Hb. step Hb.
    step Hb. first_action Hb Hst. apply store2_put in Hst as (-> & _ & ->).
    step Hb. step Hb.
    first_action Hb Hst. apply store2_put in Hst as (-> & _ & ->).
    step Hb. finish Hb. tidy. fold d g.
    exists (answers (cuda sa) (clock (cuda sa))), (answers (cuda sa) (S (clock (cuda sa)))).
    split; [done|]. split; [done|].
    rewrite Hm. split; [|done]. clear. clearbody m1. by destruct m1. }
  assert (Hret : ∀ sb, (m ← get_mgr; at2 (pinned_device_buffers_ m) device group) sb
                        = (Ok p, s') →
                 s' = sb ∧ entry (pinned_device_buffers_ (mgr_ sb)) d g = Some p).
  { intros sb Hb. step Hb. by apply at2_entry in Hb as [-> Hb]. }
  apply Hret in H as [-> Hp]. clear Hret.
  destruct (entry (pinned_buffer_sizes_ (mgr_ s)) d g) as [cur0|] eqn:Hcur0.
  - (* the entry was there *)
    destruct Hal as [Hh Hdv].
    destruct (shape_entry _ _ d g Hh (mk_is_Some _ _ Hcur0)) as [x Hx].
    destruct (shape_entry _ _ d g Hdv (mk_is_Some _ _ Hcur0)) as [y Hy].
    assert (Hm1 : m1 = mgr_ s).
    { subst m1. unfold with_room. fold d g.
      rewrite (grow_table_same _ _ _ _ Hx), (grow_table_same _ _ _ _ Hy),
        (grow_table_same _ _ _ _ Hcur0).
      by destruct (mgr_ s). }
    rewrite bool_decide_eq_false_2 in Hgrow by done.
    rewrite Hm1 in Hcur. assert (a = cur0) as -> by congruence.
    rewrite orb_false_r in Hgrow. cbn [negb when] in Hgrow.
    destruct (Z.ltb_spec cur0 size') as [Hlt|Hge]; cbn [when] in Hgrow.
    + right. step Hgrow. first_action Hgrow Hfree.
      first_action Hfree Hold. apply at2_entry in Hold as [-> Hold].
      fold d g in Hold. rewrite Hm1 in Hold.
      step Hfree. finish Hfree. tidy.
      apply Hbody in Hgrow as (ha & da & Hha & Hda & Hmgr & Htl & Hdev & Htr); [|done].
      match type of Hold with
      | _ = Some ?o =>
          exists [Called (cudaFreeHost o) (answers (cuda s) (clock (cuda s)))], ha, da
      end.
      split; [intros ? [= <-]; done|]. split; [done|]. split; [done|].
      rewrite Hmgr in Hp. cbn [pinned_device_buffers_ with_pinned with_room m1] in Hp.
      rewrite entry_put_eq in Hp by (subst m1; cbn; rewrite grow_table_entry; eauto).
      injection Hp as <-.
      split; [done|]. split; [done|]. split; [done|]. split; [done|].
      split; [done|]. by rewrite Hold.
    + left. finish Hgrow. exists cur0. split; [done|]. split; [done|].
      rewrite Hm1 in Hp |- *. split; [by destruct s|]. done.
  - (* the entry is new *)
    right. rewrite bool_decide_eq_true_2 in Hgrow by done.
    rewrite orb_true_r in Hgrow. cbn [negb when] in Hgrow.
    step Hgrow. step Hgrow.
    apply Hbody in Hgrow as (ha & da & Hha & Hda & Hmgr & Htl & Hdev & Htr); [|done].
    exists [], ha, da. split; [done|]. split; [done|]. split; [done|].
    rewrite Hmgr in Hp. cbn [pinned_device_buffers_ with_pinned with_room m1] in Hp.
    rewrite entry_put_eq in Hp by (subst m1; cbn; rewrite grow_table_entry; eauto).
    injection Hp as <-.
    split; [done|]. split; [done|]. split; [done|]. split; [done|].
    split; [done|].
    destruct (entry (pinned_host_buffers_ (mgr_ s)) d g) as [old|] eqn:Eold; [|done].
    exfalso. destruct Hal as [Hh _].
    destruct (shape_entry _ _ d g (eq_sym Hh) (mk_is_Some _ _ Eold)) as [? ?]. congruence.
Qed.

(** Running forward: actions that succeed. *)
Lemma CHECK_true b s : b = true → CHECK b s = (Ok tt, s).
Proof. by intros ->. Qed.

Lemma at_Ok {A} (v : list A) i x s :
  0 ≤ i → v !! Z.to_nat i = Some x → at_ v i s = (Ok x, s).
Proof.
  intros Hi Hx. unfold at_. destruct (Z.ltb_spec i 0); [lia|]. by rewrite Hx.
Qed.

Lemma at2_Ok {A} (v : list (list A)) i j x s :
  0 ≤ i → 0 ≤ j → entry v (Z.to_nat i) (Z.to_nat j) = Some x → at2 v i j s = (Ok x, s).
Proof.
  unfold entry, at2. intros Hi Hj Hx.
  destruct (v !! Z.to_nat i) as [row|] eqn:Hrow; [|done].
  rewrite (bind_Ok _ _ _ _ _ (at_Ok _ _ _ _ Hi Hrow)). by apply at_Ok.
Qed.

Lemma store2_Ok {A} (v : list (list A)) i j (x : A) s :
  0 ≤ i → 0 ≤ j → is_Some (entry v (Z.to_nat i) (Z.to_nat j)) →
  store2 v i j x s = (Ok (put (Z.to_nat i) (Z.to_nat j) x v), s).
Proof.
  intros Hi Hj [y Hy].
  destruct (store2 v i j x s) as [[v'| |] s1] eqn:E.
  - by apply store2_put in E as (-> & _ & ->).
  - exfalso. unfold store2, entry in *.
    destruct (v !! Z.to_nat i) as [row|] eqn:Hrow; [|done].
    rewrite (bind_Ok _ _ _ _ _ (at_Ok _ _ _ _ Hi Hrow)) in E.
    rewrite (bind_Ok _ _ _ _ _ (at_Ok _ _ _ _ Hj Hy)) in E. discriminate.
  - exfalso. unfold store2, entry in *.
    destruct (v !! Z.to_nat i) as [row|] eqn:Hrow; [|done].
    rewrite (bind_Ok _ _ _ _ _ (at_Ok _ _ _ _ Hi Hrow)) in E.
    rewrite (bind_Ok _ _ _ _ _ (at_Ok _ _ _ _ Hj Hy)) in E. discriminate.
Qed.

(** [resize_buffers] returns only for indices whose successor is an
    [int]. *)
Lemma resize_buffers_range device group b s s' :
  resize_buffers device group s = (Ok b, s') → device < INT_MAX ∧ group < INT_MAX.
Proof.
  unfold resize_buffers. intros H. step H. step H. step H.
  first_action H Hd. apply int_add_Ok_inv in Hd as (-> & -> & Hd).
  first_action H Hr. clear Hr. step H.
  first_action H Hg. apply int_add_Ok_inv in Hg as (-> & -> & Hg).
  lia.
Qed.

Lemma pinned_buffer_range size device group p s s' :
  pinned_buffer size device group s = (Ok p, s') → device < INT_MAX ∧ group < INT_MAX.
Proof.
  unfold pinned_buffer. intros H. first_action H Hres.
  by apply resize_buffers_range in Hres.
Qed.

(** [resize_buffers] for an entry the tables have. *)
Lemma resize_buffers_present device group s x :
  0 ≤ device < INT_MAX → 0 ≤ group < INT_MAX →
  entry (pinned_buffer_sizes_ (mgr_ s)) (Z.to_nat device) (Z.to_nat group) = Some x →
  resize_buffers device group s = (Ok false, s).
Proof.
  intros Hd Hg Hx. unfold entry in Hx.
  destruct (pinned_buffer_sizes_ (mgr_ s) !! Z.to_nat device) as [row|] eqn:Hrow; [|done].
  pose proof (lookup_lt_Some _ _ _ Hrow). pose proof (lookup_lt_Some _ _ _ Hx).
  unfold resize_buffers.
  rewrite (bind_Ok _ _ _ _ _ (CHECK_true _ _ (proj2 (Z.leb_le _ _) (proj1 Hd)))).
  rewrite (bind_Ok _ _ _ _ _ (CHECK_true _ _ (proj2 (Z.leb_le _ _) (proj1 Hg)))).
  rewrite (bind_Ok get_mgr _ s (mgr_ s) s) by reflexivity.
  rewrite (bind_Ok _ _ _ _ _ (int_add_Ok device 1 s ltac:(unfold INT_MIN; lia))).
  unfold vector_size.
  destruct (Z.ltb_spec (Z.of_nat (length (pinned_buffer_sizes_ (mgr_ s)))) (device + 1));
    [lia|].
  rewrite (bind_Ok (mret false) _ s false s) by reflexivity.
  rewrite (bind_Ok get_mgr _ s (mgr_ s) s) by reflexivity.
  rewrite (bind_Ok _ _ _ _ _ (int_add_Ok group 1 s ltac:(unfold INT_MIN; lia))).
  rewrite (bind_Ok _ _ _ _ _ (at_Ok _ _ _ _ (proj1 Hd) Hrow)).
  destruct (Z.ltb_spec (Z.of_nat (length row)) (group + 1)); [lia|]. reflexivity.
Qed.

(** X13. On pinned tables that are aligned (the three tables have the
    same rows, of the same lengths), when [resize_buffers] returns:
    [device] and [group] are not negative; the tables are aligned and
    have an entry for [device][group]; it returns [true] exactly when the
    tables had no such entry, and then the entry is a null host pointer, a
    null device pointer and size 0; it returns [false] with the process as
    it was; every entry the tables had is as it was; nothing but the three
    tables has changed and no call was made; and a second call returns
    [false] and changes nothing. *)
Theorem resize_buffers_makes_room device group s resized s' :
  pinned_aligned (mgr_ s) →
  resize_buffers device group s = (Ok resized, s') →
  let d := Z.to_nat device in
  let g := Z.to_nat group in
  0 ≤ device ∧ 0 ≤ group
  ∧ pinned_aligned (mgr_ s')
  ∧ (resized = true ↔ entry (pinned_buffer_sizes_ (mgr_ s)) d g = None)
  ∧ (resized = false → s' = s)
  ∧ (resized = true →
     entry (pinned_host_buffers_ (mgr_ s')) d g = Some 0
     ∧ entry (pinned_device_buffers_ (mgr_ s')) d g = Some 0
     ∧ entry (pinned_buffer_sizes_ (mgr_ s')) d g = Some 0)
  ∧ (∀ i j x,
       (entry (pinned_host_buffers_ (mgr_ s)) i j = Some x →
        entry (pinned_host_buffers_ (mgr_ s')) i j = Some x)
       ∧ (entry (pinned_device_buffers_ (mgr_ s)) i j = Some x →
          entry (pinned_device_buffers_ (mgr_ s')) i j = Some x)
       ∧ (entry (pinned_buffer_sizes_ (mgr_ s)) i j = Some x →
          entry (pinned_buffer_sizes_ (mgr_ s')) i j = Some x))
  ∧ same_accounts s s' ∧ same_thread_local s s' ∧ cuda s' = cuda s
  ∧ resize_buffers device group s' = (Ok false, s').
Proof.
  intros Hal H d g.
  pose proof (resize_buffers_accounts _ _ _ _ _ H) as Hacc.
  pose proof (resize_buffers_thread_local _ _ _ _ _ H) as Htl.
  pose proof (resize_buffers_cuda _ _ _ _ _ H) as Hcuda.
  pose proof (resize_buffers_range _ _ _ _ _ H) as [Hdmax Hgmax].
  pose proof Hal as [Hh Hdv].
  apply resize_buffers_Ok_inv in H as (Hd & Hg & -> & ->); [|done].
  fold d g. tidy.
  assert (Hnone : ∀ v : list (list Z),
            shape v = shape (pinned_buffer_sizes_ (mgr_ s)) →
            entry (pinned_buffer_sizes_ (mgr_ s)) d g = None → entry v d g = None).
  { intros v Hv Hn. destruct (entry v d g) eqn:E; [|done].
    destruct (shape_entry _ _ d g (eq_sym Hv) (mk_is_Some _ _ E)). congruence. }
  split; [done|]. split; [done|].
  split; [exact (with_room_aligned device group _ Hal)|].
  split; [by rewrite bool_decide_eq_true|].
  split.
  { intros Hb. apply bool_decide_eq_false in Hb.
    destruct (entry (pinned_buffer_sizes_ (mgr_ s)) d g) as [x|] eqn:Hx; [|done].
    destruct (shape_entry _ _ d g Hh (mk_is_Some _ _ Hx)) as [xh Hxh].
    destruct (shape_entry _ _ d g Hdv (mk_is_Some _ _ Hx)) as [xd Hxd].
    rewrite (grow_table_same _ _ _ _ Hx), (grow_table_same _ _ _ _ Hxh),
      (grow_table_same _ _ _ _ Hxd).
    by destruct s as [[] ? ?]. }
  split.
  { intros Hb. apply bool_decide_eq_true in Hb.
    rewrite !grow_table_entry, Hb, (Hnone _ Hh Hb), (Hnone _ Hdv Hb). done. }
  split; [intros i j x; repeat split; apply grow_table_kept|].
  split; [done|]. split; [done|]. split; [done|].
  eapply resize_buffers_present; [done..|]. tidy. fold d g. apply grow_table_entry.
Qed.

Lemma resize_buffers_makes_room_witness :
  let r := resize_buffers 1 2 (start 1 resize_oracle) in
  r.1 = Ok true
  ∧ pinned_buffer_sizes_ (mgr_ r.2) = [[]; [0; 0; 0]]
  ∧ resize_buffers 1 2 r.2 = (Ok false, r.2).
Proof.
  intros r.
  assert (Hrun : resize_buffers 1 2 (start 1 resize_oracle) = (Ok true, r.2))
    by (vm_compute; reflexivity).
  destruct (resize_buffers_makes_room 1 2 (start 1 resize_oracle) true r.2)
    as (_ & _ & _ & _ & _ & _ & _ & _ & _ & _ & Hagain);
    [split; reflexivity | exact Hrun |].
  split; [vm_compute; reflexivity|]. split; [vm_compute; reflexivity|]. exact Hagain.
Defined.

Lemma put_aligned i j h dv sz m :
  pinned_aligned m →
  pinned_aligned (with_pinned (put i j h (pinned_host_buffers_ m))
                              (put i j dv (pinned_device_buffers_ m))
                              (put i j sz (pinned_buffer_sizes_ m)) m).
Proof.
  intros [Hh Hd]. unfold pinned_aligned.
  cbn [pinned_host_buffers_ pinned_device_buffers_ pinned_buffer_sizes_ with_pinned].
  by rewrite !shape_put.
Qed.

(** The entry after a [pinned_buffer] that returned. *)
Lemma pinned_buffer_entry size device group s p s' :
  pinned_aligned (mgr_ s) →
  pinned_buffer size device group s = (Ok p, s') →
  pinned_aligned (mgr_ s')
  ∧ entry (pinned_device_buffers_ (mgr_ s')) (Z.to_nat device) (Z.to_nat group) = Some p
  ∧ ∃ current,
      entry (pinned_buffer_sizes_ (mgr_ s')) (Z.to_nat device) (Z.to_nat group) = Some current
      ∧ Z.max size INITIAL_PINNED_BYTES ≤ current.
Proof.
  intros Hal H.
  apply pinned_buffer_Ok_inv in H as (Hd & Hg & Hcases); [|done].
  destruct Hcases as [(cur & Hcur & Hle & -> & Hp)
                     |(freed & ha & da & Hsmall & Hha & Hda & -> & Hmgr & _)].
  - eauto.
  - pose proof (with_room_aligned device group _ Hal) as Hal1.
    assert (Hroom : ∀ v : list (list Z),
              is_Some (entry (grow_table (Z.to_nat device) (Z.to_nat group) v)
                         (Z.to_nat device) (Z.to_nat group))).
    { intros v. rewrite grow_table_entry. eauto. }
    rewrite Hmgr. cbn [pinned_host_buffers_ pinned_device_buffers_ pinned_buffer_sizes_
                        with_pinned].
    split; [by apply put_aligned|].
    split; [apply entry_put_eq, Hroom|].
    eexists. split; [apply entry_put_eq, Hroom|lia].
Qed.

(** X14. On pinned tables that are aligned, when [pinned_buffer] returns
    it has done one of two things.  Either the entry for [device][group]
    was there with a size that is not below the size asked for (64 at
    least): the process is as it was and the pointer returned is the
    entry's device pointer.  Or the entry was not there, or was smaller:
    under one shared acquisition of the mutex the old host buffer, if
    there was an entry, was handed to [cudaFreeHost], a host buffer of the
    size asked for (64 at least) was allocated and mapped, both calls
    succeeding; the entry now holds that host buffer, its device pointer
    and that size, and the pointer returned is that device pointer.  In
    both cases the tables are aligned and every other entry they had is
    as it was. *)
Theorem pinned_buffer_replaces_entry size device group s p s' :
  pinned_aligned (mgr_ s) →
  pinned_buffer size device group s = (Ok p, s') →
  let d := Z.to_nat device in
  let g := Z.to_nat group in
  let size' := Z.max size INITIAL_PINNED_BYTES in
  pinned_aligned (mgr_ s')
  ∧ entry (pinned_device_buffers_ (mgr_ s')) d g = Some p
  ∧ (∃ current, entry (pinned_buffer_sizes_ (mgr_ s')) d g = Some current ∧ size' ≤ current)
  ∧ (∀ i j x, (i, j) ≠ (d, g) →
       (entry (pinned_host_buffers_ (mgr_ s)) i j = Some x →
        entry (pinned_host_buffers_ (mgr_ s')) i j = Some x)
       ∧ (entry (pinned_device_buffers_ (mgr_ s)) i j = Some x →
          entry (pinned_device_buffers_ (mgr_ s')) i j = Some x)
       ∧ (entry (pinned_buffer_sizes_ (mgr_ s)) i j = Some x →
          entry (pinned_buffer_sizes_ (mgr_ s')) i j = Some x))
  ∧ ((s' = s
      ∧ ∃ current, entry (pinned_buffer_sizes_ (mgr_ s)) d g = Some current
                   ∧ size' ≤ current)
     ∨ (∃ ha da,
          (∀ current, entry (pinned_buffer_sizes_ (mgr_ s)) d g = Some current →
                      current < size')
          ∧ status ha = cudaSuccess ∧ status da = cudaSuccess
          ∧ p = size_t (out1 da)
          ∧ entry (pinned_host_buffers_ (mgr_ s')) d g = Some (size_t (out1 ha))
          ∧ entry (pinned_buffer_sizes_ (mgr_ s')) d g = Some size'
          ∧ mapped_from (trace (cuda s')) p = Some (size_t (out1 ha))
          ∧ new_events s s'
            = Release shared
              :: Called (cudaHostGetDevicePointer (size_t (out1 ha))) da
              :: Called (cudaHostAlloc size') ha
              :: match entry (pinned_host_buffers_ (mgr_ s)) d g with
                 | Some old =>
                     [Called (cudaFreeHost old) (answers (cuda s) (clock (cuda s)))]
                 | None => []
                 end ++ [Acquire shared])).
Proof.
  intros Hal H d g size'.
  apply pinned_buffer_Ok_inv in H as (Hd & Hg & Hcases); [|done].
  fold d g size' in Hcases.
  destruct Hcases as [(cur & Hcur & Hle & -> & Hp)
                     |(freed & ha & da & Hsmall & Hha & Hda & -> & Hmgr & _ & _ & Htr & ->)].
  - split; [done|]. split; [done|]. split; [eauto|].
    split; [by intros i j x _|]. left. eauto.
  - pose proof (with_room_aligned device group _ Hal) as Hal1.
    set (m1 := with_room device group (mgr_ s)) in *.
    assert (Hroom : ∀ v : list (list Z), is_Some (entry (grow_table d g v) d g)).
    { intros v. rewrite grow_table_entry. eauto. }
    rewrite Hmgr. cbn [pinned_host_buffers_ pinned_device_buffers_ pinned_buffer_sizes_
                        with_pinned].
    split; [by apply put_aligned|].
    split; [apply entry_put_eq, Hroom|].
    split; [exists size'; split; [apply entry_put_eq, Hroom|lia]|].
    split.
    { intros i j x Hne. rewrite !entry_put_ne by done.
      subst m1. cbn. repeat split; apply grow_table_kept. }
    right. exists ha, da.
    split; [done|]. split; [done|]. split; [done|]. split; [done|].
    split; [apply entry_put_eq, Hroom|].
    split; [apply entry_put_eq, Hroom|].
    split.
    { rewrite Htr. cbn [mapped_from]. unfold succeeded.
      rewrite bool_decide_eq_true_2 by done. by rewrite Z.eqb_refl. }
    erewrite new_events_app; [reflexivity|].
    rewrite Htr. cbn [app]. by rewrite <- app_assoc.
Qed.

Lemma pinned_buffer_replaces_entry_witness :
  let s1 := (pinned_buffer 1024 0 0 (start 1 resize_oracle)).2 in
  let r := pinned_buffer 4096 0 0 s1 in
  r.1 = Ok 16384
  ∧ entry (pinned_host_buffers_ (mgr_ r.2)) 0 0 = Some 12288
  ∧ entry (pinned_device_buffers_ (mgr_ r.2)) 0 0 = Some 16384
  ∧ entry (pinned_buffer_sizes_ (mgr_ r.2)) 0 0 = Some 4096
  ∧ pinned_aligned (mgr_ r.2).
Proof.
  intros s1 r.
  assert (Hrun : pinned_buffer 4096 0 0 s1 = (Ok 16384, r.2)) by (vm_compute; reflexivity).
  destruct (pinned_buffer_replaces_entry 4096 0 0 s1 16384 r.2)
    as (Hal & Hdev & _); [split; reflexivity | exact Hrun |].
  split; [vm_compute; reflexivity|]. split; [vm_compute; reflexivity|].
  split; [exact Hdev|]. split; [vm_compute; reflexivity | exact Hal].
Defined.

(** [pinned_buffer] for an entry that is large enough. *)
Lemma pinned_buffer_present size device group s current p :
  0 ≤ device < INT_MAX → 0 ≤ group < INT_MAX →
  entry (pinned_buffer_sizes_ (mgr_ s)) (Z.to_nat device) (Z.to_nat group) = Some current →
  Z.max size INITIAL_PINNED_BYTES ≤ current →
  entry (pinned_device_buffers_ (mgr_ s)) (Z.to_nat device) (Z.to_nat group) = Some p →
  pinned_buffer size device group s = (Ok p, s).
Proof.
  intros Hdr Hgr Hcur Hle Hp. unfold pinned_buffer.
  pose proof (proj1 Hdr) as Hd. pose proof (proj1 Hgr) as Hg.
  rewrite (bind_Ok _ _ _ _ _ (resize_buffers_present _ _ _ _ Hdr Hgr Hcur)).
  rewrite (bind_Ok get_mgr _ s (mgr_ s) s) by reflexivity.
  rewrite (bind_Ok _ _ _ _ _ (at2_Ok _ _ _ _ _ Hd Hg Hcur)).
  destruct (Z.ltb_spec current (Z.max size INITIAL_PINNED_BYTES)); [lia|].
  cbn [orb when].
  rewrite (bind_Ok (mret tt) _ s tt s) by reflexivity.
  rewrite (bind_Ok get_mgr _ s (mgr_ s) s) by reflexivity.
  by apply at2_Ok.
Qed.

(** X15. After a [pinned_buffer] that returned, on tables that are
    aligned, a [pinned_buffer] for the same device and group and a size
    that is not larger (or not larger than 64) returns the same pointer
    and leaves the process as it is: no call is made, nothing is freed or
    allocated. *)
Theorem pinned_buffer_again_is_noop size1 size2 device group s p s1 :
  pinned_aligned (mgr_ s) →
  pinned_buffer size1 device group s = (Ok p, s1) →
  size2 ≤ Z.max size1 INITIAL_PINNED_BYTES →
  pinned_buffer size2 device group s1 = (Ok p, s1).
Proof.
  intros Hal H Hle.
  pose proof H as (Hd & Hg & _)%pinned_buffer_Ok_inv; [|done].
  pose proof (pinned_buffer_range _ _ _ _ _ _ H) as [Hdmax Hgmax].
  destruct (pinned_buffer_entry _ _ _ _ _ _ Hal H) as (_ & Hp & cur & Hcur & Hge).
  eapply pinned_buffer_present; [done..| |done]. lia.
Qed.

Lemma pinned_buffer_again_is_noop_witness :
  let s1 := (pinned_buffer 1024 0 0 (start 1 resize_oracle)).2 in
  pinned_buffer 1024 0 0 (start 1 resize_oracle) = (Ok 8192, s1)
  ∧ pinned_buffer 512 0 0 s1 = (Ok 8192, s1).
Proof.
  intros s1.
  assert (Hrun : pinned_buffer 1024 0 0 (start 1 resize_oracle) = (Ok 8192, s1))
    by (vm_compute; reflexivity).
  split; [exact Hrun|].
  apply (pinned_buffer_again_is_noop 1024 512 0 0 (start 1 resize_oracle) 8192 s1);
    [split; reflexivity | exact Hrun | vm_compute; discriminate].
Defined.

Lemma vector_resize_Ok {A} n (d : A) v s :
  n ≤ vector_max_size → vector_resize n d v s = (Ok (resize (Z.to_nat n) d v), s).
Proof. intros Hn. unfold vector_resize. by destruct (Z.ltb_spec vector_max_size n); [lia|]. Qed.

Lemma resize_row_Ok {A} (v : list (list A)) i n d row s :
  0 ≤ i → n ≤ vector_max_size → v !! Z.to_nat i = Some row →
  resize_row v i n d s = (Ok (<[Z.to_nat i := resize (Z.to_nat n) d row]> v), s).
Proof.
  intros Hi Hn Hrow. unfold resize_row.
  rewrite (bind_Ok _ _ _ _ _ (at_Ok _ _ _ _ Hi Hrow)).
  by rewrite (bind_Ok _ _ _ _ _ (vector_resize_Ok _ _ _ _ Hn)).
Qed.

(** [resize_buffers] returns for indices whose successor is in the range
    of [int]. *)
Lemma resize_buffers_returns device group s :
  pinned_aligned (mgr_ s) →
  0 ≤ device < INT_MAX → 0 ≤ group < INT_MAX →
  ∃ b s1, resize_buffers device group s = (Ok b, s1).
Proof.
  intros [Hh Hdv] Hd Hg. unfold resize_buffers.
  rewrite (bind_Ok _ _ _ _ _ (CHECK_true _ _ (proj2 (Z.leb_le _ _) (proj1 Hd)))).
  rewrite (bind_Ok _ _ _ _ _ (CHECK_true _ _ (proj2 (Z.leb_le _ _) (proj1 Hg)))).
  rewrite (bind_Ok get_mgr _ s (mgr_ s) s) by reflexivity.
  rewrite (bind_Ok _ _ _ _ _ (int_add_Ok device 1 s ltac:(unfold INT_MIN; lia))).
  assert (Hmax : device + 1 ≤ vector_max_size ∧ group + 1 ≤ vector_max_size)
    by (unfold vector_max_size, INT_MAX in *; lia).
  destruct Hmax as [Hmd Hmg].
  assert (∃ b1 s1,
    (if vector_size (pinned_buffer_sizes_ (mgr_ s)) <? device + 1
     then h ← vector_resize (device + 1) [] (pinned_host_buffers_ (mgr_ s));
          d ← vector_resize (device + 1) [] (pinned_device_buffers_ (mgr_ s));
          sz ← vector_resize (device + 1) [] (pinned_buffer_sizes_ (mgr_ s));
          modify_mgr (with_pinned h d sz);; mret true
     else mret false) s = (Ok b1, s1)
    ∧ pinned_aligned (mgr_ s1)
    ∧ (Z.to_nat device < length (pinned_buffer_sizes_ (mgr_ s1)))%nat)
    as (b1 & s1 & Hfirst & [Hh1 Hd1] & Hlen).
  { unfold vector_size.
    destruct (Z.ltb_spec (Z.of_nat (length (pinned_buffer_sizes_ (mgr_ s)))) (device + 1)).
    - rewrite (bind_Ok _ _ _ _ _ (vector_resize_Ok _ _ _ _ Hmd)).
      rewrite (bind_Ok _ _ _ _ _ (vector_resize_Ok _ _ _ _ Hmd)).
      rewrite (bind_Ok _ _ _ _ _ (vector_resize_Ok _ _ _ _ Hmd)).
      do 2 eexists. split; [reflexivity|]. tidy.
      split; [split; by apply shape_resize|]. rewrite length_resize. lia.
    - do 2 eexists. split; [reflexivity|]. split; [done|]. lia. }
  rewrite (bind_Ok _ _ _ _ _ Hfirst).
  rewrite (bind_Ok get_mgr _ s1 (mgr_ s1) s1) by reflexivity.
  rewrite (bind_Ok _ _ _ _ _ (int_add_Ok group 1 s1 ltac:(unfold INT_MIN; lia))).
  destruct (lookup_lt_is_Some_2 _ _ Hlen) as [row Hrow].
  rewrite (bind_Ok _ _ _ _ _ (at_Ok _ _ _ _ (proj1 Hd) Hrow)).
  destruct (vector_size row <? group + 1); [|eauto].
  assert (is_Some (pinned_host_buffers_ (mgr_ s1) !! Z.to_nat device)) as [rh Hrh].
  { apply lookup_lt_is_Some. rewrite (shape_length _ _ Hh1). done. }
  assert (is_Some (pinned_device_buffers_ (mgr_ s1) !! Z.to_nat device)) as [rd Hrd].
  { apply lookup_lt_is_Some. rewrite (shape_length _ _ Hd1). done. }
  rewrite (bind_Ok _ _ _ _ _ (resize_row_Ok _ _ _ _ _ _ (proj1 Hd) Hmg Hrh)).
  rewrite (bind_Ok _ _ _ _ _ (resize_row_Ok _ _ _ _ _ _ (proj1 Hd) Hmg Hrd)).
  rewrite (bind_Ok _ _ _ _ _ (resize_row_Ok _ _ _ _ _ _ (proj1 Hd) Hmg Hrow)).
  eauto.
Qed.

Lemma CUDA_CHECK_Ok a s : status a = cudaSuccess → CUDA_CHECK a s = (Ok tt, s).
Proof.
  intros Ha. unfold CUDA_CHECK, succeeded. by rewrite bool_decide_eq_true_2.
Qed.

(** The allocation of [pinned_buffer], when the driver's two calls
    succeed and the tables have the entry. *)
Lemma pinned_allocation_Ok size' device group m1 sa :
  0 ≤ device → 0 ≤ group →
  mgr_ sa = m1 →
  is_Some (entry (pinned_host_buffers_ m1) (Z.to_nat device) (Z.to_nat group)) →
  is_Some (entry (pinned_device_buffers_ m1) (Z.to_nat device) (Z.to_nat group)) →
  is_Some (entry (pinned_buffer_sizes_ m1) (Z.to_nat device) (Z.to_nat group)) →
  status (answers (cuda sa) (clock (cuda sa))) = cudaSuccess →
  status (answers (cuda sa) (S (clock (cuda sa)))) = cudaSuccess →
  ∃ sb,
    (ha ← call (cudaHostAlloc size');
     h ← store2 (pinned_host_buffers_ m1) device group (size_t (out1 ha));
     modify_mgr (λ m, with_pinned h (pinned_device_buffers_ m) (pinned_buffer_sizes_ m) m);;
     CUDA_CHECK ha;;
     da ← call (cudaHostGetDevicePointer (size_t (out1 ha)));
     d ← store2 (pinned_device_buffers_ m1) device group (size_t (out1 da));
     modify_mgr (λ m, with_pinned (pinned_host_buffers_ m) d (pinned_buffer_sizes_ m) m);;
     CUDA_CHECK da;;
     sz ← store2 (pinned_buffer_sizes_ m1) device group size';
     modify_mgr (λ m, with_pinned (pinned_host_buffers_ m) (pinned_device_buffers_ m) sz m);;
     emit (Release shared)) sa = (Ok tt, sb)
    ∧ is_Some (entry (pinned_device_buffers_ (mgr_ sb)) (Z.to_nat device) (Z.to_nat group)).
Proof.
  intros Hd Hg Hm Hh Hdv Hsz Ha Hb.
  rewrite (bind_Ok (call _) _ _ _ _) by reflexivity.
  rewrite (bind_Ok _ _ _ _ _ (store2_Ok _ _ _ _ _ Hd Hg Hh)).
  rewrite (bind_Ok (modify_mgr _) _ _ tt _) by reflexivity.
  rewrite (bind_Ok _ _ _ _ _ (CUDA_CHECK_Ok _ _ Ha)).
  rewrite (bind_Ok (call _) _ _ _ _) by reflexivity.
  rewrite (bind_Ok _ _ _ _ _ (store2_Ok _ _ _ _ _ Hd Hg Hdv)).
  rewrite (bind_Ok (modify_mgr _) _ _ tt _) by reflexivity.
  rewrite (bind_Ok _ _ _ _ _ (CUDA_CHECK_Ok _ _ Hb)).
  rewrite (bind_Ok _ _ _ _ _ (store2_Ok _ _ _ _ _ Hd Hg Hsz)).
  rewrite (bind_Ok (modify_mgr _) _ _ tt _) by reflexivity.
  eexists. split; [reflexivity|]. tidy.
  rewrite entry_put_eq by done. eauto.
Qed.



(** X17. The two pools check their arguments differently.
    [pinned_buffer] aborts on a negative device or group, the process
    left as it was.  [thread_pinned_buffer] aborts on size 0, the process
    left as it was; it does not check its group: given group -1 it
    leaves [sizes] as it is ([group + 1U] is 0) and indexes it outside
    its bounds. *)
Theorem pinned_pools_check_arguments :
  (∀ size device group s,
     device < 0 ∨ group < 0 → pinned_buffer size device group s = (Fatal, s))
  ∧ (∀ size group s, size ≤ 0 → thread_pinned_buffer size group s = (Fatal, s))
  ∧ (∀ size s, 0 < size → thread_pinned_buffer size (-1) s = (Undefined, s)).
Proof.
  split; [|split].
  - intros size device group s Hneg.
    unfold pinned_buffer, resize_buffers, CHECK, mbind, M_bind, fatal, mret, M_ret.
    destruct (Z.leb_spec 0 device); [|done].
    destruct (Z.leb_spec 0 group); [lia|done].
  - intros size group s Hsize.
    unfold thread_pinned_buffer, CHECK, mbind, M_bind, fatal.
    by destruct (Z.ltb_spec 0 size); [lia|].
  - intros size s Hsize.
    unfold thread_pinned_buffer, CHECK, mbind, M_bind, mret, M_ret, get_thread_local,
      when, at_, undefined.
    destruct (Z.ltb_spec 0 size); [|lia].
    change (uint (-1 + 1)) with 0. unfold vector_size.
    destruct (Z.ltb_spec (Z.of_nat (length (sizes (thread_local_ s)))) 0); [lia|].
    reflexivity.
Qed.

Lemma pinned_pools_check_arguments_witness :
  pinned_buffer 128 0 (-1) after_init = (Fatal, after_init)
  ∧ thread_pinned_buffer 128 (-1) after_init = (Undefined, after_init).
Proof.
  destruct pinned_pools_check_arguments as (Hpool & _ & Hthread).
  split; [apply Hpool; lia | apply Hthread; lia].
Defined.

(** ** Sequences of requests to the process-wide pool *)

Lemma pinned_buffer_sizes_grow size device group s p s' :
  pinned_aligned (mgr_ s) →
  pinned_buffer size device group s = (Ok p, s') → sizes_grow s s'.
Proof.
  intros Hal H i j x Hx.
  apply pinned_buffer_Ok_inv in H as (Hd & Hg & Hcases); [|done].
  destruct Hcases as [(cur & Hcur & Hle & -> & Hp)
                     |(freed & ha & da & Hsmall & Hha & Hda & -> & Hmgr & _)].
  - exists x. split; [done|lia].
  - rewrite Hmgr. cbn [pinned_buffer_sizes_ with_pinned with_room].
    destruct (decide ((i, j) = (Z.to_nat device, Z.to_nat group))) as [[= -> ->]|Hne].
    + eexists. rewrite entry_put_eq by (rewrite grow_table_entry; eauto).
      split; [done|]. specialize (Hsmall _ Hx). lia.
    + exists x. rewrite entry_put_ne by done.
      split; [by apply grow_table_kept|lia].
Qed.

(** X18. The tables of the process-wide pinned pool are aligned when
    the manager is constructed, and over every sequence of [pinned_buffer]
    calls that return they stay aligned, no recorded size goes down, and
    at the end the entry of each request holds a size that is not below the
    size asked for, and not below 64. *)
Theorem pinned_pool_sizes_grow :
  (∀ count oracle, pinned_aligned (mgr_ (start count oracle)))
  ∧ ∀ l s s',
      pinned_aligned (mgr_ s) →
      requests l s = (Ok tt, s') →
      pinned_aligned (mgr_ s') ∧ sizes_grow s s' ∧ Forall (served s') l.
Proof.
  split; [by split|].
  induction l as [|[[size device] group] rest IH]; intros s s' Hal H; cbn [requests] in H.
  - finish H. split; [done|]. split; [|constructor].
    intros i j x Hx. exists x. split; [done|lia].
  - first_action H Hone.
    destruct (pinned_buffer_entry _ _ _ _ _ _ Hal Hone) as (Hal1 & _ & cur & Hcur & Hle).
    pose proof (pinned_buffer_sizes_grow _ _ _ _ _ _ Hal Hone) as Hgrow1.
    destruct (IH _ _ Hal1 H) as (Hal' & Hgrow & Hall).
    split; [done|]. split; [|constructor; [|done]].
    + intros i j x Hx. destruct (Hgrow1 _ _ _ Hx) as (y & Hy & Hxy).
      destruct (Hgrow _ _ _ Hy) as (z & Hz & Hyz). exists z. split; [done|lia].
    + destruct (Hgrow _ _ _ Hcur) as (z & Hz & Hcz). exists z. cbn. split; [done|lia].
Qed.

Lemma pinned_pool_sizes_grow_witness :
  let l := [(1024, 0, 0); (100, 0, 1); (4096, 0, 0)] in
  let oracle := script [ok 4096 0; ok 8192 0; ok 12288 0; ok 16384 0;
                        ok 0 0; ok 20480 0; ok 24576 0] in
  let r := requests l (start 1 oracle) in
  r.1 = Ok tt
  ∧ pinned_buffer_sizes_ (mgr_ r.2) = [[4096; 100]]
  ∧ Forall (served r.2) l.
Proof.
  intros l oracle r.
  assert (Hrun : requests l (start 1 oracle) = (Ok tt, r.2)) by (vm_compute; reflexivity).
  destruct pinned_pool_sizes_grow as [Hstart Hkeep].
  destruct (Hkeep l (start 1 oracle) r.2 (Hstart 1%nat oracle) Hrun) as (_ & _ & Hall).
  split; [vm_compute; reflexivity|]. split; [vm_compute; reflexivity|]. exact Hall.
Defined.

(** ** The thread's own pinned pool *)

Lemma emplaced_subseteq m key p : m ⊆ emplaced m key p.
Proof.
  unfold emplaced. destruct (m !! key) eqn:E; [done|]. by apply insert_subseteq.
Qed.

Lemma emplaced_lookup m key p :
  emplaced m key p !! key = Some (default p (m !! key)).
Proof.
  unfold emplaced. destruct (m !! key) eqn:E; [by rewrite E|]. by rewrite lookup_insert_eq.
Qed.

Lemma sizes_with_room_lookup group v i c :
  v !! i = Some c → sizes_with_room group v !! i = Some c.
Proof.
  intros Hc. unfold sizes_with_room, vector_size.
  destruct (Z.ltb_spec (Z.of_nat (length v)) (uint (group + 1))); [|done].
  apply lookup_lt_Some in Hc as Hlt. rewrite lookup_resize by lia. done.
Qed.

(** What [thread_pinned_buffer] does when it returns. *)
Lemma thread_pinned_buffer_Ok_inv size group s p s' :
  thread_pinned_buffer size group s = (Ok p, s') →
  0 < size ∧ 0 ≤ group ∧ mgr_ s' = mgr_ s
  ∧ ((s' = s
      ∧ ∃ current, sizes (thread_local_ s) !! Z.to_nat group = Some current
                   ∧ size ≤ current
                   ∧ device_buffers (thread_local_ s) !! group = Some p)
     ∨ (let ha := answers (cuda s) (clock (cuda s)) in
        let da := answers (cuda s) (S (clock (cuda s))) in
        let t := thread_local_ s in
        status ha = cudaSuccess ∧ status da = cudaSuccess
        ∧ (∀ current, sizes t !! Z.to_nat group = Some current → current < size)
        ∧ thread_local_ s'
          = mkThreadLocal (emplaced (host_buffers t) group (size_t (out1 ha)))
                          (emplaced (device_buffers t) group (size_t (out1 da)))
                          (<[Z.to_nat group := size]> (sizes_with_room group (sizes t)))
        ∧ (Z.to_nat group < length (sizes_with_room group (sizes t)))%nat
        ∧ p = default (size_t (out1 da)) (device_buffers t !! group)
        ∧ ∃ later,
            trace (cuda s')
            = later ++ Called (cudaHostGetDevicePointer (size_t (out1 ha))) da
                    :: Called (cudaHostAlloc size) ha :: trace (cuda s)
            ∧ (host_buffers t !! group = None → later = []))).
Proof.
  intros H.
  pose proof (thread_pinned_buffer_manager _ _ _ _ _ H) as Hmgr. red in Hmgr.
  unfold thread_pinned_buffer in H.
  step H. apply Z.ltb_lt in H0. split; [done|].
  step H. first_action H Hroom.
  set (t := thread_local_ s) in *.
  assert (s0 = set_thread_local (with_sizes (sizes_with_room group (sizes t))) s) as ->.
  { unfold sizes_with_room, when in *. destruct (_ <? _).
    - first_action Hroom Hr. apply vector_resize_Ok_inv in Hr as [-> ->]. by finish Hroom.
    - finish Hroom. subst t. by destruct s as [? [] ?]. }
  clear Hroom. step H. step H. tidy.
  match goal with Hc : sizes_with_room _ _ !! _ = Some ?c |- _ =>
    rename Hc into Hcur; set (cur := c) in * end.
  split; [done|]. split; [done|].
  pose proof (lookup_lt_Some _ _ _ Hcur) as Hlen.
  first_action H Hgrow.
  destruct (Z.ltb_spec cur size) as [Hlt|Hge]; cbn [when] in Hgrow.
  - right. run Hgrow.
    first_action Hgrow Hhost.
    match type of Hhost with _ = (Ok ?m, ?st) =>
      assert (∃ later,
              m = emplaced (host_buffers t) group
                     (size_t (out1 (answers (cuda s) (clock (cuda s)))))
              ∧ thread_local_ st = with_sizes (sizes_with_room group (sizes t)) t
              ∧ mgr_ st = mgr_ s
              ∧ answers (cuda st) = answers (cuda s)
              ∧ trace (cuda st)
                = later ++ Called (cudaHostGetDevicePointer
                                     (size_t (out1 (answers (cuda s) (clock (cuda s))))))
                             (answers (cuda s) (S (clock (cuda s))))
                        :: Called (cudaHostAlloc size) (answers (cuda s) (clock (cuda s)))
                        :: trace (cuda s)
              ∧ (host_buffers t !! group = None → later = []))
      as (later & -> & Htl0 & Hm0 & Han0 & Htr0 & Hnone)
    end.
    { unfold emplace, emplaced in *. fold t in Hhost.
      destruct (host_buffers t !! group) eqn:E.
      - first_action Hhost Hclean. finish Hhost.
        apply host_cleanup_Ok_inv in Hclean as [[Hz ->]|(Hnz & Hst & ->)].
        + exists []. by repeat split.
        + eexists [_; _; _]. by repeat split.
      - finish Hhost. exists []. by repeat split. }
    clear Hhost. step Hgrow. step Hgrow. tidy. rewrite Htl0 in Hgrow. tidy.
    first_action Hgrow Hdev.
    match type of Hdev with _ ?sa = (Ok ?m, ?st) =>
      assert (m = emplaced (device_buffers t) group
                    (size_t (out1 (answers (cuda s) (S (clock (cuda s))))))
              ∧ st = sa) as [-> ->]
    end.
    { unfold emplace, emplaced in *.
      destruct (device_buffers t !! group) eqn:E.
      - first_action Hdev Hclean. finish Hdev.
        by apply device_cleanup_Ok_inv in Hclean as ->.
      - by finish Hdev. }
    clear Hdev. step Hgrow. step Hgrow. finish Hgrow. tidy. rewrite Htl0 in H. tidy.
    step H. tidy. rewrite emplaced_lookup in H. finish H. tidy. rewrite Htl0. tidy.
    split; [done|]. split; [done|].
    split.
    { intros c Hc. apply (sizes_with_room_lookup group) in Hc.
      assert (c = cur) by congruence. lia. }
    split; [done|]. split; [done|]. split; [done|].
    exists later. done.
  - left. finish Hgrow. step H.
    destruct (device_buffers (thread_local_ _) !! group) as [p'|] eqn:Ep; [|discriminate].
    finish H. tidy. fold t in Ep.
    assert (sizes_with_room group (sizes t) = sizes t) as Heq.
    { unfold sizes_with_room in *. unfold vector_size in *.
      destruct (Z.ltb_spec (Z.of_nat (length (sizes t))) (uint (group + 1))); [|done].
      exfalso. rewrite length_resize in Hlen.
      destruct (decide (Z.to_nat group < length (sizes t))%nat).
      - pose proof (uint_le (group + 1)). lia.
      - rewrite lookup_resize_new in Hcur by lia. subst cur. simplify_eq. lia. }
    rewrite Heq in *.
    split; [subst t; by destruct s as [? [] ?]|]. exists cur. done.
Qed.

(** X19. The first request of a thread for a group (its two maps have
    no entry for it): when [thread_pinned_buffer] returns, it has
    allocated a host buffer of the size asked for and mapped it, both calls
    succeeding; the maps now hold that host buffer and its device pointer
    for the group, the size is recorded, and the pointer returned is that
    device pointer.  Nothing was freed, the mutex was not taken, and the
    manager is as before. *)
Theorem thread_pinned_buffer_first size group s p s' :
  host_buffers (thread_local_ s) !! group = None →
  device_buffers (thread_local_ s) !! group = None →
  thread_pinned_buffer size group s = (Ok p, s') →
  let ha := answers (cuda s) (clock (cuda s)) in
  let da := answers (cuda s) (S (clock (cuda s))) in
  status ha = cudaSuccess ∧ status da = cudaSuccess
  ∧ p = size_t (out1 da)
  ∧ host_buffers (thread_local_ s')
    = <[group := size_t (out1 ha)]> (host_buffers (thread_local_ s))
  ∧ device_buffers (thread_local_ s') = <[group := p]> (device_buffers (thread_local_ s))
  ∧ sizes (thread_local_ s') !! Z.to_nat group = Some size
  ∧ new_events s s'
    = [Called (cudaHostGetDevicePointer (size_t (out1 ha))) da;
       Called (cudaHostAlloc size) ha]
  ∧ mapped_from (trace (cuda s')) p = Some (size_t (out1 ha))
  ∧ mgr_ s' = mgr_ s.
Proof.
  intros Hh Hd H ha da.
  apply thread_pinned_buffer_Ok_inv in H as (Hsize & Hg & Hmgr & Hcases).
  destruct Hcases as [(-> & cur & _ & _ & Hp)
                     |(Hha & Hda & _ & Htl & Hlen & -> & later & Htr & Hnone)];
    [congruence|].
  rewrite (Hnone Hh) in Htr. cbn [app] in Htr.
  rewrite Htl, Hd. unfold emplaced. rewrite Hh, Hd. cbn.
  split; [done|]. split; [done|]. split; [done|]. split; [done|]. split; [done|].
  split; [by apply list_lookup_insert_eq|].
  split; [by erewrite (new_events_app _ _ [_; _]) by exact Htr|].
  split; [|done].
  rewrite Htr. cbn [mapped_from]. unfold succeeded.
  rewrite bool_decide_eq_true_2 by done. by rewrite Z.eqb_refl.
Qed.

Lemma thread_pinned_buffer_first_witness :
  let r := thread_pinned_buffer 64 0 (start 1 pool_oracle) in
  r.1 = Ok 8192
  ∧ host_buffers (thread_local_ r.2) = {[0 := 4096]}
  ∧ sizes (thread_local_ r.2) = [64].
Proof.
  intros r.
  assert (Hrun : thread_pinned_buffer 64 0 (start 1 pool_oracle) = (Ok 8192, r.2))
    by (vm_compute; reflexivity).
  destruct (thread_pinned_buffer_first 64 0 (start 1 pool_oracle) 8192 r.2)
    as (_ & _ & _ & Hhost & _); [reflexivity | reflexivity | exact Hrun |].
  split; [vm_compute; reflexivity|]. split; [exact Hhost|]. vm_compute. reflexivity.
Defined.

(** [thread_pinned_buffer] for a group whose buffer is large enough. *)
Lemma thread_pinned_buffer_present size group s current p :
  0 < size → 0 ≤ group →
  sizes (thread_local_ s) !! Z.to_nat group = Some current →
  size ≤ current →
  device_buffers (thread_local_ s) !! group = Some p →
  thread_pinned_buffer size group s = (Ok p, s).
Proof.
  intros Hsize Hg Hcur Hle Hp. unfold thread_pinned_buffer.
  rewrite (bind_Ok _ _ _ _ _ (CHECK_true _ _ (proj2 (Z.ltb_lt _ _) Hsize))).
  rewrite (bind_Ok get_thread_local _ s (thread_local_ s) s) by reflexivity.
  pose proof (lookup_lt_Some _ _ _ Hcur) as Hlen.
  assert ((vector_size (sizes (thread_local_ s)) <? uint (group + 1)) = false) as ->.
  { apply Z.ltb_ge. unfold vector_size. pose proof (uint_le (group + 1)). lia. }
  cbn [when].
  rewrite (bind_Ok (mret tt) _ s tt s) by reflexivity.
  rewrite (bind_Ok get_thread_local _ s (thread_local_ s) s) by reflexivity.
  rewrite (bind_Ok _ _ _ _ _ (at_Ok _ _ _ _ Hg Hcur)).
  destruct (Z.ltb_spec current size); [lia|]. cbn [when].
  rewrite (bind_Ok (mret tt) _ s tt s) by reflexivity.
  rewrite (bind_Ok get_thread_local _ s (thread_local_ s) s) by reflexivity.
  by rewrite Hp.
Qed.

(** The entry of the group after a [thread_pinned_buffer] that
    returned. *)
Lemma thread_pinned_buffer_entry size group s p s' :
  thread_pinned_buffer size group s = (Ok p, s') →
  0 < size ∧ 0 ≤ group
  ∧ device_buffers (thread_local_ s') !! group = Some p
  ∧ ∃ current, sizes (thread_local_ s') !! Z.to_nat group = Some current ∧ size ≤ current.
Proof.
  intros H.
  apply thread_pinned_buffer_Ok_inv in H as (Hsize & Hg & Hmgr & Hcases).
  split; [done|]. split; [done|].
  destruct Hcases as [(-> & cur & Hcur & Hle & Hp)
                     |(Hha & Hda & _ & Htl & Hlen & -> & _)].
  - eauto.
  - rewrite Htl. cbn. rewrite emplaced_lookup. split; [done|].
    exists size. split; [by apply list_lookup_insert_eq|lia].
Qed.

(** X20. After a [thread_pinned_buffer] that returned, a
    [thread_pinned_buffer] of the same thread for the same group and a
    size that is not larger (and not 0) returns the same pointer and leaves
    the process as it is: no call is made. *)
Theorem thread_pinned_buffer_again_is_noop size1 size2 group s p s1 :
  thread_pinned_buffer size1 group s = (Ok p, s1) →
  0 < size2 ≤ size1 →
  thread_pinned_buffer size2 group s1 = (Ok p, s1).
Proof.
  intros H [Hpos Hle].
  apply thread_pinned_buffer_entry in H as (_ & Hg & Hp & cur & Hcur & Hge).
  eapply thread_pinned_buffer_present; [done..| |done]. lia.
Qed.

Lemma thread_pinned_buffer_again_is_noop_witness :
  let s1 := (thread_pinned_buffer 64 0 (start 1 pool_oracle)).2 in
  thread_pinned_buffer 64 0 (start 1 pool_oracle) = (Ok 8192, s1)
  ∧ thread_pinned_buffer 32 0 s1 = (Ok 8192, s1).
Proof.
  intros s1.
  assert (Hrun : thread_pinned_buffer 64 0 (start 1 pool_oracle) = (Ok 8192, s1))
    by (vm_compute; reflexivity).
  split; [exact Hrun|].
  apply (thread_pinned_buffer_again_is_noop 64 32 0 (start 1 pool_oracle) 8192 s1 Hrun). lia.
Defined.

(** X21. [thread_pinned_buffer] never replaces or removes an entry of
    the thread's two maps: when it returns, every entry the maps had is as
    it was, the pointer returned is the device pointer the map holds for
    the group, no recorded size has gone down, and the size recorded
    for the group is not below the size asked for. *)
Theorem thread_pinned_buffer_keeps_entries size group s p s' :
  thread_pinned_buffer size group s = (Ok p, s') →
  host_buffers (thread_local_ s) ⊆ host_buffers (thread_local_ s')
  ∧ device_buffers (thread_local_ s) ⊆ device_buffers (thread_local_ s')
  ∧ device_buffers (thread_local_ s') !! group = Some p
  ∧ (∀ i x, sizes (thread_local_ s) !! i = Some x →
            ∃ y, sizes (thread_local_ s') !! i = Some y ∧ x ≤ y)
  ∧ ∃ current, sizes (thread_local_ s') !! Z.to_nat group = Some current ∧ size ≤ current.
Proof.
  intros H.
  pose proof (thread_pinned_buffer_entry _ _ _ _ _ H) as (_ & _ & Hp & Hcur).
  apply thread_pinned_buffer_Ok_inv in H as (Hsize & Hg & Hmgr & Hcases).
  destruct Hcases as [(-> & _)|(Hha & Hda & Hsmall & Htl & Hlen & -> & _)].
  - split; [done|]. split; [done|]. split; [done|]. split; [|done].
    intros i x Hx. exists x. split; [done|lia].
  - rewrite Htl in *. cbn in *.
    split; [apply emplaced_subseteq|]. split; [apply emplaced_subseteq|].
    split; [done|]. split; [|done].
    intros i x Hx. destruct (decide (i = Z.to_nat group)) as [->|Hne].
    + exists size. rewrite list_lookup_insert_eq by done. split; [done|].
      specialize (Hsmall _ Hx). lia.
    + exists x. rewrite list_lookup_insert_ne by done.
      split; [by apply sizes_with_room_lookup|lia].
Qed.

Lemma thread_pinned_buffer_keeps_entries_witness :
  let s1 := (thread_pinned_buffer 64 0 (start 1 pool_oracle)).2 in
  let r := thread_pinned_buffer 128 0 s1 in
  r.1 = Ok 8192
  ∧ host_buffers (thread_local_ s1) ⊆ host_buffers (thread_local_ r.2)
  ∧ device_buffers (thread_local_ r.2) !! 0 = Some 8192.
Proof.
  intros s1 r.
  assert (Hrun : thread_pinned_buffer 128 0 s1 = (Ok 8192, r.2)) by (vm_compute; reflexivity).
  destruct (thread_pinned_buffer_keeps_entries 128 0 s1 8192 r.2 Hrun) as (Hh & _ & Hd & _).
  split; [vm_compute; reflexivity|]. split; [exact Hh | exact Hd].
Defined.

(** ** [try_allocate] served from the cache *)

(** X22. A [try_allocate] on an initialized manager that cub serves
    without carving new bytes from the driver ([size_allocated] is 0),
    the driver's last error being clear, returns [true] with the pointer
    cub gave and the stream of the group, and leaves the manager as it
    is: no estimate is debited, no threshold moves, no query is made.
    Its calls are [cudaGetDevice], the stream of the group,
    [DeviceAllocate] and [cudaGetLastError], the second and the third
    under a shared hold of the mutex. *)
Theorem try_allocate_from_cache size device group s r s' :
  initialized_ (mgr_ s) = true →
  try_allocate size device group s = (Ok r, s') →
  let stream := answers (cuda s) (1 + clock (cuda s))%nat in
  let given := answers (cuda s) (2 + clock (cuda s))%nat in
  let last_err := answers (cuda s) (3 + clock (cuda s))%nat in
  status given = cudaSuccess →
  size_t (out2 given) = 0 →
  status last_err = cudaSuccess →
  r = (true, size_t (out1 given), out1 stream)
  ∧ mgr_ s' = mgr_ s
  ∧ thread_local_ s' = thread_local_ s
  ∧ new_events s s'
    = [Called cudaGetLastError last_err; Release shared;
       Called (cub_DeviceAllocate device size (out1 stream)) given;
       Called (Caffe_thread_pstream group) stream; Acquire shared;
       Called cudaGetDevice (answers (cuda s) (clock (cuda s)))].
Proof.
  intros Hinit H stream given last_err Hgiven Hzero Hlast.
  subst stream given last_err. cbn [Nat.add] in *.
  unfold try_allocate in H.
  run H. rewrite Hinit in H. cbn [negb when] in H. run H.
  destruct (cub_allocator_ (mgr_ s)); [|first_action H Hu; discriminate].
  run H.
  assert (Hs : ∀ ans, status ans = cudaSuccess → succeeded ans = true).
  { intros ans Ha. unfold succeeded. by apply bool_decide_eq_true_2. }
  rewrite (Hs _ Hgiven) in H.
  unfold account_allocation in H. rewrite Hzero in H.
  cbn [Z.ltb Z.compare when negb orb andb] in H.
  destruct (INVALID_DEVICE <? device); cbn [when] in H; run H;
    rewrite (Hs _ Hlast) in H; cbn [negb when] in H; run H; finish H;
    (split; [done|]); (split; [done|]); (split; [done|]);
    by erewrite (new_events_app _ _ [_; _; _; _; _; _]) by reflexivity.
Qed.

Lemma try_allocate_from_cache_witness :
  let s := with_oracle (script [ok 0 0; ok 7 0; ok 4096 0; ok 0 0]) after_init in
  let r := try_allocate 100 0 0 s in
  r.1 = Ok (true, 4096, 7) ∧ mgr_ r.2 = mgr_ s.
Proof.
  intros s r.
  assert (Hrun : try_allocate 100 0 0 s = (Ok (true, 4096, 7), r.2))
    by (vm_compute; reflexivity).
  split; [vm_compute; reflexivity|].
  destruct (try_allocate_from_cache 100 0 0 s _ r.2 eq_refl Hrun) as (_ & Hmgr & _);
    [reflexivity..|]. exact Hmgr.
Defined.

(** ** The mutex is released by whoever acquired it *)

Lemma holds_after_app evs2 evs1 d :
  holds_after (evs2 ++ evs1) d
  = match holds_after evs1 d with
    | Some n => holds_after evs2 n
    | None => None
    end.
Proof.
  induction evs2 as [|e evs2 IH]; cbn [app holds_after].
  - by destruct (holds_after evs1 d).
  - rewrite IH. by destruct (holds_after evs1 d).
Qed.

Lemma holds_after_calls evs d : Forall is_call evs → holds_after evs d = Some d.
Proof.
  induction 1 as [|e evs He _ IH]; [done|].
  cbn [holds_after]. rewrite IH. by destruct e.
Qed.

Lemma emits_brackets {A} (m : M A) d : emits is_call m → brackets d d m.
Proof.
  intros Hm s a s' H. destruct (Hm _ _ _ H) as (added & Htr & Hall).
  exists added. split; [done|]. by apply holds_after_calls.
Qed.

Section Brackets.
Context {A B : Type}.

Lemma brackets_bind d d1 d2 (m : M A) (k : A → M B) :
  brackets d d1 m → (∀ a, brackets d1 d2 (k a)) → brackets d d2 (m ≫= k).
Proof.
  intros Hm Hk s b s' H. apply bind_Ok_inv in H as (a & s1 & H1 & H2).
  destruct (Hm _ _ _ H1) as (added1 & Htr1 & Hd1).
  destruct (Hk a _ _ _ H2) as (added2 & Htr2 & Hd2).
  exists (added2 ++ added1). split.
  - by rewrite Htr2, Htr1, app_assoc.
  - by rewrite holds_after_app, Hd1.
Qed.

Lemma brackets_fatal d d' : brackets d d' (@fatal A).
Proof. intros s a s' H. discriminate. Qed.

Lemma brackets_undefined d d' : brackets d d' (@undefined A).
Proof. intros s a s' H. discriminate. Qed.

End Brackets.

Lemma brackets_acquire m : brackets 0 1 (emit (Acquire m)).
Proof. intros s a s' [= <- <-]. by exists [Acquire m]. Qed.

Lemma brackets_release m : brackets 1 0 (emit (Release m)).
Proof. intros s a s' [= <- <-]. by exists [Release m]. Qed.

Lemma brackets_when d b m : brackets d d m → brackets d d (when b m).
Proof.
  intros Hm. destruct b; [done|]. intros s a s' [= <- <-]. by exists [].
Qed.

Create HintDb call_db.

Ltac emits_calls := emits_rules; first [exact I | solve [auto with call_db] | idtac].

Lemma init_devices_calls gpus : emits is_call (init_devices gpus).
Proof. induction gpus as [|g rest IH]; cbn [init_devices]; emits_calls. Qed.
Lemma refresh_all_calls n i cur_device : emits is_call (refresh_all n i cur_device).
Proof. revert i. induction n as [|n IH]; intros i; cbn [refresh_all]; emits_calls. Qed.
#[local] Hint Resolve init_devices_calls refresh_all_calls : call_db.

Lemma update_dev_info_calls device : emits is_call (update_dev_info device).
Proof. unfold update_dev_info. emits_calls. Qed.
Lemma account_allocation_calls device carved :
  emits is_call (account_allocation device carved).
Proof. unfold account_allocation. emits_calls. Qed.
Lemma refresh_after_error_calls device : emits is_call (refresh_after_error device).
Proof. unfold refresh_after_error. emits_calls. Qed.
Lemma resize_buffers_calls device group : emits is_call (resize_buffers device group).
Proof. unfold resize_buffers, resize_row. emits_calls. Qed.
Lemma reset_calls : emits is_call reset.
Proof. unfold reset, reset_cub_allocator. emits_calls. Qed.
Lemma GetInfo_calls with_update : emits is_call (GetInfo with_update).
Proof. unfold GetInfo. emits_calls. Qed.
Lemma set_device_calls device : emits is_call (set_device device).
Proof. unfold set_device. emits_calls. Qed.
Lemma current_device_calls : emits is_call current_device.
Proof. unfold current_device. emits_calls. Qed.
Lemma free_host_buffers_calls buffers : emits is_call (free_host_buffers buffers).
Proof. induction buffers as [|b rest IH]; cbn [free_host_buffers]; emits_calls. Qed.

(** The rules of [brackets]: a function without lock events by its
    lemma, the rest by the structure of the code. *)
Ltac brackets_step :=
  first
    [ apply emits_brackets;
      solve [ auto using update_dev_info_calls, account_allocation_calls,
                refresh_after_error_calls, resize_buffers_calls, reset_calls,
                GetInfo_calls, set_device_calls, current_device_calls,
                init_devices_calls, free_host_buffers_calls
            | emits_calls ]
    | apply brackets_acquire | apply brackets_release
    | apply brackets_fatal | apply brackets_undefined
    | apply brackets_when
    | eapply brackets_bind; [|intros ?]
    | match goal with
      | |- brackets _ _ (if ?b then _ else _) => destruct b
      | |- brackets _ _ (match ?x with _ => _ end) => destruct x
      end ].
Ltac brackets_rules := repeat brackets_step.

Lemma report_dev_info_brackets device : brackets 0 0 (report_dev_info device).
Proof. unfold report_dev_info. brackets_rules. Qed.

Lemma report_devices_brackets gpus : brackets 0 0 (report_devices gpus).
Proof.
  induction gpus as [|g rest IH]; cbn [report_devices].
  - apply emits_brackets. emits_calls.
  - eapply brackets_bind; [apply report_dev_info_brackets|]. intros _. exact IH.
Qed.

Lemma init_brackets gpus debug : brackets 0 0 (init gpus debug).
Proof.
  unfold init, reset_cub_allocator.
  repeat first [ apply report_devices_brackets | brackets_step ].
Qed.

Lemma lazy_init_brackets device : brackets 0 0 (lazy_init device).
Proof.
  unfold lazy_init, Scope_new.
  repeat first [ apply init_brackets | brackets_step ].
Qed.

Lemma try_allocate_brackets size device group :
  brackets 0 0 (try_allocate size device group).
Proof.
  unfold try_allocate.
  repeat first [ apply lazy_init_brackets | brackets_step ].
Qed.

Lemma deallocate_brackets ptr device : brackets 0 0 (deallocate ptr device).
Proof. unfold deallocate. brackets_rules. Qed.

Lemma pinned_buffer_brackets size device group :
  brackets 0 0 (pinned_buffer size device group).
Proof. unfold pinned_buffer. brackets_rules. Qed.

Lemma host_buffer_cleaner_brackets buffer : brackets 0 0 (host_buffer_cleaner buffer).
Proof. unfold host_buffer_cleaner. brackets_rules. Qed.

Lemma thread_pinned_buffer_brackets size group :
  brackets 0 0 (thread_pinned_buffer size group).
Proof.
  unfold thread_pinned_buffer, emplace, unique_ptr_delete, device_buffer_cleaner.
  repeat first [ apply host_buffer_cleaner_brackets | brackets_step ].
Qed.

Lemma exec_brackets o : brackets 0 0 (exec o).
Proof.
  destruct o; cbn [exec];
    repeat first [ apply init_brackets | apply try_allocate_brackets
                 | apply deallocate_brackets | brackets_step ].
Qed.

Lemma run_brackets ops : brackets 0 0 (run ops).
Proof.
  induction ops as [|o rest IH]; cbn [run].
  - apply emits_brackets. emits_calls.
  - eapply brackets_bind; [apply exec_brackets|]. intros _. exact IH.
Qed.

Lemma brackets_bracketed {A} (m : M A) : brackets 0 0 m → bracketed m.
Proof.
  intros Hm s a s' H. destruct (Hm _ _ _ H) as (added & Htr & Hd).
  by rewrite (new_events_app _ _ _ Htr).
Qed.

(** X23. Whatever returns has released the mutex as often as it
    acquired it, and has not acquired it while holding it: this holds
    for every sequence of [init], [reset], [try_allocate], [deallocate],
    [GetInfo], [update_dev_info] and changes of the active device, for
    [pinned_buffer], for [thread_pinned_buffer] with the cleaner it may
    run, for [report_dev_info] and for the destructor of the manager.
    In particular the refresh that [try_allocate] makes while it holds
    the mutex takes no hold of its own. *)
Theorem mutex_holds_are_bracketed :
  (∀ ops, bracketed (run ops))
  ∧ (∀ size device group, bracketed (pinned_buffer size device group))
  ∧ (∀ size group, bracketed (thread_pinned_buffer size group))
  ∧ (∀ buffer, bracketed (host_buffer_cleaner buffer))
  ∧ (∀ device, bracketed (report_dev_info device))
  ∧ bracketed Manager_delete
  ∧ (∀ device carved, brackets 1 1 (account_allocation device carved)).
Proof.
  split; [intros; apply brackets_bracketed, run_brackets|].
  split; [intros; apply brackets_bracketed, pinned_buffer_brackets|].
  split; [intros; apply brackets_bracketed, thread_pinned_buffer_brackets|].
  split; [intros; apply brackets_bracketed, host_buffer_cleaner_brackets|].
  split; [intros; apply brackets_bracketed, report_dev_info_brackets|].
  split.
  - apply brackets_bracketed, emits_brackets. unfold Manager_delete.
    apply emits_bind; [apply emits_get_mgr|]. intros m. apply free_host_buffers_calls.
  - intros. apply emits_brackets, account_allocation_calls.
Qed.

Lemma mutex_holds_are_bracketed_witness :
  let s := start 1 stale_oracle in
  let ops := [op_init [0] false; op_try_allocate 100 0 0; op_try_allocate 50 0 0] in
  (run ops s).1 = Ok tt
  ∧ acquisitions (new_events s (run ops s).2) = [shared; shared; shared]
  ∧ holds_after (new_events s (run ops s).2) 0 = Some 0%nat.
Proof.
  intros s ops.
  assert (Hrun : run ops s = (Ok tt, (run ops s).2)) by (vm_compute; reflexivity).
  destruct mutex_holds_are_bracketed as [Hruns _].
  split; [vm_compute; reflexivity|]. split; [vm_compute; reflexivity|].
  exact (Hruns ops s tt _ Hrun).
Defined.

(** ** [Workspace::try_reserve] *)

(** What [try_reserve] does when it returns. *)
Lemma try_reserve_Ok_inv group size device w s b w' s' :
  try_reserve group size device w s = (Ok (b, w'), s') →
  (size ≤ size_ w ∧ ptr_ w ≠ 0 ∧ b = true ∧ w' = w ∧ s' = s)
  ∨ ((size_ w < size ∨ ptr_ w = 0)
     ∧ ∃ s1 p stream,
         let dev := if device =? INVALID_DEVICE then device_ w else device in
         deallocate (ptr_ w) (device_ w) s = (Ok tt, s1)
         ∧ try_allocate size dev group s1 = (Ok (b, p, stream), s')
         ∧ w' = mkWorkspace p (if b then size else 0) dev stream
         ∧ (b = true → p ≠ 0)).
Proof.
  intros H. unfold try_reserve in H.
  destruct ((size_ w <? size) || (ptr_ w =? 0)) eqn:Hcond.
  - right. split.
    { apply orb_true_iff in Hcond as [Hc|Hc]; [left; by apply Z.ltb_lt|right; by apply Z.eqb_eq]. }
    first_action H Hrel. unfold release in Hrel.
    first_action Hrel Hde. destruct a0. finish Hrel. cbn [ptr_ size_ device_ pstream_] in H.
    first_action H Halloc. destruct a as [[allocated p] stream]. cbn [fst snd] in H.
    exists s1, p, stream. cbv zeta.
    assert (device_ (if device =? INVALID_DEVICE
                     then mkWorkspace 0 0 (device_ w) (pstream_ w)
                     else mkWorkspace 0 0 device (pstream_ w))
            = if device =? INVALID_DEVICE then device_ w else device) as Hdev
      by (by destruct (device =? INVALID_DEVICE)).
    rewrite Hdev in *. split; [done|].
    assert (size_ (if device =? INVALID_DEVICE
                   then mkWorkspace 0 0 (device_ w) (pstream_ w)
                   else mkWorkspace 0 0 device (pstream_ w)) = 0) as Hsz
      by (by destruct (device =? INVALID_DEVICE)).
    rewrite Hsz in *.
    destruct allocated.
    + first_action H Hchk. apply CHECK_Ok_inv in Hchk as [Hchk ->].
      finish H. cbn. apply negb_true_iff, Z.eqb_neq in Hchk. done.
    + finish H. cbn. by repeat split.
  - left. apply orb_false_iff in Hcond as [H1 H2].
    apply Z.ltb_ge in H1. apply Z.eqb_neq in H2. finish H. done.
Qed.

(** X24. When [try_reserve] returns, a workspace whose pointer is null
    has size 0.  If it returns [true] the pointer is not null and the
    size is not below the size asked for; if it returns [false] the size
    is 0.  Unless the workspace held enough (and is returned as it was,
    nothing called), the memory it held was handed back, by a
    [deallocate] on the device it was on, before the new allocation was
    asked for on the device given, or on the device it was on when
    [INVALID_DEVICE] is given. *)
Theorem try_reserve_outcome group size device w s b w' s' :
  try_reserve group size device w s = (Ok (b, w'), s') →
  (ptr_ w' = 0 → size_ w' = 0)
  ∧ (b = true → ptr_ w' ≠ 0 ∧ size ≤ size_ w')
  ∧ (b = false → size_ w' = 0)
  ∧ ((w' = w ∧ s' = s ∧ size ≤ size_ w)
     ∨ ∃ s1,
         deallocate (ptr_ w) (device_ w) s = (Ok tt, s1)
         ∧ device_ w' = (if device =? INVALID_DEVICE then device_ w else device)
         ∧ try_allocate size (device_ w') group s1 = (Ok (b, ptr_ w', pstream_ w'), s')).
Proof.
  intros H.
  apply try_reserve_Ok_inv in H
    as [(Hle & Hp & -> & -> & ->)|(Hcond & s1 & p & stream & Hde & Hal & -> & Hnn)].
  - split; [done|]. split; [done|]. split; [done|]. by left.
  - cbn [ptr_ size_ device_ pstream_].
    split; [by destruct b; [intros ?; exfalso; by apply Hnn|]|].
    split; [by intros ->; split; [apply Hnn|]|].
    split; [by intros ->|].
    right. exists s1. done.
Qed.

Lemma try_reserve_outcome_witness :
  let w := mkWorkspace 4096 100 0 7 in
  let s := with_oracle (script [ok 0 0; ok 100 0;
                                ok 0 0; ok 7 0; mkAnswer cudaErrorMemoryAllocation 0 0;
                                mkAnswer cudaErrorMemoryAllocation 0 0])
             (try_allocate 100 0 0 after_init).2 in
  let r := try_reserve 0 200 0 w s in
  r.1 = Ok (false, mkWorkspace 0 0 0 7).
Proof.
  intros w s r.
  assert (Hrun : try_reserve 0 200 0 w s = (Ok (false, mkWorkspace 0 0 0 7), r.2))
    by (vm_compute; reflexivity).
  destruct (try_reserve_outcome 0 200 0 w s false _ r.2 Hrun) as (_ & _ & Hempty & _).
  vm_compute. reflexivity.
Defined.

(** ** [Workspace::safe_reserve] *)

Lemma GetInfo_true_queries s r s1 :
  GetInfo true s = (Ok r, s1) → queries (new_events s s1) = true.
Proof.
  intros H. unfold GetInfo in H. run H. first_action H Hupd. cbn [when] in Hupd.
  pose proof (update_dev_info_queries _ _ _ _ Hupd) as (added & Hadd & Hq).
  first_action H Hdi. apply dev_info_at_Ok_inv in Hdi as (_ & _ & ->).
  run H. finish H. tidy.
  eapply (queries_in_new_events _ _ [_] added [_]); [|done].
  tidy. rewrite Hadd. reflexivity.
Qed.

(** X25. Whatever [align_down<7>] computes and [Workspace::reserve]
    does: [safe_reserve] for a size the workspace holds returns [false]
    with the workspace and the process as they were, nothing called; and
    when it returns for a larger size it returns [true], after a
    [GetInfo] with update that returned, so after a real query of the
    device's memory, and the size asked for exceeded neither the size
    held plus the free bytes reported, rounded.  [false] is returned
    only in the first case: the [return false] after [LOG(FATAL)] is
    never reached. *)
Theorem safe_reserve_outcome align_down_7 reserve size device w s :
  (size ≤ size_ w →
   safe_reserve align_down_7 reserve size device w s = (Ok (false, w), s))
  ∧ ∀ b w' s',
      safe_reserve align_down_7 reserve size device w s = (Ok (b, w'), s') →
      (b = false → size ≤ size_ w ∧ w' = w ∧ s' = s)
      ∧ (b = true →
         size_ w < size
         ∧ ∃ free total s1 w1 s2,
             GetInfo true s = (Ok (free, total), s1)
             ∧ size ≤ add64 (size_ w) (size_t (align_down_7 free))
             ∧ release w s1 = (Ok w1, s2)
             ∧ reserve size device w1 s2 = (Ok w', s')
             ∧ queries (new_events s s1) = true).
Proof.
  split.
  - intros Hle. unfold safe_reserve. by destruct (Z.leb_spec size (size_ w)); [|lia].
  - intros b w' s' H. unfold safe_reserve in H.
    destruct (Z.leb_spec size (size_ w)) as [Hle|Hgt].
    + finish H. by split.
    + first_action H Hinfo. destruct a as [free total]. cbn [fst] in H.
      destruct (Z.ltb_spec (add64 (size_ w) (size_t (align_down_7 free))) size) as [|Hfit];
        [discriminate|].
      first_action H Hrel. first_action H Hres. finish H.
      split; [done|]. intros _. split; [done|].
      exists free, total, s0, a, s1. split; [done|]. split; [done|].
      split; [done|]. split; [done|].
      exact (GetInfo_true_queries _ _ _ Hinfo).
Qed.

Lemma safe_reserve_outcome_witness :
  let w := mkWorkspace 4096 100 0 7 in
  let s := with_oracle growth_oracle (try_allocate 100 0 0 after_init).2 in
  let r := safe_reserve example_align_down_7 example_reserve 200 0 w s in
  r.1 = Ok (true, mkWorkspace 8192 200 0 7)
  ∧ dev_info_ (mgr_ r.2) = [mkDevInfo 800 1000 0]
  ∧ safe_reserve example_align_down_7 example_reserve 64 0 w s = (Ok (false, w), s).
Proof.
  intros w s r.
  split; [vm_compute; reflexivity|]. split; [vm_compute; reflexivity|].
  apply (proj1 (safe_reserve_outcome example_align_down_7 example_reserve 64 0 w s)).
  vm_compute. discriminate.
Defined.

(** ** [GPUMemory::Init] and [GPUMemory::Finalize] *)

(** One table of [Init]: room for the device, and a workspace there. *)
Lemma Init_table_Ok_inv (Workspace_new : M Workspace) device (v0 : list (option Workspace)) v1 e v2 s s1 s2 s3 :
  (if vector_size v0 <? size_t (device + 1)
   then vector_resize (size_t (device + 1)) None v0
   else mret v0 : M (list (option Workspace))) s = (Ok v1, s1) →
  at_ v1 device s1 = (Ok e, s2) →
  (match e with
   | Some _ => mret v1
   | None => w ← Workspace_new; mret (<[Z.to_nat device := Some w]> v1)
   end : M (list (option Workspace))) s2 = (Ok v2, s3) →
  0 ≤ device ∧ s1 = s ∧ s2 = s
  ∧ (∃ w, v2 !! Z.to_nat device = Some (Some w))
  ∧ (∀ i w, v0 !! i = Some (Some w) → v2 !! i = Some (Some w))
  ∧ (∀ i e', i ≠ Z.to_nat device → v2 !! i = Some e' → e' = None ∨ v0 !! i = Some e')
  ∧ ((∃ w, v0 !! Z.to_nat device = Some (Some w)) → v2 = v0 ∧ s3 = s).
Proof.
  intros Hroom Hat Hnew.
  apply at_Ok_inv in Hat as (Hd & He & ->). split; [done|].
  assert (s1 = s ∧ (∀ i x, v0 !! i = Some x → v1 !! i = Some x)
          ∧ (∀ i x, v1 !! i = Some x → x = None ∨ v0 !! i = Some x)
          ∧ (is_Some (v0 !! Z.to_nat device) → v1 = v0)) as (-> & Hkeep & Hold & Hsame).
  { destruct (Z.ltb_spec (vector_size v0) (size_t (device + 1))) as [Hlt|Hge].
    - apply vector_resize_Ok_inv in Hroom as [-> ->]. split; [done|].
      unfold vector_size in Hlt. split; [|split].
      + intros i x Hx. apply lookup_lt_Some in Hx as Hi.
        rewrite lookup_resize by lia. done.
      + intros i x Hx. destruct (decide (i < length v0)%nat).
        * right. apply lookup_lt_Some in Hx as Hi. rewrite length_resize in Hi.
          rewrite lookup_resize in Hx by lia. done.
        * left. apply lookup_lt_Some in Hx as Hlt'. rewrite length_resize in Hlt'.
          rewrite lookup_resize_new in Hx by lia. congruence.
      + intros [x Hx]. apply lookup_lt_Some in Hx. exfalso.
        pose proof (Z.mod_le (device + 1) (2 ^ 64)). unfold size_t in Hlt. lia.
    - finish Hroom. split; [done|]. split; [done|]. split; [by right|done]. }
  split; [done|]. split; [done|].
  destruct e as [w|].
  - finish Hnew. split; [eauto|]. split; [by intros i w' ?; apply Hkeep|].
    split; [by intros i e' _ ?; apply Hold|].
    intros [w' Hw']. split; [|done]. apply Hsame. eauto.
  - first_action Hnew Hw. finish Hnew.
    pose proof (lookup_lt_Some _ _ _ He) as Hlt.
    split; [eexists; by apply list_lookup_insert_eq|].
    split.
    { intros i w' Hw'. destruct (decide (i = Z.to_nat device)) as [->|Hne].
      - apply Hkeep in Hw'. congruence.
      - rewrite list_lookup_insert_ne by done. by apply Hkeep. }
    split.
    { intros i e' Hne. rewrite list_lookup_insert_ne by done. apply Hold. }
    intros [w' Hw']. apply Hkeep in Hw'. congruence.
Qed.

(** What [Init] does when it returns. *)
Lemma Init_Ok_inv (Workspace_new : M Workspace) t s t' s' :
  Init Workspace_new t s = (Ok t', s') →
  let d := Z.to_nat (active_device (cuda s)) in
  0 ≤ active_device (cuda s)
  ∧ status (answers (cuda s) (clock (cuda s))) = cudaSuccess
  ∧ (∃ w, workspace_ t' !! d = Some (Some w))
  ∧ (∃ w, weights_workspace_ t' !! d = Some (Some w))
  ∧ (∀ i w, workspace_ t !! i = Some (Some w) → workspace_ t' !! i = Some (Some w))
  ∧ (∀ i w, weights_workspace_ t !! i = Some (Some w) →
            weights_workspace_ t' !! i = Some (Some w))
  ∧ (∀ i e, i ≠ d → workspace_ t' !! i = Some e → e = None ∨ workspace_ t !! i = Some e)
  ∧ (∀ i e, i ≠ d → weights_workspace_ t' !! i = Some e →
            e = None ∨ weights_workspace_ t !! i = Some e)
  ∧ ((∃ w, workspace_ t !! d = Some (Some w)) →
     (∃ w, weights_workspace_ t !! d = Some (Some w)) →
     t' = t ∧ s' = set_cuda (record_call cudaGetDevice) s).
Proof.
  intros H d. unfold Init in H.
  first_action H Hdev. apply current_device_Ok_inv in Hdev as (Hst & -> & ->).
  step H.
  first_action H Hr1. first_action H Ha1. first_action H Hn1.
  destruct (Init_table_Ok_inv _ _ _ _ _ _ _ _ _ _ Hr1 Ha1 Hn1)
    as (Hd & -> & -> & Hsome1 & Hkeep1 & Hother1 & Hsame1).
  first_action H Hr2. first_action H Ha2. first_action H Hn2.
  destruct (Init_table_Ok_inv _ _ _ _ _ _ _ _ _ _ Hr2 Ha2 Hn2)
    as (_ & -> & -> & Hsome2 & Hkeep2 & Hother2 & Hsame2).
  finish H. cbn [workspace_ weights_workspace_]. fold d in Hsome1, Hsome2, Hother1, Hother2.
  split; [done|]. split; [done|]. split; [done|]. split; [done|].
  split; [done|]. split; [done|]. split; [done|]. split; [done|].
  intros H1 H2. destruct (Hsame1 H1) as [-> ->]. destruct (Hsame2 H2) as [-> ->].
  by destruct t.
Qed.

(** X26. Whatever the constructor of [Workspace] does: when [Init]
    returns, both tables hold a workspace for the calling thread's active
    device, every workspace the tables held is still there, and the other
    entries are as they were or new and empty; and when both tables
    already hold a workspace for the device, [Init] constructs nothing:
    the tables are as they were and the only call made is
    [cudaGetDevice].  So a second [Init] on the same device changes
    nothing. *)
Theorem Init_creates_once (Workspace_new : M Workspace) t s t1 s1 :
  Init Workspace_new t s = (Ok t1, s1) →
  let d := Z.to_nat (active_device (cuda s)) in
  0 ≤ active_device (cuda s)
  ∧ (∃ w, workspace_ t1 !! d = Some (Some w))
  ∧ (∃ w, weights_workspace_ t1 !! d = Some (Some w))
  ∧ (∀ i w, workspace_ t !! i = Some (Some w) → workspace_ t1 !! i = Some (Some w))
  ∧ (∀ i w, weights_workspace_ t !! i = Some (Some w) →
            weights_workspace_ t1 !! i = Some (Some w))
  ∧ (∀ i e, i ≠ d → workspace_ t1 !! i = Some e → e = None ∨ workspace_ t !! i = Some e)
  ∧ (∀ i e, i ≠ d → weights_workspace_ t1 !! i = Some e →
            e = None ∨ weights_workspace_ t !! i = Some e)
  ∧ ∀ t2 s2,
      active_device (cuda s1) = active_device (cuda s) →
      Init Workspace_new t1 s1 = (Ok t2, s2) →
      t2 = t1 ∧ s2 = set_cuda (record_call cudaGetDevice) s1.
Proof.
  intros H d.
  apply Init_Ok_inv in H as (Hd & _ & Hs1 & Hs2 & Hk1 & Hk2 & Ho1 & Ho2 & _).
  fold d in Hs1, Hs2, Ho1, Ho2.
  split; [done|]. split; [done|]. split; [done|]. split; [done|].
  split; [done|]. split; [done|]. split; [done|].
  intros t2 s2 Hsame H2.
  apply Init_Ok_inv in H2 as (_ & _ & _ & _ & _ & _ & _ & _ & Hnoop).
  rewrite Hsame in Hnoop. by apply Hnoop.
Qed.

Lemma Init_creates_once_witness :
  let fresh : M Workspace := mret (mkWorkspace 0 0 0 0) in
  let s := set_cuda (select_device 1) (start 2 session_oracle) in
  let held := mkWorkspace 4096 100 2 7 in
  let t := mkWorkspaces [] [None; None; Some held] in
  let t1 := mkWorkspaces [None; Some (mkWorkspace 0 0 0 0)]
                         [None; Some (mkWorkspace 0 0 0 0); Some held] in
  (Init fresh t s).1 = Ok t1
  ∧ ∃ w, workspace_ t1 !! 1%nat = Some (Some w).
Proof.
  intros fresh s held t t1.
  assert (Hrun : Init fresh t s = (Ok t1, (Init fresh t s).2)) by (vm_compute; reflexivity).
  split; [vm_compute; reflexivity|].
  destruct (Init_creates_once fresh t s t1 _ Hrun) as (_ & Hw & _).
  exact Hw.
Defined.

(** One table of [Finalize]. *)
Lemma release_and_reset_Ok_inv device v v' s s' :
  release_and_reset device v s = (Ok v', s') →
  length v' = length v
  ∧ (∀ i, i ≠ Z.to_nat device → v' !! i = v !! i)
  ∧ (0 ≤ device → ∀ w, v' !! Z.to_nat device ≠ Some (Some w))
  ∧ ((device < 0 ∨ ∀ w, v !! Z.to_nat device ≠ Some (Some w)) → v' = v ∧ s' = s)
  ∧ (0 ≤ device → ∀ w, v !! Z.to_nat device = Some (Some w) →
       ∃ w', release w s = (Ok w', s')).
Proof.
  intros H. unfold release_and_reset in H.
  destruct (Z.ltb_spec (size_t device) (vector_size v)) as [Hlt|Hge].
  - first_action H Hat. apply at_Ok_inv in Hat as (Hd & He & ->).
    destruct a as [w|].
    + first_action H Hrel. finish H.
      pose proof (lookup_lt_Some _ _ _ He) as Hlen.
      split; [by rewrite length_insert|].
      split; [by intros i Hi; rewrite list_lookup_insert_ne|].
      split; [intros _ w'; rewrite list_lookup_insert_eq by done; congruence|].
      split; [intros [?|Hno]; [lia|by destruct (Hno w)]|].
      intros _ w' Hw'. assert (w' = w) as -> by congruence. eauto.
    + finish H. split; [done|]. split; [done|].
      split; [intros _ w; congruence|]. split; [done|]. intros _ w Hw. congruence.
  - finish H. split; [done|]. split; [done|].
    assert (0 ≤ device → v !! Z.to_nat device = None) as Hnone.
    { intros Hd. apply lookup_ge_None. unfold vector_size, size_t in Hge.
      pose proof (Z.mod_le device (2 ^ 64)). lia. }
    split; [intros Hd w; rewrite (Hnone Hd); congruence|]. split; [done|].
    intros Hd w Hw. rewrite (Hnone Hd) in Hw. congruence.
Qed.

(** X27. When [Finalize] returns, neither table holds a workspace for
    the calling thread's active device, the tables have the lengths they
    had and their other entries are as they were.  When both tables held
    a workspace for the device, both were released, the one of
    [workspace_] first; when neither table held one, or the active device
    is negative, the tables are as they were and the only call made is
    [cudaGetDevice]. *)
Theorem Finalize_drops_workspaces t s t' s' :
  Finalize t s = (Ok t', s') →
  let device := active_device (cuda s) in
  let d := Z.to_nat device in
  let s0 := set_cuda (record_call cudaGetDevice) s in
  length (workspace_ t') = length (workspace_ t)
  ∧ length (weights_workspace_ t') = length (weights_workspace_ t)
  ∧ (∀ i, i ≠ d → workspace_ t' !! i = workspace_ t !! i
                   ∧ weights_workspace_ t' !! i = weights_workspace_ t !! i)
  ∧ (0 ≤ device → ∀ w, workspace_ t' !! d ≠ Some (Some w)
                       ∧ weights_workspace_ t' !! d ≠ Some (Some w))
  ∧ ((device < 0 ∨ ∀ w, workspace_ t !! d ≠ Some (Some w)
                        ∧ weights_workspace_ t !! d ≠ Some (Some w)) →
     t' = t ∧ s' = s0)
  ∧ (0 ≤ device → ∀ w1 w2,
       workspace_ t !! d = Some (Some w1) →
       weights_workspace_ t !! d = Some (Some w2) →
       ∃ w1' s1 w2', release w1 s0 = (Ok w1', s1) ∧ release w2 s1 = (Ok w2', s')).
Proof.
  intros H device d s0. unfold Finalize in H.
  first_action H Hdev. apply current_device_Ok_inv in Hdev as (Hst & -> & ->).
  first_action H H1. first_action H H2. finish H. cbn [workspace_ weights_workspace_].
  apply release_and_reset_Ok_inv in H1 as (Hl1 & Ho1 & Hn1 & Hs1 & Hr1).
  apply release_and_reset_Ok_inv in H2 as (Hl2 & Ho2 & Hn2 & Hs2 & Hr2).
  fold device d s0 in Ho1, Ho2, Hn1, Hn2, Hs1, Hs2, Hr1, Hr2 |- *.
  split; [done|]. split; [done|].
  split; [by intros i Hi; split; [apply Ho1|apply Ho2]|].
  split; [by intros Hd w; split; [apply Hn1|apply Hn2]|].
  split.
  - intros Hcase.
    assert (device < 0 ∨ ∀ w, workspace_ t !! d ≠ Some (Some w)) as Hc1
      by (destruct Hcase as [?|Hno]; [by left|right; intros w; apply Hno]).
    assert (device < 0 ∨ ∀ w, weights_workspace_ t !! d ≠ Some (Some w)) as Hc2
      by (destruct Hcase as [?|Hno]; [by left|right; intros w; apply Hno]).
    destruct (Hs1 Hc1) as [-> ->]. destruct (Hs2 Hc2) as [-> ->]. by destruct t.
  - intros Hd w1 w2 Hw1 Hw2.
    destruct (Hr1 Hd _ Hw1) as (w1' & Hrel1). destruct (Hr2 Hd _ Hw2) as (w2' & Hrel2).
    eauto.
Qed.

Lemma Finalize_drops_workspaces_witness :
  let t := mkWorkspaces [Some (mkWorkspace 4096 100 0 7)] [Some (mkWorkspace 0 0 0 0)] in
  let s := with_oracle (script [ok 0 0; ok 0 0; ok 100 0])
             (try_allocate 100 0 0 after_init).2 in
  let r := Finalize t s in
  r.1 = Ok (mkWorkspaces [None] [None])
  ∧ dev_info_ (mgr_ r.2) = [mkDevInfo 1000 1000 0].
Proof.
  intros t s r.
  assert (Hrun : Finalize t s = (Ok (mkWorkspaces [None] [None]), r.2))
    by (vm_compute; reflexivity).
  destruct (Finalize_drops_workspaces t s _ r.2 Hrun) as (Hlen & _).
  split; [vm_compute; reflexivity|]. vm_compute. reflexivity.
Defined.

(** * The free estimate and what the cache reports *)

Lemma well_reported_app added tr :
  well_reported (added ++ tr) = true → well_reported tr = true.
Proof.
  induction added as [|e added IH]; [done|]. cbn [app well_reported].
  intros [_ H]%andb_true_iff. by apply IH.
Qed.

Lemma carved_bytes_nonneg d e : 0 ≤ carved_bytes d e.
Proof.
  destruct e as [[] a| |]; cbn; try lia.
  destruct (_ && _); [apply size_t_range|lia].
Qed.

Lemma freed_bytes_device d d' p a :
  freed_bytes d (Called (cub_DeviceFree d' p) a)
  = if d' =? d then freed_bytes d' (Called (cub_DeviceFree d' p) a) else 0.
Proof.
  cbn. rewrite Z.eqb_refl, andb_true_r.
  destruct (Z.eqb_spec d' d); [by rewrite andb_true_r|by rewrite andb_false_r].
Qed.

Lemma refresh_of_ok d mem tr di : refresh_of d mem tr = Some di → dev_ok di.
Proof.
  unfold refresh_of. intros E.
  repeat match type of E with
         | match ?x with _ => _ end = _ => destruct x; try discriminate
         end.
  injection E as <-. apply refreshed_ok.
Qed.

Lemma held_bound_nonneg d tr : well_reported tr = true → 0 ≤ held_bound d tr.
Proof.
  induction tr as [|e tr IH]; [done|]. cbn [well_reported].
  intros [Hfit Htr]%andb_true_iff. specialize (IH Htr).
  destruct e as [c a| |]; [|exact IH..].
  destruct c; try exact IH; cbn [held_bound].
  - destruct (refresh_of d a tr) as [di|] eqn:E; [|exact IH].
    apply refresh_of_ok in E. unfold dev_ok in E. lia.
  - pose proof (carved_bytes_nonneg d (Called (cub_DeviceAllocate device size stream) a)). lia.
  - rewrite freed_bytes_device. cbn [report_fits] in Hfit. apply Z.leb_le in Hfit.
    destruct (Z.eqb_spec device d) as [->|]; lia.
Qed.

Lemma refresh_of_device d mem tr di :
  refresh_of d mem tr = Some di →
  ∃ props rest, tr = Called (cudaGetDeviceProperties d) props :: rest.
Proof.
  unfold refresh_of. intros E.
  destruct tr as [|[[] props| |] rest]; try discriminate.
  destruct (Z.eqb_spec device d) as [->|]; [eauto|].
  repeat match type of E with
         | match ?x with _ => _ end = _ => destruct x; try discriminate
         end.
Qed.

(** The plain form implies the condition of the statements, and under it
    the bound is what is outstanding. *)
Lemma plainly_reported_well tr :
  plainly_reported tr = true →
  well_reported tr = true ∧ ∀ d, held_bound d tr = outstanding d tr.
Proof.
  unfold outstanding, total_of.
  induction tr as [|e tr IH]; cbn [plainly_reported well_reported held_bound foldr].
  - intros _. split; [done|]. intros d. lia.
  - intros [Hfit Htr]%andb_true_iff. destruct (IH Htr) as [Hw Hheld]. clear IH.
    rewrite Hw, andb_true_r.
    destruct e as [c a| |]; cbn [report_fits carved_bytes freed_bytes];
      [|split; [done|intros d; rewrite Hheld; lia]..].
    destruct c; cbn [report_fits carved_bytes freed_bytes];
      try (split; [done|intros d; rewrite Hheld; lia]).
    + split; [done|]. intros d.
      destruct (refresh_of d a tr) as [di|] eqn:E; [|rewrite Hheld; lia].
      destruct (refresh_of_device _ _ _ _ E) as (props & rest & ->).
      cbn [plainly_fits] in Hfit. rewrite E in Hfit. apply Z.leb_le in Hfit.
      unfold outstanding, total_of in Hfit. rewrite Hheld. lia.
    + split; [|intros d; rewrite Hheld; lia].
      unfold plainly_fits in Hfit.
      assert (Hle : freed_bytes device (Called (cub_DeviceFree device p) a)
                    ≤ outstanding device tr).
      { destruct tr; by apply Z.leb_le. }
      apply Z.leb_le. rewrite Hheld. exact Hle.
Qed.

#[local] Instance keeps_covered_refl d : Reflexive (keeps_covered d).
Proof. intros s. split; [by exists []|auto]. Qed.
#[local] Instance keeps_covered_trans d : Transitive (keeps_covered d).
Proof.
  intros s1 s2 s3 [[a1 H1] K1] [[a2 H2] K2]. split.
  - exists (a2 ++ a1). by rewrite H2, H1, app_assoc.
  - intros Hw Hc. apply K2; [done|]. apply K1; [|done].
    rewrite H2 in Hw. by apply well_reported_app in Hw.
Qed.

(** An action that adds no event of the cache and leaves the table. *)
Ltac covered_same :=
  split; [first [by exists [] | by eexists [_] | by eexists [_; _]
                | by eexists [_; _; _; _]]
         | intros _ Hc; exact Hc].

Lemma store_dev_info_covered d device f :
  (∀ di, free_ (f di) = free_ di ∧ total_ (f di) = total_ di) →
  keeps (keeps_covered d) (store_dev_info device f).
Proof.
  intros Hf s u s' (di & Hd & Hdi & ->)%store_dev_info_Ok_inv.
  split; [by exists []|]. intros _. unfold covered, covered_up_to. tidy.
  destruct (decide (Z.to_nat d = Z.to_nat device)) as [E|E].
  - rewrite E, Hdi. rewrite list_lookup_insert_eq by (by eapply lookup_lt_Some).
    by destruct (Hf di) as [-> ->].
  - by rewrite list_lookup_insert_ne by done.
Qed.

Lemma store_update_threshold_covered d device t :
  keeps (keeps_covered d) (store_update_threshold device t).
Proof. intros s u s' (old & _ & _ & ->)%store_update_threshold_Ok_inv. covered_same. Qed.

Lemma grown_outside device v i :
  v !! i = None → grown device v !! i = None ∨ grown device v !! i = Some DevInfo_new.
Proof.
  unfold grown. destruct (_ <? _); [|by left]. intros Hi.
  apply lookup_ge_None in Hi.
  destruct (decide (i < Z.to_nat (size_t (device + 1)))%nat).
  - right. by apply lookup_resize_new.
  - left. apply lookup_ge_None. rewrite length_resize. lia.
Qed.

(** A refresh covers its device, whatever the table held, and leaves the
    other devices as they were. *)
Lemma update_dev_info_held d device u s s' :
  update_dev_info device s = (Ok u, s') →
  0 ≤ d →
  (∃ added, trace (cuda s') = added ++ trace (cuda s))
  ∧ (d = device → covered d s')
  ∧ (d ≠ device → covered d s → covered d s').
Proof.
  intros H Hd.
  pose proof (update_dev_info_calls_succeed _ _ _ _ H) as Hst.
  pose proof (Hst 1%nat ltac:(lia)) as Hsel. pose proof (Hst 3%nat ltac:(lia)) as Hprops.
  pose proof (Hst 4%nat ltac:(lia)) as Hmem. clear Hst.
  apply update_dev_info_Ok in H as (old & Hdev & Hold & ->).
  unfold covered, covered_up_to, after_refresh. tidy. cbn [held_bound Nat.add] in *.
  split; [by eexists [_; _; _; _; _; _]|].
  pose proof (lookup_lt_Some _ _ _ Hold) as Hlt.
  unfold refresh_of, succeeded. rewrite !bool_decide_eq_true_2 by done.
  split.
  - intros ->. rewrite Z.eqb_refl. cbn [andb].
    rewrite list_lookup_insert_eq by done. unfold refreshed. cbn [free_ total_].
    pose proof (size_t_range (out1 (answers (cuda s) (S (S (S (S (clock (cuda s))))))))).
    pose proof (size_t_range (out2 (answers (cuda s) (S (S (S (S (clock (cuda s))))))))).
    pose proof (size_t_range (out1 (answers (cuda s) (S (S (S (clock (cuda s)))))))).
    lia.
  - intros Hne. destruct (Z.eqb_spec device d); [congruence|]. cbn [andb].
    rewrite list_lookup_insert_ne by lia.
    destruct (dev_info_ (mgr_ s) !! Z.to_nat d) as [di|] eqn:E.
    + by rewrite (grown_lookup _ _ _ _ E).
    + destruct (grown_outside device _ _ E) as [-> | ->]; [done|]. cbn. lia.
Qed.

Lemma update_dev_info_covered d device :
  0 ≤ d → keeps (keeps_covered d) (update_dev_info device).
Proof.
  intros Hd s u s' H.
  destruct (update_dev_info_held _ _ _ _ _ H Hd) as (Htr & Heq & Hne).
  split; [done|]. intros _ Hc. destruct (decide (d = device)); auto.
Qed.

Lemma report_dev_info_covered d device : keeps (keeps_covered d) (report_dev_info device).
Proof.
  intros s r s' H. unfold report_dev_info, dev_info_at in H. run H. finish H.
  covered_same.
Qed.

Create HintDb covered_db.
#[local] Hint Resolve update_dev_info_covered report_dev_info_covered
  store_update_threshold_covered : covered_db.

Lemma incr_flush_count_covered d device :
  keeps (keeps_covered d) (store_dev_info device incr_flush_count).
Proof. by apply store_dev_info_covered. Qed.
#[local] Hint Resolve incr_flush_count_covered : covered_db.

Ltac keeps_covered_rules :=
  repeat first [ solve [auto with covered_db] | keeps_step ];
  try covered_same.

Lemma set_device_covered d device : keeps (keeps_covered d) (set_device device).
Proof. unfold set_device. keeps_covered_rules. Qed.

Lemma current_device_covered d : keeps (keeps_covered d) current_device.
Proof. unfold current_device. keeps_covered_rules. Qed.
#[local] Hint Resolve set_device_covered current_device_covered : covered_db.

Lemma init_devices_covered d gpus : 0 ≤ d → keeps (keeps_covered d) (init_devices gpus).
Proof.
  intros Hd. induction gpus as [|g rest IH]; cbn [init_devices]; unfold dev_info_at;
    keeps_covered_rules.
Qed.

Lemma report_devices_covered d gpus : keeps (keeps_covered d) (report_devices gpus).
Proof. induction gpus as [|g rest IH]; cbn [report_devices]; keeps_covered_rules. Qed.
#[local] Hint Resolve init_devices_covered report_devices_covered : covered_db.

Lemma init_covered d gpus debug : 0 ≤ d → keeps (keeps_covered d) (init gpus debug).
Proof. intros Hd. unfold init, reset_cub_allocator. keeps_covered_rules. Qed.
#[local] Hint Resolve init_covered : covered_db.

Lemma reset_covered d : keeps (keeps_covered d) reset.
Proof. unfold reset, reset_cub_allocator. keeps_covered_rules. Qed.

Lemma lazy_init_covered d device : 0 ≤ d → keeps (keeps_covered d) (lazy_init device).
Proof. intros Hd. unfold lazy_init, Scope_new. keeps_covered_rules. Qed.

Lemma refresh_all_covered d n i cur_device :
  0 ≤ d → keeps (keeps_covered d) (refresh_all n i cur_device).
Proof.
  intros Hd. revert i. induction n as [|n IH]; intros i; cbn [refresh_all];
    unfold dev_info_at; keeps_covered_rules.
Qed.
#[local] Hint Resolve refresh_all_covered : covered_db.

Lemma refresh_after_error_covered d device :
  0 ≤ d → keeps (keeps_covered d) (refresh_after_error device).
Proof. intros Hd. unfold refresh_after_error, dev_info_at. keeps_covered_rules. Qed.

Lemma GetInfo_covered d with_update : 0 ≤ d → keeps (keeps_covered d) (GetInfo with_update).
Proof. intros Hd. unfold GetInfo, dev_info_at. keeps_covered_rules. Qed.

(** The accounting inside the lock, entered with the bytes just carved
    not yet accounted: it covers them, by a refresh or by the debit. *)
Lemma account_allocation_covered d device carved u s s' :
  account_allocation device carved s = (Ok u, s') →
  0 ≤ d → 0 ≤ carved →
  (∃ added, trace (cuda s') = added ++ trace (cuda s))
  ∧ (covered_up_to (if device =? d then carved else 0) d s → covered d s').
Proof.
  unfold account_allocation. intros H Hd Hcarved.
  destruct (Z.ltb_spec 0 carved) as [Hpos|Hzero]; cbn [when] in H.
  2:{ finish H. split; [by exists []|].
      assert (carved = 0) as -> by lia. by destruct (device =? d). }
  first_action H Hdi. apply dev_info_at_Ok_inv in Hdi as (Hdev & Hdi & ->).
  first_action H Hthr. apply update_threshold_at_Ok_inv in Hthr as (_ & Hthr & ->).
  assert (Hrefresh : ∀ sa, update_dev_info device s = (Ok tt, sa) →
            (∃ added, trace (cuda sa) = added ++ trace (cuda s))
            ∧ (covered_up_to (if device =? d then carved else 0) d s → covered d sa)).
  { intros sa Hupd.
    destruct (update_dev_info_held _ _ _ _ _ Hupd Hd) as (Htr & Heq & Hne).
    split; [done|]. intros Hc.
    destruct (Z.eqb_spec device d) as [->|Hdiff]; [by apply Heq|].
    apply Hne; [congruence|exact Hc]. }
  destruct (_ <? _).
  - first_action H Hupd. destruct a1.
    destruct (Hrefresh _ Hupd) as [Htr Hc].
    first_action H Hthr2. apply update_threshold_at_Ok_inv in Hthr2 as (_ & _ & ->).
    apply store_update_threshold_Ok_inv in H as (? & _ & _ & ->). tidy.
    split; [done|]. exact Hc.
  - destruct (Z.ltb_spec (free_ a) carved) as [Hbig|Hfit].
    + destruct u. by apply Hrefresh.
    + apply store_dev_info_Ok_inv in H as (di & _ & Hdi' & ->).
      assert (di = a) as -> by congruence.
      split; [by exists []|]. unfold covered, covered_up_to. tidy.
      pose proof (lookup_lt_Some _ _ _ Hdi) as Hlt.
      destruct (Z.eqb_spec device d) as [->|Hdiff].
      * rewrite Hdi, list_lookup_insert_eq by done. cbn [free_ total_ with_free].
        intros (Hfree & Htot & Hheld). pose proof (sub64_le (free_ a) carved Hfit). lia.
      * by rewrite list_lookup_insert_ne by lia.
Qed.

Lemma try_allocate_covered d size device group :
  0 ≤ d → keeps (keeps_covered d) (try_allocate size device group).
Proof.
  intros Hd s r s' H. unfold try_allocate in H.
  first_action H Hm. finish Hm.
  first_action H Hlazy.
  transitivity s0.
  { eapply (keeps_when (keeps_covered d)); [|exact Hlazy]. by apply lazy_init_covered. }
  clear Hlazy. run H.
  destruct (cub_allocator_ (mgr_ s0)); [|first_action H Hu; discriminate].
  run H. first_action H Hacct. run H. first_action H Herr. finish H.
  match type of Hacct with
  | when ?b ?m ?sb = (Ok _, ?sc) =>
      assert (keeps_covered d s0 sc) as Kacct
  end.
  { set (got := answers (cuda s0) (S (S (clock (cuda s0))))) in *.
    pose proof (size_t_range (out2 got)) as Hrange.
    destruct (succeeded got) eqn:Hgot; cbn [andb] in Hacct.
    - destruct (Z.ltb_spec INVALID_DEVICE device) as [Hvalid|Hinvalid]; cbn [when] in Hacct.
      + destruct (account_allocation_covered _ _ _ _ _ _ Hacct Hd ltac:(lia))
          as ((added & Hadd) & Hc).
        split.
        * tidy. eexists (added ++ [_; _; _; _]). rewrite Hadd, <- app_assoc. reflexivity.
        * intros _ Hcov. apply Hc. unfold covered, covered_up_to in *. tidy.
          cbn [held_bound carved_bytes]. fold got. rewrite Hgot. cbn [andb].
          destruct (dev_info_ (mgr_ s0) !! Z.to_nat d); destruct (device =? d); lia.
      + finish Hacct. split; [by eexists [_; _; _; _]|].
        intros _ Hcov. unfold covered, covered_up_to in *. tidy.
        cbn [held_bound carved_bytes]. fold got. rewrite Hgot. cbn [andb].
        destruct (Z.eqb_spec device d); [unfold INVALID_DEVICE in *; lia|].
        destruct (dev_info_ (mgr_ s0) !! Z.to_nat d); lia.
    - cbn [when] in Hacct. finish Hacct. split; [by eexists [_; _; _; _]|].
      intros _ Hcov. unfold covered, covered_up_to in *. tidy.
      cbn [held_bound carved_bytes]. fold got. rewrite Hgot. cbn [andb].
      destruct (dev_info_ (mgr_ s0) !! Z.to_nat d); lia. }
  transitivity s1; [exact Kacct|]. clear Kacct Hacct.
  match type of Herr with
  | when ?b ?m ?sd = (Ok _, ?se) => transitivity sd
  end.
  { covered_same. }
  eapply (keeps_when (keeps_covered d)); [|exact Herr].
  by apply refresh_after_error_covered.
Qed.

Lemma deallocate_covered d ptr device :
  0 ≤ d → keeps (keeps_covered d) (deallocate ptr device).
Proof.
  intros Hd s u s' H. unfold deallocate in H. run H.
  destruct ((ptr =? 0) || _); [finish H; reflexivity|].
  run H. destruct (bool_decide _); [finish H; covered_same|].
  run H. first_action H Hcredit. finish H.
  set (r := answers (cuda s) (S (clock (cuda s)))) in *.
  pose proof (size_t_range (out1 r)) as Hrange.
  assert (Hok : succeeded r = true) by (unfold succeeded; by rewrite bool_decide_eq_true_2).
  match type of Hcredit with
  | when ?b ?m ?sb = (Ok _, ?sc) =>
      assert (trace (cuda sc)
              = Called (cub_DeviceFree device ptr) r :: Acquire shared
                :: Called cudaGetDevice (answers (cuda s) (clock (cuda s))) :: trace (cuda s)
              ∧ (freed_bytes device (Called (cub_DeviceFree device ptr) r)
                 ≤ held_bound device (trace (cuda s)) →
                 covered d s → covered d sc)) as [Htr K]
  end.
  { cbn [freed_bytes]. rewrite Hok, Z.eqb_refl. cbn [andb].
    destruct (Z.ltb_spec 0 (size_t (out1 r))) as [Hpos|Hzero]; cbn [when] in Hcredit.
    - apply store_dev_info_Ok_inv in Hcredit as (di & Hdev & Hdi & ->). tidy.
      split; [done|].
      intros Hfit. unfold covered, covered_up_to. tidy.
      cbn [held_bound freed_bytes]. fold r. rewrite Hok. cbn [andb].
      pose proof (lookup_lt_Some _ _ _ Hdi) as Hlt.
      destruct (Z.eqb_spec device d) as [->|Hdiff].
      + rewrite Hdi, list_lookup_insert_eq by done. cbn [free_ total_ with_free].
        intros (Hfree & Htot & Hheld).
        pose proof (add64_le (free_ di) (size_t (out1 r)) ltac:(lia)). lia.
      + rewrite list_lookup_insert_ne by lia.
        destruct (dev_info_ (mgr_ s) !! Z.to_nat d); lia.
    - finish Hcredit. split; [done|].
      intros _. unfold covered, covered_up_to. tidy.
      cbn [held_bound freed_bytes]. fold r. rewrite Hok. cbn [andb].
      destruct (device =? d); destruct (dev_info_ (mgr_ s) !! Z.to_nat d); lia. }
  split.
  - tidy. rewrite Htr. by eexists [_; _; _; _].
  - intros Hw Hc. tidy. rewrite Htr in Hw. cbn [well_reported report_fits andb] in Hw.
    apply andb_true_iff in Hw as [Hfit _]. apply Z.leb_le in Hfit.
    cbn [held_bound] in Hfit.
    specialize (K Hfit Hc). unfold covered, covered_up_to in *. tidy. exact K.
Qed.

Lemma exec_covered d o : 0 ≤ d → keeps (keeps_covered d) (exec o).
Proof.
  intros Hd. destruct o; cbn [exec].
  - by apply init_covered.
  - apply reset_covered.
  - apply keeps_bind; [typeclasses eauto|by apply try_allocate_covered|].
    intros ?. apply keeps_ret; typeclasses eauto.
  - by apply deallocate_covered.
  - apply keeps_bind; [typeclasses eauto|by apply GetInfo_covered|].
    intros ?. apply keeps_ret; typeclasses eauto.
  - by apply update_dev_info_covered.
  - apply set_device_covered.
Qed.

Lemma run_covered d ops : 0 ≤ d → keeps (keeps_covered d) (run ops).
Proof.
  intros Hd. induction ops as [|o ops IH]; cbn [run].
  - apply keeps_ret; typeclasses eauto.
  - apply keeps_bind; [typeclasses eauto|by apply exec_covered|]. intros ?. exact IH.
Qed.

Lemma run_accounted ops s s' :
  run ops s = (Ok tt, s') →
  well_reported (trace (cuda s')) = true →
  accounted s → accounted s'.
Proof.
  intros Hrun Hw Hacc d Hd.
  destruct (run_covered d ops Hd _ _ _ Hrun) as [_ K]. apply K; [done|]. by apply Hacc.
Qed.

Lemma start_accounted count oracle : accounted (start count oracle).
Proof.
  intros d Hd. unfold covered, covered_up_to. cbn.
  destruct (replicate count DevInfo_new !! Z.to_nat d) as [di|] eqn:E; [|done].
  apply lookup_replicate in E as [-> _]. cbn. lia.
Qed.

(** A table whose devices are covered is within bounds. *)
Lemma accounted_table_ok s :
  accounted s → well_reported (trace (cuda s)) = true → table_ok s.
Proof.
  intros Hacc Hw. apply Forall_lookup. intros i di Hdi.
  specialize (Hacc (Z.of_nat i) ltac:(lia)). unfold covered, covered_up_to in Hacc.
  rewrite Nat2Z.id, Hdi in Hacc.
  pose proof (held_bound_nonneg (Z.of_nat i) _ Hw). unfold dev_ok. lia.
Qed.

Lemma run_app ops1 ops2 s s' :
  run (ops1 ++ ops2) s = (Ok tt, s') →
  ∃ s1, run ops1 s = (Ok tt, s1) ∧ run ops2 s1 = (Ok tt, s').
Proof.
  revert s. induction ops1 as [|o ops1 IH]; intros s H; cbn [app run] in *.
  - by exists s.
  - first_action H Ho. destruct a. destruct (IH _ H) as (s1 & H1 & H2).
    exists s1. split; [|done]. by rewrite (bind_Ok _ _ _ _ _ Ho).
Qed.

(** Without a query, the bound moves by what the cache reported. *)
Lemma held_bound_no_query d added tr :
  queries added = false →
  held_bound d (added ++ tr)
  = held_bound d tr + total_of (carved_bytes d) added - total_of (freed_bytes d) added.
Proof.
  unfold total_of. induction added as [|e added IH]; cbn [app foldr queries existsb].
  - lia.
  - intros [He Hq]%orb_false_iff. specialize (IH Hq).
    destruct e as [c a| |]; cbn [held_bound carved_bytes freed_bytes]; try lia.
    destruct c; try discriminate; cbn [held_bound carved_bytes freed_bytes]; lia.
Qed.

(** The credit of a [deallocate] on a covered device. *)
Lemma deallocate_credit ptr device s s' di :
  deallocate ptr device s = (Ok tt, s') →
  0 ≤ device →
  dev_info_ (mgr_ s) !! Z.to_nat device = Some di →
  covered device s →
  well_reported (trace (cuda s')) = true →
  ∃ di', dev_info_ (mgr_ s') !! Z.to_nat device = Some di'
    ∧ total_ di' = total_ di
    ∧ free_ di' = free_ di + total_of (freed_bytes device) (new_events s s')
    ∧ free_ di ≤ free_ di' ≤ total_ di'.
Proof.
  intros H Hd Hdi Hc Hw.
  destruct (deallocate_covered device ptr device Hd _ _ _ H) as [[added Hadd] K].
  specialize (K Hw Hc).
  assert (Hw0 : well_reported (trace (cuda s)) = true).
  { rewrite Hadd in Hw. by apply well_reported_app in Hw. }
  pose proof (held_bound_nonneg device _ Hw0) as Hheld.
  pose proof (held_bound_nonneg device _ Hw) as Hheld'.
  unfold covered, covered_up_to in Hc, K. rewrite Hdi in Hc.
  apply deallocate_Ok_inv in H as [(Hm & Htr)|(Hst & Htr & Hzero & Hpos)].
  - exists di. rewrite Hm.
    assert (total_of (freed_bytes device) (new_events s s') = 0) as ->.
    { destruct Htr as [E|E].
      - by rewrite (new_events_app _ _ []).
      - by rewrite (new_events_app _ _ [_] E). }
    split; [done|]. split; [done|]. lia.
  - cbn zeta in *.
    set (r := answers (cuda s) (S (clock (cuda s)))) in *.
    pose proof (size_t_range (out1 r)) as Hrange.
    assert (total_of (freed_bytes device) (new_events s s') = size_t (out1 r)) as ->.
    { rewrite (new_events_app _ _ [_; _; _; _] Htr). cbn.
      unfold succeeded. rewrite bool_decide_eq_true_2 by done.
      rewrite Z.eqb_refl. cbn. lia. }
    destruct (Z.eq_dec (size_t (out1 r)) 0) as [Hz|Hnz].
    + exists di. rewrite (Hzero Hz), Hz. split; [done|]. split; [done|]. lia.
    + destruct Hpos as (di0 & Hdi0 & Hm); [lia|].
      assert (di0 = di) as -> by congruence.
      rewrite Hm in K |- *. tidy.
      pose proof (lookup_lt_Some _ _ _ Hdi) as Hlt.
      rewrite list_lookup_insert_eq in K |- * by done.
      eexists. split; [reflexivity|]. cbn [free_ total_ with_free] in *.
      assert (size_t (out1 r) ≤ held_bound device (trace (cuda s))) as Hfit.
      { rewrite Htr in Hw. cbn [well_reported report_fits] in Hw.
        apply andb_true_iff in Hw as [_ Hw]. apply andb_true_iff in Hw as [Hfit _].
        apply Z.leb_le in Hfit. cbn [held_bound freed_bytes] in Hfit.
        unfold succeeded in Hfit. rewrite bool_decide_eq_true_2 in Hfit by done.
        by rewrite Z.eqb_refl in Hfit. }
      assert (add64 (free_ di) (size_t (out1 r)) = free_ di + size_t (out1 r)) as ->.
      { unfold add64, size_t at 1. apply Z.mod_small. lia. }
      split; [done|]. lia.
Qed.



(** The condition on the cache's reports cannot be dropped: in the same
    three calls, with the cache reporting 200 bytes returned for the one
    block, which it had carved as 100, every call returns and the free
    estimate of device 0 ends at 1100 of 1000 bytes. *)
Lemma over_reported_credit_exceeds_total :
  let s0 := start 1 (credit_oracle 200) in
  let r := run credit_session s0 in
  r.1 = Ok tt
  ∧ well_reported (trace (cuda r.2)) = false
  ∧ dev_info_ (mgr_ r.2) = [mkDevInfo 1100 1000 0]
  ∧ ¬ table_ok r.2.
Proof.
  vm_compute. repeat split; try reflexivity.
  intros H. apply Forall_cons in H as [[_ H] _]. cbn in H. apply H. reflexivity.
Qed.


